(** * bolt.diy: the deploy pipeline, the tar archiver, the project detector
    and the streaming parser, embedded and verified

  The development follows the TypeScript sources:
  - [app/routes/api.deploy-docker.ts]: [action], [createTarHeader],
    [handlePackage], [generateFlyToml], [detectPortFromDockerfile],
    [handleFlyDeploy];
  - [app/components/deploy/DockerDeploy.client.tsx]: [detectProject],
    [generateDockerfile], [generateDockerCompose], [generateDockerIgnore],
    [generateNginxConf], [getAllFiles], [handleDockerDeploy];
  - the deploy button component: [handleOneClickDeploy];
  - the message-parser hook: [parseMessages].

  Conventions.  A JavaScript string (a well-formed one, without a lone
  surrogate) is represented by the [string] of its UTF-8 bytes, so
  [TextEncoder.encode] is the list of the bytes of the string; a
  [Uint8Array] is a [list Z] of values in [0, 256); a
  [Record<string, string>] is the association list of its own entries in
  the order [Object.entries] enumerates them. *)

From Stdlib Require Import ZArith String Ascii Lia Bool.
From stdpp Require Import base option list strings gmap.

Local Open Scope string_scope.
Local Open Scope list_scope.
Local Open Scope nat_scope.

(** ** JavaScript built-ins used by the sources *)

Module JS.

(** The characters written [\0], [\n], the double quote and the backslash. *)
Definition NUL : string := String Ascii.zero EmptyString.
Definition LF : string := String (ascii_of_nat 10) EmptyString.
Definition DQ : string := String (ascii_of_nat 34) EmptyString.
Definition BS : string := String (ascii_of_nat 92) EmptyString.

(** [s.startsWith(p)] *)
Fixpoint startsWith (p s : string) : bool :=
  match p, s with
  | EmptyString, _ => true
  | String _ _, EmptyString => false
  | String a p', String b s' => if Ascii.eqb a b then startsWith p' s' else false
  end.

Fixpoint dropStr (n : nat) (s : string) : string :=
  match n, s with
  | O, _ => s
  | S _, EmptyString => EmptyString
  | S n', String _ s' => dropStr n' s'
  end.

Fixpoint takeStr (n : nat) (s : string) : string :=
  match n, s with
  | O, _ => EmptyString
  | S _, EmptyString => EmptyString
  | S n', String a s' => String a (takeStr n' s')
  end.

(** [s.indexOf(p)], [None] standing for [-1]. *)
Fixpoint indexOf (p s : string) : option nat :=
  if startsWith p s then Some O
  else match s with
       | EmptyString => None
       | String _ s' => S <$> indexOf p s'
       end.

(** [s.includes(p)] *)
Definition includes (s p : string) : bool :=
  match indexOf p s with Some _ => true | None => false end.

(** The text before and after the first occurrence of [p] in [s]. *)
Definition splitFirst (p s : string) : option (string * string) :=
  i ← indexOf p s; Some (takeStr i s, dropStr (i + String.length p) s).

(** [GetSubstitution] of ECMA-262 for a string pattern: there are no
    captures, so only [$$], [$&], [$`] and [$'] are expanded and every
    other [$] is copied. *)
Fixpoint GetSubstitution (matched before after repl : string) : string :=
  match repl with
  | EmptyString => EmptyString
  | String a t =>
      if Ascii.eqb a "$" then
        match t with
        | EmptyString => String a EmptyString
        | String b t' =>
            if Ascii.eqb b "$" then String "$" (GetSubstitution matched before after t')
            else if Ascii.eqb b "&" then matched +:+ GetSubstitution matched before after t'
            else if Ascii.eqb b "`" then before +:+ GetSubstitution matched before after t'
            else if Ascii.eqb b "'" then after +:+ GetSubstitution matched before after t'
            else String a (GetSubstitution matched before after t)
        end
      else String a (GetSubstitution matched before after t)
  end.

(** [s.replace(p, repl)] with a string pattern: the first occurrence only. *)
Definition replace (s p repl : string) : string :=
  match splitFirst p s with
  | None => s
  | Some (before, after) =>
      before +:+ GetSubstitution p before after repl +:+ after
  end.

(** Digits of [Number.prototype.toString(radix)]. *)
Definition digitChar (d : Z) : ascii :=
  if (d <? 10)%Z then ascii_of_N (Z.to_N (48 + d)) else ascii_of_N (Z.to_N (87 + d)).

Fixpoint digitsFrom (radix : Z) (fuel : nat) (n : Z) (acc : string) : string :=
  match fuel with
  | O => acc
  | S fuel' =>
      let acc' := String (digitChar (n mod radix)) acc in
      if (n / radix =? 0)%Z then acc' else digitsFrom radix fuel' (n / radix) acc'
  end.

(** [n.toString(radix)] for an integer [n]. *)
Definition toString (radix : Z) (n : Z) : string :=
  if (n <? 0)%Z
  then String "-" (digitsFrom radix (S (Z.to_nat (Z.log2 (- n)))) (- n) EmptyString)
  else digitsFrom radix (S (Z.to_nat (Z.log2 n))) n EmptyString.

Fixpoint repeatChar (n : nat) (c : ascii) : string :=
  match n with O => EmptyString | S n' => String c (repeatChar n' c) end.

(** [s.padStart(k, c)] for a one-character filler. *)
Definition padStart (k : nat) (c : ascii) (s : string) : string :=
  repeatChar (k - String.length s) c +:+ s.

(** [s.slice(0, k)] and [s.slice(-k)] *)
Definition sliceTo (k : nat) (s : string) : string := takeStr k s.
Definition sliceLast (k : nat) (s : string) : string :=
  dropStr (String.length s - k) s.

(** [new TextEncoder().encode(s)] *)
Definition encode (s : string) : list Z :=
  (fun a => Z.of_N (N_of_ascii a)) <$> list_ascii_of_string s.

(** [arr.set(src, off)] on a typed array: a [RangeError] ([None]) when
    the source does not fit. *)
Definition set (src : list Z) (off : nat) (arr : list Z) : option (list Z) :=
  if decide (off + length src ≤ length arr)
  then Some (take off arr ++ src ++ drop (off + length src) arr)
  else None.

(** [files[key]] on a [Record<string, string>]: the own property, [None]
    for [undefined].  The keys the sources read are file names, none of
    which is a property of [Object.prototype]. *)
Fixpoint getFile (key : string) (files : list (string * string)) : option string :=
  match files with
  | [] => None
  | (k, v) :: rest => if decide (k = key) then Some v else getFile key rest
  end.

(** The value of a decimal numeral, [None] for any other text. *)
Fixpoint decimalValue (acc : Z) (s : string) : option Z :=
  match s with
  | EmptyString => Some acc
  | String c s' =>
      let d := (Z.of_N (N_of_ascii c) - 48)%Z in
      if ((0 <=? d) && (d <=? 9))%Z then decimalValue (acc * 10 + d) s' else None
  end.

(** An array index: the canonical numeral of an integer below
    [2 ^ 32 - 1].  Own keys that are array indices are enumerated first, in
    ascending order. *)
Definition arrayIndex (key : string) : option Z :=
  match key with
  | EmptyString => None
  | String _ _ =>
      n ← decimalValue 0 key;
      if bool_decide (toString 10 n = key) && (n <? 2 ^ 32 - 1)%Z then Some n else None
  end.

(** The value of an own property changed in place. *)
Fixpoint updateFile (key value : string) (files : list (string * string))
  : list (string * string) :=
  match files with
  | [] => []
  | (k, v) :: rest =>
      if decide (k = key) then (k, value) :: rest else (k, v) :: updateFile key value rest
  end.

(** A new array index [n] takes its place among the array indices. *)
Fixpoint insertIndex (n : Z) (key value : string) (files : list (string * string))
  : list (string * string) :=
  match files with
  | [] => [(key, value)]
  | (k, v) :: rest =>
      match arrayIndex k with
      | Some m =>
          if (m <? n)%Z then (k, v) :: insertIndex n key value rest
          else (key, value) :: (k, v) :: rest
      | None => (key, value) :: (k, v) :: rest
      end
  end.

(** [files[key] = value] on an ordinary object: an own property is changed
    in place; a new [__proto__] goes to the setter of [Object.prototype],
    which ignores a string; any other new key becomes an own property,
    enumerated among the array indices when it is one and last otherwise. *)
Definition setFile (key value : string) (files : list (string * string))
  : list (string * string) :=
  match getFile key files with
  | Some _ => updateFile key value files
  | None =>
      if decide (key = "__proto__") then files
      else match arrayIndex key with
           | Some n => insertIndex n key value files
           | None => files ++ [(key, value)]
           end
  end.

(** Truthiness of [string | undefined]. *)
Definition truthy (v : option string) : bool :=
  match v with
  | Some s => bool_decide (s ≠ EmptyString)
  | None => false
  end.

(** [p] occurs in [s] between [before] and [after], and nowhere earlier. *)
Definition firstOccurrence (p s before after : string) : Prop :=
  s = before +:+ p +:+ after
  ∧ ∀ before' after', s = before' +:+ p +:+ after' →
      String.length before ≤ String.length before'.

(** [p] does not occur in [s]. *)
Definition absent (p s : string) : Prop :=
  ∀ before after, s ≠ before +:+ p +:+ after.

(** No [$] in [s]: nothing for [GetSubstitution] to expand. *)
Fixpoint noDollar (s : string) : bool :=
  match s with
  | EmptyString => true
  | String c s' => negb (Ascii.eqb c "$") && noDollar s'
  end.

(** The values a [Uint8Array] holds. *)
Definition isByte (b : Z) : Prop := (0 ≤ b < 256)%Z.

(** What a successful [arr.set(src, off)] leaves in the array. *)
Definition splice (src : list Z) (off : nat) (arr : list Z) : list Z :=
  take off arr ++ src ++ drop (off + length src) arr.

End JS.

(** ** The tar archiver: [createTarHeader] and [handlePackage] *)

Module Tar.
Import JS.

(** [createTarHeader(fileName, fileSize)]; [now] is the value of
    [Date.now()] read for the modification time. *)
Definition createTarHeader (fileName : string) (fileSize : Z) (now : Z)
  : option (list Z) :=
  let header := replicate 512 0%Z in
  let nameBytes := encode fileName in
  header ← set (take 100 nameBytes) 0 header;
  header ← set (encode ("0000644" +:+ NUL)) 100 header;
  header ← set (encode ("0001000" +:+ NUL)) 108 header;
  header ← set (encode ("0001000" +:+ NUL)) 116 header;
  let sizeOctal := padStart 11 "0" (toString 8 fileSize) +:+ NUL in
  header ← set (encode sizeOctal) 124 header;
  let mtime := padStart 11 "0" (toString 8 (now / 1000)) +:+ NUL in
  header ← set (encode mtime) 136 header;
  header ← set (encode "        ") 148 header;
  let header := <[156 := 48%Z]> header in
  header ← set (encode ("ustar" +:+ NUL)) 257 header;
  header ← set (encode "00") 263 header;
  let checksum := fold_left Z.add (take 512 header) 0%Z in
  let checksumOctal := padStart 6 "0" (toString 8 checksum) +:+ NUL +:+ " " in
  set (encode checksumOctal) 148 header.

(** The header as [createTarHeader] holds it when it sums the bytes: every
    field written and the checksum field filled with spaces. *)
Definition headerBeforeChecksum (fileName : string) (fileSize : Z) (now : Z) : list Z :=
  let header := replicate 512 0%Z in
  let header := splice (take 100 (encode fileName)) 0 header in
  let header := splice (encode ("0000644" +:+ NUL)) 100 header in
  let header := splice (encode ("0001000" +:+ NUL)) 108 header in
  let header := splice (encode ("0001000" +:+ NUL)) 116 header in
  let header := splice (encode (padStart 11 "0" (toString 8 fileSize) +:+ NUL)) 124 header in
  let header := splice (encode (padStart 11 "0" (toString 8 (now / 1000)) +:+ NUL)) 136 header in
  let header := splice (encode "        ") 148 header in
  let header := <[156 := 48%Z]> header in
  let header := splice (encode ("ustar" +:+ NUL)) 257 header in
  splice (encode "00") 263 header.

(** The loop of [handlePackage] over [Object.entries(files)]; the [i]-th
    header reads the clock as [clock i]. *)
Fixpoint packEntries (clock : nat → Z) (i : nat) (files : list (string * string))
  : option (list (list Z)) :=
  match files with
  | [] => Some []
  | (filePath, content) :: rest =>
      let fileData := encode content in
      header ← createTarHeader filePath (Z.of_nat (length fileData)) (clock i);
      let padding := 512 - (length fileData) mod 512 in
      let pad := if decide (padding < 512) then [replicate padding 0%Z] else [] in
      more ← packEntries clock (S i) rest;
      Some ([header; fileData] ++ pad ++ more)
  end.

(** The uncompressed [tarBuffer] of [handlePackage]; [None] is the
    [catch] path that answers 500. *)
Definition tarBuffer (clock : nat → Z) (files : list (string * string))
  : option (list Z) :=
  entries ← packEntries clock 0 files;
  Some (concat (entries ++ [replicate 1024 0%Z])).

End Tar.

(** ** A reader for the archive

  The reference reader of the ustar layout against which the archive is
  checked: a 512-byte header whose checksum is verified, the path taken
  from the NUL-terminated name field (after the prefix field when that is
  used), the size from its octal field, the content, and the padding up to
  the next block; two zero blocks end the archive.

  The reader extracts regular files into a directory tree, and it is
  strict: it gives nothing back for an archive with a member that readers
  do not extract as a regular file under the name recorded (an empty name,
  a name that starts or ends with a slash or has an empty component, which
  names a directory or is rewritten, and a component [.] or [..]), or with
  two members of which one is the other or a directory of the other. *)

Module TarReader.
Import JS.

Definition slice (a n : nat) (l : list Z) : list Z := take n (drop a l).

Definition sumBytes (l : list Z) : Z := fold_left Z.add l 0%Z.

Definition paddingTo512 (n : nat) : nat := (512 - n mod 512) mod 512.

Definition isOctal (b : Z) : bool := ((48 <=? b) && (b <=? 55))%Z.

Fixpoint parseOctalFrom (acc : Z) (field : list Z) : option Z :=
  match field with
  | [] => Some acc
  | b :: rest =>
      if isOctal b then parseOctalFrom (acc * 8 + (b - 48)) rest
      else if ((b =? 0) || (b =? 32))%Z then Some acc
      else None
  end.

Definition parseOctal (field : list Z) : option Z := parseOctalFrom 0 field.

Fixpoint untilNul (field : list Z) : list Z :=
  match field with
  | [] => []
  | b :: rest => if (b =? 0)%Z then [] else b :: untilNul rest
  end.

(** The header with its checksum field read as eight spaces. *)
Definition spaceFilled (header : list Z) : list Z :=
  take 148 header ++ replicate 8 32%Z ++ drop 156 header.

Definition entryPath (header : list Z) : list Z :=
  let name := untilNul (slice 0 100 header) in
  match untilNul (slice 345 155 header) with
  | [] => name
  | dir => dir ++ [47%Z] ++ name
  end.

(** The components of a path: the texts between its slashes. *)
Fixpoint components (path : list Z) : list (list Z) :=
  match path with
  | [] => [[]]
  | b :: rest =>
      if (b =? 47)%Z then [] :: components rest
      else match components rest with
           | c :: cs => (b :: c) :: cs
           | [] => [[b]]
           end
  end.

(** A component that names an entry of a directory: not empty, not [.]
    and not [..]. *)
Definition plainComponent (c : list Z) : bool :=
  negb (bool_decide (c = []) || bool_decide (c = [46%Z]) || bool_decide (c = [46%Z; 46%Z])).

(** The path of a file in the tree: relative, every component plain. *)
Definition plainPath (path : list Z) : bool := forallb plainComponent (components path).

(** No two of the paths clash: none is another one or a directory of
    another one. *)
Fixpoint clashFree (paths : list (list (list Z))) : bool :=
  match paths with
  | [] => true
  | p :: rest =>
      forallb (λ q, negb (bool_decide (p `prefix_of` q)) && negb (bool_decide (q `prefix_of` p))) rest
      && clashFree rest
  end.

Definition isZeroBlock (blk : list Z) : bool :=
  bool_decide (length blk = 512) && forallb (Z.eqb 0) blk.

Fixpoint untarFrom (fuel : nat) (buf : list Z) : option (list (list Z * list Z)) :=
  match fuel with
  | O => None
  | S fuel' =>
      let header := take 512 buf in
      if decide (length header < 512) then None
      else if isZeroBlock header then
        (if isZeroBlock (slice 512 512 buf) then Some [] else None)
      else
        size ← parseOctal (slice 124 12 header);
        sum ← parseOctal (slice 148 8 header);
        if decide (sum ≠ sumBytes (spaceFilled header)) then None
        else if decide (header !! 156 ≠ Some 48%Z) then None
        else if negb (plainPath (entryPath header)) then None
        else
          let n := Z.to_nat size in
          let data := slice 512 n buf in
          if decide (length data < n) then None
          else
            more ← untarFrom fuel' (drop (512 + n + paddingTo512 n) buf);
            Some ((entryPath header, data) :: more)
  end.

Definition untar (buf : list Z) : option (list (list Z * list Z)) :=
  members ← untarFrom (S (length buf)) buf;
  if clashFree ((λ member, components (fst member)) <$> members) then Some members else None.

(** The header with its checksum field read as eight zero bytes. *)
Definition zeroFilled (header : list Z) : list Z :=
  take 148 header ++ replicate 8 0%Z ++ drop 156 header.

(** The text of a checksum field holding [sum]: six octal digits, a NUL
    and a space. *)
Definition checksumText (sum : Z) : list Z :=
  encode (padStart 6 "0" (toString 8 sum) +:+ NUL +:+ " ").

(** The layout of an archive body: for each entry, in order, one 512-byte
    header, the content, and zero bytes up to the next multiple of 512. *)
Inductive archiveLayout (clock : nat → Z) : nat → list (string * string) → list Z → Prop :=
| layout_end i : archiveLayout clock i [] []
| layout_entry i filePath content rest header pad more :
    Tar.createTarHeader filePath (Z.of_nat (length (encode content))) (clock i) = Some header →
    length header = 512 →
    pad < 512 →
    (length (encode content) + pad) mod 512 = 0 →
    archiveLayout clock (S i) rest more →
    archiveLayout clock i ((filePath, content) :: rest)
      (header ++ encode content ++ replicate pad 0%Z ++ more).

(** Every content has a length a typed array can have. *)
Definition sizesInRange (files : list (string * string)) : Prop :=
  Forall (λ '(_, content), (Z.of_nat (length (encode content)) < 2 ^ 53)%Z) files.

(** The file sets a reader gives back unchanged, those of the files of
    one directory tree: every path is plain, has at most 100 bytes and no
    NUL, no two paths clash, and every content has fewer than [8 ^ 11]
    bytes. *)
Definition readable (files : list (string * string)) : Prop :=
  Forall (λ '(filePath, content),
            length (encode filePath) ≤ 100
            ∧ (0%Z ∉ encode filePath)
            ∧ plainPath (encode filePath) = true
            ∧ (Z.of_nat (length (encode content)) < 8 ^ 11)%Z) files
  ∧ clashFree ((λ '(filePath, _), components (encode filePath)) <$> files) = true.

(** What a reader is expected to give back for a file set. *)
Definition expectedEntries (files : list (string * string)) : list (list Z * list Z) :=
  (λ '(filePath, content), (encode filePath, encode content)) <$> files.

End TarReader.

(** ** The Fly.io deployment: [handleFlyDeploy]

    Two parts of [handleFlyDeploy] are embedded: the block that injects the
    analytics tracker into [index.html], and the [start] callback of the
    response stream, which provisions the app, deploys it and reports.  The
    port comes from [detectPortFromDockerfile] and the build directory from
    [tmpdir()] and the clock; both are taken as parameters. *)

Module Fly.
Import JS.

(** *** [JSON.stringify] of a string *)

Definition hex4 (n : Z) : string :=
  padStart 4 "0" (toString 16 n).

Definition quoteChar (c : ascii) : string :=
  let n := Z.of_N (N_of_ascii c) in
  if (n =? 8)%Z then BS +:+ "b"
  else if (n =? 9)%Z then BS +:+ "t"
  else if (n =? 10)%Z then BS +:+ "n"
  else if (n =? 12)%Z then BS +:+ "f"
  else if (n =? 13)%Z then BS +:+ "r"
  else if (n =? 34)%Z then BS +:+ DQ
  else if (n =? 92)%Z then BS +:+ BS
  else if (n <? 32)%Z then BS +:+ "u" +:+ hex4 n
  else String c EmptyString.

Fixpoint quoteBody (s : string) : string :=
  match s with
  | EmptyString => EmptyString
  | String c s' => quoteChar c +:+ quoteBody s'
  end.

Definition JSON_stringify (s : string) : string := DQ +:+ quoteBody s +:+ DQ.

(** [boltUrl.replace(/\/$/, '')]: one slash at the end is taken off. *)
Fixpoint endsWithSlash (s : string) : bool :=
  match s with
  | EmptyString => false
  | String c EmptyString => Ascii.eqb c "/"
  | String _ s' => endsWithSlash s'
  end.

Definition stripTrailingSlash (s : string) : string :=
  if endsWithSlash s then takeStr (String.length s - 1) s else s.

(** *** The tracker injection (the block guarded by
        [boltUrl && files['index.html']]) *)

Definition trackerScript (flyAppName boltUrl : string) : string :=
  "<script>(function(){var _boltApp=" +:+ JSON_stringify flyAppName
  +:+ ",_boltUrl=" +:+ JSON_stringify (stripTrailingSlash boltUrl)
  +:+ ";function _boltTrack(p){try{fetch(_boltUrl+'/api/analytics?app='+encodeURIComponent(_boltApp)+'&path='+encodeURIComponent(p||'/')+'&sid='+(sessionStorage._boltSid||(sessionStorage._boltSid=Math.random().toString(36).slice(2))),{method:'POST',keepalive:true}).catch(function(){});}catch(e){}}if(document.readyState==='loading'){document.addEventListener('DOMContentLoaded',function(){_boltTrack(location.pathname);});}else{_boltTrack(location.pathname);}var _hp=history.pushState;history.pushState=function(){_hp.apply(this,arguments);_boltTrack(location.pathname);};window.addEventListener('popstate',function(){_boltTrack(location.pathname);});}());</script>".

Definition injectTracker (flyAppName : string) (boltUrl : option string)
    (files : list (string * string)) : list (string * string) :=
  if truthy boltUrl && truthy (getFile "index.html" files) then
    let trackerScript := trackerScript flyAppName (default EmptyString boltUrl) in
    let files :=
      setFile "index.html"
        (replace (default EmptyString (getFile "index.html" files)) "</body>"
           (trackerScript +:+ "</body>"))
        files in
    if negb (includes (default EmptyString (getFile "index.html" files)) trackerScript) then
      (* Fallback: inject before </html> if no </body> *)
      setFile "index.html"
        (replace (default EmptyString (getFile "index.html" files)) "</html>"
           (trackerScript +:+ "</html>"))
        files
    else files
  else files.

(** *** The response stream *)

(** What the stream does to the outside, in order. *)
Inductive effect :=
| Log (msg : string)
| Spawn (command : string) (args : list string)
| Rm (dir : string)
| Close.

(** A thrown value, as the [catch] clause sees it. *)
Inductive thrown :=
| ErrorObj (message : string)
| NotAnError.

(** A run of a child process: the data events in order, then the first of
    ['close'] and ['error']; or [spawn] itself throws. *)
Inductive chunk :=
| Stdout (data : string)
| Stderr (data : string).

Inductive ending :=
| Closed (code : option Z)
| Failed (err : thrown).

Inductive child :=
| SpawnThrows (err : thrown)
| Runs (output : list chunk) (fin : ending).

(** Effects so far, and a value or the value thrown. *)
Definition M (A : Type) : Type := list effect * (A + thrown).

Definition ret {A} (a : A) : M A := ([], inl a).

Definition bind {A B} (m : M A) (f : A → M B) : M B :=
  match m with
  | (t, inl a) => let '(t', r) := f a in (t ++ t', r)
  | (t, inr e) => (t, inr e)
  end.

Definition throw {A} (e : thrown) : M A := ([], inr e).

Definition emit (e : effect) : M unit := ([e], inl tt).

(** [log(msg)]: [controller.enqueue] is taken to succeed, as it does
    while the response is read (the stream is not cancelled). *)
Definition log (msg : string) : M unit := emit (Log msg).

(** [try { body } catch (err) { handler err }] *)
Definition tryCatch {A} (body : M A) (handler : thrown → M A) : M A :=
  match body with
  | (t, inl a) => (t, inl a)
  | (t, inr e) => let '(t', r) := handler e in (t ++ t', r)
  end.

(** [try { body } finally { cleanup }] *)
Definition tryFinally {A} (body : M A) (cleanup : M unit) : M A :=
  let '(t, r) := body in
  match cleanup with
  | (t', inl _) => (t ++ t', r)
  | (t', inr e) => (t ++ t', inr e)
  end.

Notation "x ←' m ;; k" := (bind m (λ x, k))
  (at level 100, m at next level, right associativity).
Notation "m ;;' k" := (bind m (λ _, k))
  (at level 100, right associativity).

Fixpoint forEach {A} (l : list A) (f : A → M unit) : M unit :=
  match l with
  | [] => ret tt
  | a :: rest => f a ;;' forEach rest f
  end.

Definition showCode (code : option Z) : string :=
  match code with
  | Some n => toString 10 n
  | None => "null"
  end.

Definition errorMessage (err : thrown) : string :=
  match err with
  | ErrorObj message => message
  | NotAnError => "Unknown error"
  end.

Definition actuallyDeployed (deployOutput : string) : bool :=
  includes deployOutput "has been deployed"
  || includes deployOutput "deployed successfully"
  || includes deployOutput "Machines are starting"
  || includes deployOutput "Visit your newly deployed app".

Section Stream.
Variables (flyAppName flyRegion buildDir : string) (port : Z).

(** Step 1: the promise around [flyctl apps create]; it resolves on
    ['close'] and on ['error'] alike. *)
Definition createAppStep (createApp : child) : M unit :=
  log ("[1/3] Creating Fly.io app " +:+ DQ +:+ flyAppName +:+ DQ
       +:+ " in region " +:+ DQ +:+ flyRegion +:+ DQ +:+ "..." +:+ LF) ;;'
  log ("       Detected internal port: " +:+ toString 10 port +:+ LF) ;;'
  emit (Spawn "flyctl" ["apps"; "create"; flyAppName; "--org"; "personal"; "-y"]) ;;'
  match createApp with
  | SpawnThrows err => throw err
  | Runs output _ =>
      forEach output (λ c,
        match c with
        | Stdout data => log data
        | Stderr msg =>
            if negb (includes msg "already exists") then log msg
            else log ("App " +:+ DQ +:+ flyAppName +:+ DQ +:+ " already exists, reusing it." +:+ LF)
        end)
  end.

Definition chunkText (c : chunk) : string :=
  match c with Stdout data => data | Stderr data => data end.

(** The data handlers of the deploy process: each appends to
    [deployOutput] and logs. *)
Fixpoint collectOutput (deployOutput : string) (output : list chunk) : M string :=
  match output with
  | [] => ret deployOutput
  | c :: rest =>
      let text := chunkText c in
      log text ;;' collectOutput (deployOutput +:+ text) rest
  end.

(** Step 2: the promise around [flyctl deploy]. *)
Definition deployStep (deploy : child) : M unit :=
  log (LF +:+ "[2/3] Deploying to Fly.io (this builds the Docker image on Fly's remote builders)..." +:+ LF) ;;'
  log ("       Using Dockerfile from project." +:+ LF +:+ LF) ;;'
  emit (Spawn "flyctl" ["deploy"; "."; "--app"; flyAppName; "--primary-region"; flyRegion;
                        "--remote-only"; "--ha=false"; "-y"]) ;;'
  match deploy with
  | SpawnThrows err => throw err
  | Runs output fin =>
      deployOutput ←' collectOutput EmptyString output ;;
      match fin with
      | Closed code =>
          if bool_decide (code = Some 0%Z) && actuallyDeployed deployOutput then ret tt
          else if bool_decide (code = Some 0%Z) && negb (actuallyDeployed deployOutput) then
            throw (ErrorObj "flyctl exited but deployment did not complete. Check the log above for details.")
          else throw (ErrorObj ("flyctl deploy exited with code " +:+ showCode code))
      | Failed err => throw err
      end
  end.

(** Step 3: the report. *)
Definition reportStep : M unit :=
  log (LF +:+ "[3/3] Deployment complete!" +:+ LF) ;;'
  log (LF +:+ "✓ App deployed successfully to Fly.io" +:+ LF) ;;'
  log ("  URL: https://" +:+ flyAppName +:+ ".fly.dev" +:+ LF) ;;'
  log ("  Dashboard: https://fly.io/apps/" +:+ flyAppName +:+ LF) ;;'
  log (LF +:+ "  To check status: flyctl status --app " +:+ flyAppName +:+ LF) ;;'
  log ("  To view logs:    flyctl logs --app " +:+ flyAppName +:+ LF).

(** The [catch] clause. *)
Definition failureBlock (err : thrown) : M unit :=
  log (LF +:+ "✗ Deployment failed: " +:+ errorMessage err +:+ LF) ;;'
  log (LF +:+ "Troubleshooting:" +:+ LF) ;;'
  log ("  1. Run " +:+ DQ +:+ "flyctl auth login" +:+ DQ +:+ " to ensure you're authenticated" +:+ LF) ;;'
  log ("  2. Run " +:+ DQ +:+ "flyctl apps list" +:+ DQ +:+ " to check your apps" +:+ LF) ;;'
  log ("  3. Check your Dockerfile for build errors" +:+ LF).

(** The [finally] clause: [rm], whose error [rmError] if any is caught
    and ignored, then [controller.close()]. *)
Definition cleanup (rmError : option thrown) : M unit :=
  tryCatch
    (emit (Rm buildDir) ;;'
     match rmError with
     | Some err => throw err
     | None => ret tt
     end)
    (λ _, ret tt) ;;'
  emit Close.

(** [start(controller)]; [deploy] is the run of the deploy process, which
    is spawned only when step 1 did not throw. *)
Definition start (createApp deploy : child) (rmError : option thrown) : M unit :=
  tryFinally
    (tryCatch
       (createAppStep createApp ;;'
        deployStep deploy ;;'
        reportStep)
       failureBlock)
    (cleanup rmError).

(** What step 1 writes for a data event of the create process. *)
Definition createLog (c : chunk) : string :=
  match c with
  | Stdout data => data
  | Stderr msg =>
      if includes msg "already exists"
      then "App " +:+ DQ +:+ flyAppName +:+ DQ +:+ " already exists, reusing it." +:+ LF
      else msg
  end.

(** What step 2 does before the first data event of the deploy process. *)
Definition deployHeader : list effect :=
  [Log (LF +:+ "[2/3] Deploying to Fly.io (this builds the Docker image on Fly's remote builders)..." +:+ LF);
   Log ("       Using Dockerfile from project." +:+ LF +:+ LF);
   Spawn "flyctl" ["deploy"; "."; "--app"; flyAppName; "--primary-region"; flyRegion;
                   "--remote-only"; "--ha=false"; "-y"]].

(** What step 1 does before the first data event of the create process. *)
Definition createHeader : list effect :=
  [Log ("[1/3] Creating Fly.io app " +:+ DQ +:+ flyAppName +:+ DQ
        +:+ " in region " +:+ DQ +:+ flyRegion +:+ DQ +:+ "..." +:+ LF);
   Log ("       Detected internal port: " +:+ toString 10 port +:+ LF);
   Spawn "flyctl" ["apps"; "create"; flyAppName; "--org"; "personal"; "-y"]].

(** The reuse message of step 1. *)
Definition reuseMessage : string :=
  "App " +:+ DQ +:+ flyAppName +:+ DQ +:+ " already exists, reusing it." +:+ LF.

(** The text [deployOutput] holds when the deploy process ends. *)
Definition outputText (output : list chunk) : string :=
  foldr (λ c acc, chunkText c +:+ acc) EmptyString output.

(** The effects of the three steps as far as they get, followed by the
    troubleshooting block when one of them throws. *)
Definition stepsTrace (createApp deploy : child) : list effect :=
  match createAppStep createApp with
  | (t1, inr err) => t1 ++ fst (failureBlock err)
  | (t1, inl _) =>
      match deployStep deploy with
      | (t2, inr err) => t1 ++ t2 ++ fst (failureBlock err)
      | (t2, inl _) => t1 ++ t2 ++ fst reportStep
      end
  end.

End Stream.




End Fly.

(** ** The project detector: [detectProject]

    [JSON.parse] is a parameter: it gives the parsed value, or [None] when
    it throws.  A parsed object is the list of its own properties, each key
    once. *)

Module Detect.
Import JS.

(** A parsed JSON value; a number is kept as an integer (what matters to
    the detector is whether it is zero). *)
#[local] Unset Elimination Schemes.
Inductive json :=
| JNull
| JBool (b : bool)
| JNum (n : Z)
| JStr (s : string)
| JArr (items : list json)
| JObj (props : list (string * json)).
#[local] Set Elimination Schemes.

(** A JavaScript value read from the parsed tree: [None] is [undefined]. *)
Definition value := option json.

Definition isTruthy (v : value) : bool :=
  match v with
  | None | Some JNull => false
  | Some (JBool b) => b
  | Some (JNum n) => negb (n =? 0)%Z
  | Some (JStr s) => bool_decide (s ≠ EmptyString)
  | Some (JArr _) | Some (JObj _) => true
  end.

Fixpoint assoc (key : string) (props : list (string * json)) : value :=
  match props with
  | [] => None
  | (k, v) :: rest => if decide (k = key) then Some v else assoc key rest
  end.

(** [v.key] for the property names the detector reads, none of which
    exists on a string, a number, a boolean or an array: the outer [None]
    is the [TypeError] on [null] and [undefined]. *)
Definition prop (v : value) (key : string) : option value :=
  match v with
  | None | Some JNull => None
  | Some (JObj props) => Some (assoc key props)
  | Some _ => Some None
  end.

(** [v?.key] *)
Definition optProp (v : value) (key : string) : value :=
  match prop v key with
  | Some r => r
  | None => None
  end.

(** The own enumerable properties [{...v}] copies; the index keys of an
    array or a string are numerals, which the detector never reads. *)
Definition spreadProps (v : value) : list (string * json) :=
  match v with
  | Some (JObj props) => props
  | Some (JArr items) => imap (λ i item, (toString 10 (Z.of_nat i), item)) items
  | Some (JStr s) =>
      imap (λ i c, (toString 10 (Z.of_nat i), JStr (String c EmptyString)))
           (list_ascii_of_string s)
  | _ => []
  end.

(** [{ ...a, ...b }]: a key of [b] wins over the same key of [a]. *)
Definition spread2 (a b : value) : list (string * json) :=
  spreadProps b ++ spreadProps a.

(** The text of a value in a template literal, [None] when the
    conversion throws a [TypeError]: an object that has a [toString] of its
    own has one that cannot be called, and neither can its [valueOf] give a
    primitive; an array is the join of the texts of its items, an item
    [null] giving the empty text. *)
Fixpoint toText (v : json) : option string :=
  match v with
  | JNull => Some "null"
  | JBool true => Some "true"
  | JBool false => Some "false"
  | JNum n => Some (toString 10 n)
  | JStr s => Some s
  | JArr items =>
      (fix join (l : list json) : option string :=
         match l with
         | [] => Some EmptyString
         | [x] => match x with JNull => Some EmptyString | _ => toText x end
         | x :: rest =>
             match (match x with JNull => Some EmptyString | _ => toText x end), join rest with
             | Some head, Some tail => Some (head +:+ "," +:+ tail)
             | _, _ => None
             end
         end) items
  | JObj props =>
      match assoc "toString" props with
      | Some _ => None
      | None => Some "[object Object]"
      end
  end.

Definition isDigit (c : ascii) : bool :=
  let n := N_of_ascii c in ((48 <=? n) && (n <=? 57))%N.

Fixpoint takeDigits (s : string) : string :=
  match s with
  | EmptyString => EmptyString
  | String c s' => if isDigit c then String c (takeDigits s') else EmptyString
  end.

(** [s.match(/(\d+)/)]: the first run of digits. *)
Fixpoint matchDigits (s : string) : option string :=
  match s with
  | EmptyString => None
  | String c s' => if isDigit c then Some (String c (takeDigits s')) else matchDigits s'
  end.

Inductive projectType := node | static | python | unknown.
Inductive packageManagerName := npm | yarn | pnpm.

Record ProjectDetection := {
  type : projectType;
  hasPackageJson : bool;
  hasBuildScript : bool;
  buildCommand : string;
  startCommand : string;
  buildOutputDir : string;
  nodeVersion : string;
  packageManager : packageManagerName;
}.

Definition setType (t : projectType) (r : ProjectDetection) : ProjectDetection :=
  {| type := t; hasPackageJson := hasPackageJson r; hasBuildScript := hasBuildScript r;
     buildCommand := buildCommand r; startCommand := startCommand r;
     buildOutputDir := buildOutputDir r; nodeVersion := nodeVersion r;
     packageManager := packageManager r |}.

Definition setHasPackageJson (b : bool) (r : ProjectDetection) : ProjectDetection :=
  {| type := type r; hasPackageJson := b; hasBuildScript := hasBuildScript r;
     buildCommand := buildCommand r; startCommand := startCommand r;
     buildOutputDir := buildOutputDir r; nodeVersion := nodeVersion r;
     packageManager := packageManager r |}.

Definition setHasBuildScript (b : bool) (r : ProjectDetection) : ProjectDetection :=
  {| type := type r; hasPackageJson := hasPackageJson r; hasBuildScript := b;
     buildCommand := buildCommand r; startCommand := startCommand r;
     buildOutputDir := buildOutputDir r; nodeVersion := nodeVersion r;
     packageManager := packageManager r |}.

Definition setBuildCommand (c : string) (r : ProjectDetection) : ProjectDetection :=
  {| type := type r; hasPackageJson := hasPackageJson r; hasBuildScript := hasBuildScript r;
     buildCommand := c; startCommand := startCommand r;
     buildOutputDir := buildOutputDir r; nodeVersion := nodeVersion r;
     packageManager := packageManager r |}.

Definition setStartCommand (c : string) (r : ProjectDetection) : ProjectDetection :=
  {| type := type r; hasPackageJson := hasPackageJson r; hasBuildScript := hasBuildScript r;
     buildCommand := buildCommand r; startCommand := c;
     buildOutputDir := buildOutputDir r; nodeVersion := nodeVersion r;
     packageManager := packageManager r |}.

Definition setBuildOutputDir (d : string) (r : ProjectDetection) : ProjectDetection :=
  {| type := type r; hasPackageJson := hasPackageJson r; hasBuildScript := hasBuildScript r;
     buildCommand := buildCommand r; startCommand := startCommand r;
     buildOutputDir := d; nodeVersion := nodeVersion r;
     packageManager := packageManager r |}.

Definition setNodeVersion (v : string) (r : ProjectDetection) : ProjectDetection :=
  {| type := type r; hasPackageJson := hasPackageJson r; hasBuildScript := hasBuildScript r;
     buildCommand := buildCommand r; startCommand := startCommand r;
     buildOutputDir := buildOutputDir r; nodeVersion := v;
     packageManager := packageManager r |}.

Definition setPackageManager (m : packageManagerName) (r : ProjectDetection) : ProjectDetection :=
  {| type := type r; hasPackageJson := hasPackageJson r; hasBuildScript := hasBuildScript r;
     buildCommand := buildCommand r; startCommand := startCommand r;
     buildOutputDir := buildOutputDir r; nodeVersion := nodeVersion r;
     packageManager := m |}.

Section Detector.
Variable JSON_parse : string → option json.

(** The merged [deps] of a package. *)
Definition depsOf (pkg : json) : list (string * json) :=
  spread2 (optProp (Some pkg) "dependencies") (optProp (Some pkg) "devDependencies").

Definition dep (pkg : json) (name : string) : value := assoc name (depsOf pkg).

(** The body of the [try] block once [JSON.parse] has returned [pkg]; a
    [TypeError] ([pkg] is [null], [main] has no text, or [engines.node] is
    not a string) leaves [result] as it is at that point. *)
Definition readPackage (pkg : json) (result : ProjectDetection) : ProjectDetection :=
  match prop (Some pkg) "scripts" with
  | None => result
  | Some scripts =>
      (* Detect build command *)
      let result :=
        if isTruthy (optProp scripts "build")
        then setBuildCommand "npm run build" (setHasBuildScript true result)
        else result in
      (* Detect start command *)
      let started :=
        if isTruthy (optProp scripts "start") then Some (setStartCommand "npm run start" result)
        else if isTruthy (optProp scripts "serve") then Some (setStartCommand "npm run serve" result)
        else if isTruthy (optProp scripts "preview") then Some (setStartCommand "npm run preview" result)
        else if isTruthy (optProp (Some pkg) "main") then
          match optProp (Some pkg) "main" ≫= toText with
          | Some main => Some (setStartCommand ("node " +:+ main) result)
          | None => None
          end
        else Some (setStartCommand "node index.js" result) in
      match started with
      | None => result
      | Some result =>
          (* Detect build output directory from common frameworks *)
          let result :=
            if isTruthy (dep pkg "next") then
              setStartCommand "npm run start" (setBuildOutputDir ".next" result)
            else if isTruthy (dep pkg "nuxt") || isTruthy (dep pkg "nuxt3") then
              setBuildOutputDir ".output" result
            else if isTruthy (dep pkg "@remix-run/react") || isTruthy (dep pkg "remix") then
              setBuildOutputDir "build" result
            else if isTruthy (dep pkg "vite") || isTruthy (dep pkg "@vitejs/plugin-react") then
              setBuildOutputDir "dist" result
            else if isTruthy (dep pkg "react-scripts") then
              setBuildOutputDir "build" result
            else result in
          (* Detect Node.js version from engines *)
          let engineNode := optProp (optProp (Some pkg) "engines") "node" in
          if isTruthy engineNode then
            match engineNode with
            | Some (JStr s) =>
                match matchDigits s with
                | Some digits => setNodeVersion digits result
                | None => result
                end
            | _ => result
            end
          else result
      end
  end.

Definition detectProject (files : list (string * string)) : ProjectDetection :=
  let result :=
    {| type := unknown; hasPackageJson := false; hasBuildScript := false;
       buildCommand := EmptyString; startCommand := EmptyString;
       buildOutputDir := "dist"; nodeVersion := "20"; packageManager := npm |} in
  (* Check for package.json (Node.js project) *)
  let result :=
    if truthy (getFile "package.json" files) then
      let result := setHasPackageJson true (setType node result) in
      let result :=
        match JSON_parse (default EmptyString (getFile "package.json" files)) with
        | Some pkg => readPackage pkg result
        | None => result
        end in
      (* Detect package manager *)
      if truthy (getFile "pnpm-lock.yaml" files) then setPackageManager pnpm result
      else if truthy (getFile "yarn.lock" files) then setPackageManager yarn result
      else result
    else result in
  (* Check for Python project *)
  let result :=
    if truthy (getFile "requirements.txt" files) || truthy (getFile "pyproject.toml" files)
       || truthy (getFile "setup.py" files)
    then setStartCommand (if truthy (getFile "main.py" files) then "python main.py" else "python app.py")
           (setType python result)
    else result in
  (* Check for static site (HTML files, no package.json) *)
  if (match type result with unknown => true | _ => false end)
     && truthy (getFile "index.html" files)
  then setBuildOutputDir "." (setStartCommand EmptyString (setType static result))
  else result.

End Detector.

(** The detection of a Vite project: a build script, output in [dist]. *)
Definition viteDetected (r : ProjectDetection) : Prop :=
  hasBuildScript r = true ∧ buildOutputDir r = "dist".

(** A package that has both [vite] and [next], its text, and
    [JSON.parse] on that text. *)
Definition viteNextPackage : json :=
  JObj [("dependencies", JObj [("vite", JStr "^5.0.0"); ("next", JStr "14.0.0")]);
        ("scripts", JObj [("build", JStr "vite build")])].

Definition quoted (s : string) : string := DQ +:+ s +:+ DQ.

Definition viteNextText : string :=
  "{" +:+ quoted "dependencies" +:+ ":{" +:+ quoted "vite" +:+ ":" +:+ quoted "^5.0.0"
  +:+ "," +:+ quoted "next" +:+ ":" +:+ quoted "14.0.0" +:+ "},"
  +:+ quoted "scripts" +:+ ":{" +:+ quoted "build" +:+ ":" +:+ quoted "vite build" +:+ "}}".

Definition parseViteNext (text : string) : option json :=
  if decide (text = viteNextText) then Some viteNextPackage else None.

(** The package of the specification's example, its text and
    [JSON.parse] on that text. *)
Definition vitePackage : json :=
  JObj [("dependencies", JObj [("vite", JStr "^5.0.0")]);
        ("scripts", JObj [("build", JStr "vite build")])].

Definition viteText : string :=
  "{" +:+ quoted "dependencies" +:+ ":{" +:+ quoted "vite" +:+ ":" +:+ quoted "^5.0.0" +:+ "},"
  +:+ quoted "scripts" +:+ ":{" +:+ quoted "build" +:+ ":" +:+ quoted "vite build" +:+ "}}".

Definition parseVite (text : string) : option json :=
  if decide (text = viteText) then Some vitePackage else None.

End Detect.

(** ** The one-click deploy: [handleOneClickDeploy]

    The part of [handleOneClickDeploy] up to the request sent to the deploy
    endpoint.  [new URL(u).hostname] is a parameter, [None] when the
    constructor throws; [now] is the value of [Date.now()]. *)

Module OneClick.
Import JS.

(** [hostname.split('.')[0]] *)
Fixpoint firstLabel (hostname : string) : string :=
  match hostname with
  | EmptyString => EmptyString
  | String c rest => if Ascii.eqb c "." then EmptyString else String c (firstLabel rest)
  end.

Definition isNameChar (c : ascii) : bool :=
  let n := N_of_ascii c in
  ((97 <=? n) && (n <=? 122) || (48 <=? n) && (n <=? 57) || (n =? 45))%N.

(** [s.replace(/[^a-z0-9-]/g, '')] *)
Fixpoint keepNameChars (s : string) : string :=
  match s with
  | EmptyString => EmptyString
  | String c rest => if isNameChar c then String c (keepNameChars rest) else keepNameChars rest
  end.

(** The name of a first deploy: the project name restricted to
    [a-z0-9-] and cut to 24 characters, a dash, and the last four base-36
    digits of the clock. *)
Definition freshName (projectName : string) (now : Z) : string :=
  sliceTo 24 (keepNameChars projectName) +:+ "-" +:+ sliceLast 4 (toString 36 now).

(** The reader of a base-36 numeral, against which the suffix of a fresh
    name is checked. *)
Definition base36Digit (c : ascii) : option Z :=
  let n := Z.of_N (N_of_ascii c) in
  if ((48 <=? n) && (n <=? 57))%Z then Some (n - 48)%Z
  else if ((97 <=? n) && (n <=? 122))%Z then Some (n - 87)%Z
  else None.

Fixpoint base36From (acc : Z) (s : string) : option Z :=
  match s with
  | EmptyString => Some acc
  | String c s' => d ← base36Digit c; base36From (acc * 36 + d) s'
  end.

Definition base36Value (s : string) : option Z := base36From 0 s.

(** What [handleDockerDeploy] returns on success. *)
Record prepared := {
  projectName : string;
  files : list (string * string);
}.

(** The body of the [POST] to [/api/deploy-docker]. *)
Record request := {
  action : string;
  imageName : string;
  requestFiles : list (string * string);
  flyAppName : string;
  flyRegion : string;
  boltUrl : string;
}.

Section Deploy.
Variable URL_hostname : string → option string.

(** Step 3: the app name and the line added to the deploy log;
    [existingUrl] is [currentMetadata?.deployedUrl]. *)
Definition chooseAppName (existingUrl : option string) (projectName : string) (now : Z)
  : string * string :=
  if truthy existingUrl then
    match URL_hostname (default EmptyString existingUrl) with
    | Some hostname =>
        let flyAppName := firstLabel hostname in
        (flyAppName,
         "Redeploying " +:+ DQ +:+ flyAppName +:+ DQ
         +:+ " in-place (same URL, zero downtime)..." +:+ LF +:+ LF)
    | None =>
        (* URL parse failed: fall back to a fresh name *)
        let flyAppName := freshName projectName now in
        (flyAppName, "Deploying as " +:+ DQ +:+ flyAppName +:+ DQ +:+ "..." +:+ LF +:+ LF)
    end
  else
    (* First deploy: generate a stable unique name *)
    let flyAppName := freshName projectName now in
    (flyAppName, "Deploying as " +:+ DQ +:+ flyAppName +:+ DQ +:+ "..." +:+ LF +:+ LF).

(** Step 4: the request, or [None] when the preparation failed and the
    handler throws before sending anything. *)
Definition deployRequest (result : option prepared) (existingUrl : option string)
    (now : Z) (origin : string) : option request :=
  match result with
  | None => None
  | Some result =>
      Some {| action := "fly-deploy";
              imageName := projectName result +:+ ":latest";
              requestFiles := files result;
              flyAppName := fst (chooseAppName existingUrl (projectName result) now);
              flyRegion := "iad";
              boltUrl := origin |}
  end.

End Deploy.

(** [new URL(u).hostname] on the URLs of the examples. *)
Definition exampleHostname (u : string) : option string :=
  if decide (u = "https://foo-ab12.fly.dev") then Some "foo-ab12.fly.dev" else None.

End OneClick.

(** ** The streaming parser and [parseMessages]

    [parseMessages] is in the sources; the parser class it drives
    ([EnhancedStreamingMessageParser]) is not, and is modelled from the
    specification. *)

Module Parser.
Import JS.

(** The events of the parser callbacks. *)
Inductive event :=
| ArtifactOpen (messageId artifactId title : string)
| ArtifactClose (messageId artifactId : string)
| ActionOpen (messageId artifactId : string) (actionId : nat) (type filePath : string)
| ActionStream (messageId artifactId : string) (actionId : nat) (filePath content : string)
| ActionClose (messageId artifactId : string) (actionId : nat) (type filePath content : string).

(** The open and close events, as opposed to the stream events. *)
Definition isOpenClose (e : event) : bool :=
  match e with
  | ActionStream _ _ _ _ _ => false
  | _ => true
  end.

Definition openClose (events : list event) : list event :=
  List.filter isOpenClose events.

(** The position of the state machine: outside any tag, inside an
    artifact, or inside an action whose content is being accumulated. *)
Inductive mode :=
| Outside
| InArtifact (artifactId : string)
| InAction (artifactId : string) (actionId : nat) (type filePath content : string).

(** Modelled from the spec: the per-message [ParserState] of the parser
    class, which is missing: how much of the text is committed, the
    position of the state machine, and the next action id. *)
Record pstate := {
  position : nat;
  current : mode;
  nextActionId : nat;
}.

Definition initial : pstate :=
  {| position := 0; current := Outside; nextActionId := 0 |}.

(** How much of the text of a message is committed. *)
Definition committed (messageId : string) (states : gmap string pstate) : nat :=
  position (default initial (states !! messageId)).

(** A tag against the text at the cursor: the text starts with the tag,
    or ends inside it, or differs from it. *)
Inductive comparison := Match | Partial | Mismatch.

Fixpoint compareTag (tag rest : string) : comparison :=
  match tag, rest with
  | EmptyString, _ => Match
  | String _ _, EmptyString => Partial
  | String a tag', String b rest' =>
      if Ascii.eqb a b then compareTag tag' rest' else Mismatch
  end.

Fixpoint findChar (c : ascii) (s : string) : option nat :=
  match s with
  | EmptyString => None
  | String d s' => if Ascii.eqb d c then Some 0 else S <$> findChar c s'
  end.

Definition headStr (s : string) : string := takeStr 1 s.

Section Vocabulary.

(** The tag vocabulary is a contract with the prompt: the four tags and
    the reading of an attribute in the text of an opening tag are
    parameters. *)
Variables (artifactTagOpen artifactTagClose actionTagOpen actionTagClose : string).
Variable attribute : string → string → string.

(** The text of an opening tag whose name ends at the cursor: what lies
    before the first [>], and the characters taken with it. *)
Definition openTag (name rest : string) : option (string * nat) :=
  let afterName := dropStr (String.length name) rest in
  e ← findChar ">" afterName;
  Some (takeStr e afterName, String.length name + e + 1).

(** Modelled from the spec: one step of the cursor of the missing parser
    class.  [None] is the wait for more text (the text ends, or ends inside
    a tag); otherwise the characters consumed, the new position of the
    state machine, the next action id, the events fired and the visible
    text.  A file action fires its open event at its opening tag and
    streams; any other action is buffered and fires open and close
    together at its closing tag. *)
Definition step (messageId rest : string) (m : mode) (counter : nat)
  : option (nat * mode * nat * list event * string) :=
  match m with
  | Outside =>
      match compareTag artifactTagOpen rest with
      | Match =>
          '(tag, n) ← openTag artifactTagOpen rest;
          let artifactId := attribute "id" tag in
          Some (n, InArtifact artifactId, counter,
                [ArtifactOpen messageId artifactId (attribute "title" tag)], EmptyString)
      | Partial => None
      | Mismatch => Some (1, Outside, counter, [], headStr rest)
      end
  | InArtifact artifactId =>
      match compareTag actionTagOpen rest with
      | Match =>
          '(tag, n) ← openTag actionTagOpen rest;
          let type := attribute "type" tag in
          let filePath := attribute "filePath" tag in
          Some (n, InAction artifactId counter type filePath EmptyString, S counter,
                if decide (type = "file")
                then [ActionOpen messageId artifactId counter type filePath]
                else [],
                EmptyString)
      | Partial => None
      | Mismatch =>
          match compareTag artifactTagClose rest with
          | Match =>
              Some (String.length artifactTagClose, Outside, counter,
                    [ArtifactClose messageId artifactId], EmptyString)
          | Partial => None
          | Mismatch => Some (1, InArtifact artifactId, counter, [], EmptyString)
          end
      end
  | InAction artifactId actionId type filePath content =>
      match compareTag actionTagClose rest with
      | Match =>
          Some (String.length actionTagClose, InArtifact artifactId, counter,
                (if decide (type = "file") then []
                 else [ActionOpen messageId artifactId actionId type filePath])
                ++ [ActionClose messageId artifactId actionId type filePath content],
                EmptyString)
      | Partial => None
      | Mismatch =>
          Some (1, InAction artifactId actionId type filePath (content +:+ headStr rest),
                counter, [], EmptyString)
      end
  end.

(** Modelled from the spec: the single pass of the missing parser class
    from the cursor, until it has to wait. *)
Fixpoint scan (fuel : nat) (messageId rest : string) (m : mode) (counter : nat)
  : nat * mode * nat * list event * string :=
  match fuel with
  | O => (0, m, counter, [], EmptyString)
  | S fuel' =>
      match step messageId rest m counter with
      | None => (0, m, counter, [], EmptyString)
      | Some (n, m', counter', events, visible) =>
          let '(n2, m2, counter2, events2, visible2) :=
            scan fuel' messageId (dropStr n rest) m' counter' in
          (n + n2, m2, counter2, events ++ events2, visible +:+ visible2)
      end
  end.

(** The stream event of a call: the content so far of the file action the
    call ends in, when the call took in more text. *)
Definition streamEvent (messageId : string) (consumed : nat) (m : mode) : list event :=
  match m with
  | InAction artifactId actionId type filePath content =>
      if decide (type = "file") then
        if decide (0 < consumed)
        then [ActionStream messageId artifactId actionId filePath content]
        else []
      else []
  | _ => []
  end.

(** Modelled from the spec: a call of the missing parser class for one
    message, with the full text so far: the pass resumes at the committed
    position. *)
Definition feed (messageId input : string) (st : pstate) : pstate * list event * string :=
  let rest := dropStr (position st) input in
  let '(n, m, counter, events, visible) :=
    scan (String.length rest) messageId rest (current st) (nextActionId st) in
  ({| position := position st + n; current := m; nextActionId := counter |},
   events ++ streamEvent messageId n m, visible).

(** Modelled from the spec: [parse(messageId, input)] of the missing
    parser class, over the states kept per message id. *)
Definition parse (messageId input : string) (states : gmap string pstate)
  : gmap string pstate * list event * string :=
  let '(st, events, visible) := feed messageId input (default initial (states !! messageId)) in
  (<[messageId := st]> states, events, visible).

(** Modelled from the spec: [reset()] of the missing parser class discards
    every state. *)
Definition resetStates (states : gmap string pstate) : gmap string pstate := ∅.

(** The calls of a delivery: [parse] is called with each text of [texts]
    in turn; the states at the end and the events of all the calls, in
    order. *)
Fixpoint deliver (messageId : string) (texts : list string) (states : gmap string pstate)
  : gmap string pstate * list event :=
  match texts with
  | [] => (states, [])
  | input :: later =>
      let '(states1, events, _) := parse messageId input states in
      let '(states2, events2) := deliver messageId later states1 in
      (states2, events ++ events2)
  end.

(** *** [parseMessages] *)

Inductive role := assistant | user | system | other.

(** [message.content]: a string, or parts of which the first of type
    [text] counts. *)
Inductive content :=
| Text (text : string)
| Parts (items : list (string * option string)).

Record Message := {
  id : string;
  messageRole : role;
  messageContent : content;
}.

Definition extractTextContent (message : Message) : string :=
  match messageContent message with
  | Parts items =>
      match List.find (λ item, bool_decide (fst item = "text")) items with
      | Some (_, Some text) => text
      | _ => EmptyString
      end
  | Text text => text
  end.

(** The parser and the [parsedMessages] of the hook. *)
Record hook := {
  parserStates : gmap string pstate;
  parsedMessages : gmap nat string;
}.

Fixpoint parseLoop (reset : bool) (index : nat) (messages : list Message) (h : hook)
  : hook * list event :=
  match messages with
  | [] => (h, [])
  | message :: later =>
      match messageRole message with
      | assistant | user =>
          let '(states, events, newParsedContent) :=
            parse (id message) (extractTextContent message) (parserStates h) in
          let previous := default EmptyString (parsedMessages h !! index) in
          let h1 :=
            {| parserStates := states;
               parsedMessages :=
                 <[index := if negb reset then previous +:+ newParsedContent
                            else newParsedContent]> (parsedMessages h) |} in
          let '(h2, events2) := parseLoop reset (S index) later h1 in
          (h2, events ++ events2)
      | _ => parseLoop reset (S index) later h
      end
  end.

(** [parseMessages(messages, isLoading)]; [dev] is [import.meta.env.DEV]. *)
Definition parseMessages (dev : bool) (messages : list Message) (isLoading : bool) (h : hook)
  : hook * list event :=
  let reset := dev && negb isLoading in
  let h :=
    if reset
    then {| parserStates := resetStates (parserStates h); parsedMessages := parsedMessages h |}
    else h in
  parseLoop reset 0 messages h.

(** The calls of [parse] a run of [parseMessages] makes: one per
    assistant or user message, in order. *)
Definition parserCalls (messages : list Message) : list (string * string) :=
  omap (λ message,
          match messageRole message with
          | assistant | user => Some (id message, extractTextContent message)
          | _ => None
          end) messages.

Fixpoint parseEach (calls : list (string * string)) (states : gmap string pstate)
  : gmap string pstate * list event :=
  match calls with
  | [] => (states, [])
  | (messageId, input) :: later =>
      let '(states1, events, _) := parse messageId input states in
      let '(states2, events2) := parseEach later states1 in
      (states2, events ++ events2)
  end.

End Vocabulary.

(** The texts of successive calls for one message: each is the one before
    with more text at its end, or the same text again. *)
Inductive growing : list string → Prop :=
| growing_nil : growing []
| growing_one text : growing [text]
| growing_more text more later :
    growing ((text +:+ more) :: later) → growing (text :: (text +:+ more) :: later).

(** The same states at the end and the same open and close events. *)
Definition sameOutcome (x y : gmap string pstate * list event) : Prop :=
  fst x = fst y ∧ openClose (snd x) = openClose (snd y).

(** The prefixes of a text, shortest first: the texts of a delivery one
    character at a time. *)
Fixpoint prefixesFrom (before text : string) : list string :=
  match text with
  | EmptyString => []
  | String c rest =>
      let next := before +:+ String c EmptyString in
      next :: prefixesFrom next rest
  end.

Definition prefixes (text : string) : list string := prefixesFrom EmptyString text.

(** A reading of [name="value"] attributes, for the examples. *)
Definition exampleAttribute (name tag : string) : string :=
  match splitFirst (name +:+ "=" +:+ DQ) tag with
  | Some (_, after) =>
      match findChar (ascii_of_nat 34) after with
      | Some e => takeStr e after
      | None => EmptyString
      end
  | None => EmptyString
  end.

Definition exampleParse
  : string → string → gmap string pstate → gmap string pstate * list event * string :=
  parse "<boltArtifact" "</boltArtifact>" "<boltAction" "</boltAction>" exampleAttribute.

Definition exampleDeliver
  : string → list string → gmap string pstate → gmap string pstate * list event :=
  deliver "<boltArtifact" "</boltArtifact>" "<boltAction" "</boltAction>" exampleAttribute.

Definition exampleText : string :=
  "Hi <boltArtifact id=" +:+ DQ +:+ "a1" +:+ DQ +:+ " title=" +:+ DQ +:+ "Demo" +:+ DQ +:+ ">"
  +:+ "<boltAction type=" +:+ DQ +:+ "file" +:+ DQ +:+ " filePath=" +:+ DQ +:+ "a.txt" +:+ DQ +:+ ">x <boltAction y</boltAction>"
  +:+ "<boltAction type=" +:+ DQ +:+ "shell" +:+ DQ +:+ ">npm i</boltAction>"
  +:+ "</boltArtifact> bye".

End Parser.

(** ** Text helpers shared by the client and the server *)

Module Text.
Import JS.

(** A template literal written line by line: every line ends with a line
    feed. *)
Definition unlines (lines : list string) : string :=
  foldr (λ line rest, line +:+ LF +:+ rest) EmptyString lines.

(** [s.replace(/[/:]/g, '-')] *)
Fixpoint replaceSlashColon (s : string) : string :=
  match s with
  | EmptyString => EmptyString
  | String c rest =>
      String (if Ascii.eqb c "/" || Ascii.eqb c ":" then "-"%char else c)
             (replaceSlashColon rest)
  end.

(** [s.endsWith(p)] *)
Definition endsWith (p s : string) : bool :=
  bool_decide (String.length p ≤ String.length s)
  && bool_decide (dropStr (String.length s - String.length p) s = p).

(** The characters of the class [\s] that take three bytes in UTF-8:
    U+1680, U+2000 to U+200A, U+2028, U+2029, U+202F, U+205F, U+3000 and
    U+FEFF. *)
Definition isSpace3 (a b c : Z) : bool :=
  ((a =? 225) && (b =? 154) && (c =? 128)
   || (a =? 226) && (b =? 128)
      && ((128 <=? c) && (c <=? 138) || (c =? 168) || (c =? 169) || (c =? 175))
   || (a =? 226) && (b =? 129) && (c =? 159)
   || (a =? 227) && (b =? 128) && (c =? 128)
   || (a =? 239) && (b =? 187) && (c =? 191))%Z.

(** The number of bytes of the character of the class [\s] at the head of
    the text, 0 when the text does not start with one.  The class holds the
    white space and the line terminators of ECMA-262: U+0009 to U+000D,
    U+0020, U+00A0 and the characters of [isSpace3]. *)
Definition spaceWidth (s : string) : nat :=
  match encode (takeStr 3 s) with
  | a :: rest =>
      if ((9 <=? a) && (a <=? 13) || (a =? 32))%Z then 1
      else
        match rest with
        | b :: rest' =>
            if ((a =? 194) && (b =? 160))%Z then 2
            else
              match rest' with
              | c :: _ => if isSpace3 a b c then 3 else 0
              | [] => 0
              end
        | [] => 0
        end
  | [] => 0
  end.

(** The text after the longest run of [\s] at its head. *)
Fixpoint skipSpaces (fuel : nat) (s : string) : string :=
  match fuel with
  | O => s
  | S fuel' =>
      match spaceWidth s with
      | O => s
      | w => skipSpaces fuel' (dropStr w s)
      end
  end.

(** [parseInt(digits, 10)] on a run of decimal digits: its value (the
    number JavaScript holds is the double nearest to it, the value itself
    below [2 ^ 53]). *)
Fixpoint decimalFrom (acc : Z) (digits : string) : Z :=
  match digits with
  | EmptyString => acc
  | String c rest => decimalFrom (acc * 10 + (Z.of_N (N_of_ascii c) - 48)) rest
  end.

Definition parseInt10 (digits : string) : Z := decimalFrom 0 digits.

(** Every character of the text is in the class [p]. *)
Fixpoint allChars (p : ascii → bool) (s : string) : bool :=
  match s with
  | EmptyString => true
  | String c rest => p c && allChars p rest
  end.

(** The text is a run of characters of the class [\s]. *)
Definition allSpaces (s : string) : bool :=
  bool_decide (skipSpaces (String.length s) s = EmptyString).

End Text.

(** ** The Docker artifacts of the client: [generateDockerfile],
       [generateDockerCompose], [generateDockerIgnore], [generateNginxConf],
       [getAllFiles] and the packaging at the end of [handleDockerDeploy] *)

Module Docker.
Import JS Text Detect.

Definition installCmd (detection : ProjectDetection) : string :=
  match packageManager detection with
  | pnpm => "corepack enable && pnpm install --frozen-lockfile"
  | yarn => "yarn install --frozen-lockfile"
  | npm => "npm ci"
  end.

Definition copyLockfile (detection : ProjectDetection) : string :=
  match packageManager detection with
  | pnpm => "COPY pnpm-lock.yaml ./"
  | yarn => "COPY yarn.lock ./"
  | npm => "COPY package-lock.json ./"
  end.

(** The [CMD] line that runs a command through the shell. *)
Definition shellCmd (command : string) : string :=
  "CMD [" +:+ DQ +:+ "sh" +:+ DQ +:+ ", " +:+ DQ +:+ "-c" +:+ DQ +:+ ", "
  +:+ DQ +:+ command +:+ DQ +:+ "]".

Definition generateDockerfile (detection : ProjectDetection) : string :=
  match type detection with
  | node =>
      if hasBuildScript detection then
        unlines [
          "# ---- Build Stage ----";
          "FROM node:" +:+ nodeVersion detection +:+ "-alpine AS builder";
          "";
          "WORKDIR /app";
          "";
          "# Copy dependency manifests";
          "COPY package.json ./";
          copyLockfile detection;
          "";
          "# Install dependencies";
          "RUN " +:+ installCmd detection;
          "";
          "# Copy source code";
          "COPY . .";
          "";
          "# Build the application";
          "RUN " +:+ buildCommand detection;
          "";
          "# ---- Production Stage ----";
          "FROM node:" +:+ nodeVersion detection +:+ "-alpine AS production";
          "";
          "WORKDIR /app";
          "";
          "ENV NODE_ENV=production";
          "";
          "# Copy dependency manifests";
          "COPY package.json ./";
          copyLockfile detection;
          "";
          "# Install production-only dependencies";
          "RUN " +:+ installCmd detection +:+ " --production";
          "";
          "# Copy built artifacts from builder";
          "COPY --from=builder /app/" +:+ buildOutputDir detection
            +:+ " ./" +:+ buildOutputDir detection;
          "";
          "# Expose default port";
          "EXPOSE 3000";
          "";
          "# Start the application";
          shellCmd (startCommand detection)
        ]
      else
        (* No build step: simple Node.js server *)
        unlines [
          "FROM node:" +:+ nodeVersion detection +:+ "-alpine";
          "";
          "WORKDIR /app";
          "";
          "# Copy dependency manifests";
          "COPY package.json ./";
          copyLockfile detection;
          "";
          "# Install dependencies";
          "RUN " +:+ installCmd detection;
          "";
          "# Copy source code";
          "COPY . .";
          "";
          "# Expose default port";
          "EXPOSE 3000";
          "";
          shellCmd (startCommand detection)
        ]
  | python =>
      unlines [
        "FROM python:3.12-slim";
        "";
        "WORKDIR /app";
        "";
        "# Copy requirements";
        "COPY requirements.txt ./";
        "";
        "# Install dependencies";
        "RUN pip install --no-cache-dir -r requirements.txt";
        "";
        "# Copy source code";
        "COPY . .";
        "";
        "# Expose default port";
        "EXPOSE 8000";
        "";
        shellCmd (startCommand detection)
      ]
  | static =>
      unlines [
        "FROM nginx:alpine";
        "";
        "# Remove default nginx config";
        "RUN rm /etc/nginx/conf.d/default.conf";
        "";
        "# Copy custom nginx config";
        "COPY nginx.conf /etc/nginx/conf.d/default.conf";
        "";
        "# Copy static files";
        "COPY . /usr/share/nginx/html";
        "";
        "EXPOSE 80";
        "";
        "CMD [" +:+ DQ +:+ "nginx" +:+ DQ +:+ ", " +:+ DQ +:+ "-g" +:+ DQ +:+ ", "
          +:+ DQ +:+ "daemon off;" +:+ DQ +:+ "]"
      ]
  | unknown =>
      unlines [
        "FROM node:20-alpine";
        "";
        "WORKDIR /app";
        "";
        "COPY . .";
        "";
        "EXPOSE 3000";
        "";
        "CMD [" +:+ DQ +:+ "node" +:+ DQ +:+ ", " +:+ DQ +:+ "index.js" +:+ DQ +:+ "]"
      ]
  end.

(** The port [generateDockerCompose] publishes. *)
Definition composePort (detection : ProjectDetection) : string :=
  match type detection with
  | static => "80"
  | python => "8000"
  | _ => "3000"
  end.

Definition generateDockerCompose (imageName : string) (detection : ProjectDetection)
  : string :=
  let port := composePort detection in
  unlines [
    "version: " +:+ DQ +:+ "3.8" +:+ DQ;
    "";
    "services:";
    "  app:";
    "    build:";
    "      context: .";
    "      dockerfile: Dockerfile";
    "    image: " +:+ imageName;
    "    container_name: " +:+ replaceSlashColon imageName;
    "    ports:";
    "      - " +:+ DQ +:+ port +:+ ":" +:+ port +:+ DQ;
    "    environment:";
    "      - NODE_ENV=production";
    "    restart: unless-stopped"
  ].

Definition generateDockerIgnore : string :=
  unlines [
    "node_modules"; ".git"; ".gitignore"; ".env"; ".env.*"; "*.log"; "npm-debug.log*";
    ".DS_Store"; "coverage"; ".cache"; ".next"; "dist"; "build"; ".output"; "Thumbs.db"
  ].

Definition generateNginxConf : string :=
  unlines [
    "server {";
    "    listen 80;";
    "    server_name localhost;";
    "    root /usr/share/nginx/html;";
    "    index index.html;";
    "";
    "    location / {";
    "        try_files $uri $uri/ /index.html;";
    "    }";
    "";
    "    location ~* " +:+ BS +:+ ".(js|css|png|jpg|jpeg|gif|ico|svg|woff|woff2|ttf|eot)$ {";
    "        expires 1y;";
    "        add_header Cache-Control " +:+ DQ +:+ "public, immutable" +:+ DQ +:+ ";";
    "    }";
    "";
    "    gzip on;";
    "    gzip_types text/plain text/css application/json application/javascript text/xml application/xml application/xml+rss text/javascript;";
    "}"
  ].

(** *** [getAllFiles] *)

(** An entry of a directory of the container: a file with its text
    ([None] when [readFile] throws), a directory with its entries ([None]
    when [readdir] throws), or an entry that is neither. *)
#[local] Unset Elimination Schemes.
Inductive entry :=
| FileEntry (name : string) (content : option string)
| DirEntry (name : string) (children : option (list entry))
| OtherEntry (name : string).
#[local] Set Elimination Schemes.

(** The directories that are not deployed. *)
Definition skippedDirectory (name : string) : bool :=
  bool_decide (name = "node_modules") || bool_decide (name = ".git")
  || bool_decide (name = ".cache") || bool_decide (name = ".next").

(** The files that are not deployed. *)
Definition skippedFile (name : string) : bool :=
  endsWith ".DS_Store" name || endsWith ".log" name || startsWith ".env" name.

Definition relativePath (basePath name : string) : string :=
  if bool_decide (basePath ≠ EmptyString) then basePath +:+ "/" +:+ name else name.

(** [Object.assign(files, subFiles)] *)
Definition assign (files subFiles : list (string * string)) : list (string * string) :=
  fold_left (λ files '(key, value), setFile key value files) subFiles files.

(** The body of the loop of [getAllFiles] for one entry; [files] is the
    record filled so far, and [None] the rejection of the promise. *)
Fixpoint visit (e : entry) (basePath : string) (files : list (string * string))
  : option (list (string * string)) :=
  match e with
  | DirEntry name children =>
      (* Skip non-deployable directories *)
      if skippedDirectory name then Some files
      else
        match children with
        | None => None
        | Some entries =>
            subFiles ←
              (fix loop (entries : list entry) (files : list (string * string)) :=
                 match entries with
                 | [] => Some files
                 | e :: rest =>
                     files ← visit e (relativePath basePath name) files;
                     loop rest files
                 end) entries [];
            Some (assign files subFiles)
        end
  | FileEntry name content =>
      if skippedFile name then Some files
      else
        match content with
        | Some content => Some (setFile (relativePath basePath name) content files)
        | None => Some files
        end
  | OtherEntry _ => Some files
  end.

Fixpoint visitAll (entries : list entry) (basePath : string)
    (files : list (string * string)) : option (list (string * string)) :=
  match entries with
  | [] => Some files
  | e :: rest =>
      files ← visit e basePath files;
      visitAll rest basePath files
  end.

(** [getAllFiles(dirPath, basePath)], [entries] being what [readdir] gives
    for [dirPath]. *)
Definition getAllFiles (entries : option (list entry)) (basePath : string)
  : option (list (string * string)) :=
  entries ← entries;
  visitAll entries basePath [].

(** A file [getAllFiles] is to collect: it is readable, its name is not
    skipped, and it lies under directories that are not skipped. *)
Inductive collected : list entry → string → string → string → Prop :=
| collected_file entries basePath name content :
    FileEntry name (Some content) ∈ entries →
    skippedFile name = false →
    collected entries basePath (relativePath basePath name) content
| collected_dir entries basePath name children path content :
    DirEntry name (Some children) ∈ entries →
    skippedDirectory name = false →
    collected children (relativePath basePath name) path content →
    collected entries basePath path content.

(** What makes [getAllFiles] reject: a directory that [readdir] cannot
    list, under directories that are not skipped. *)
Inductive blocked : list entry → Prop :=
| blocked_here entries name :
    DirEntry name None ∈ entries →
    skippedDirectory name = false →
    blocked entries
| blocked_under entries name children :
    DirEntry name (Some children) ∈ entries →
    skippedDirectory name = false →
    blocked children →
    blocked entries.

(** *** The packaging of [handleDockerDeploy] *)

(** What [handleDockerDeploy] returns on success. *)
Record package := {
  files : list (string * string);
  projectName : string;
  detection : ProjectDetection;
  dockerfile : string;
  dockerCompose : string;
}.

Section Packaging.
Variable JSON_parse : string → option json.

(** From the detection to the returned value; [projectName] is the title
    of the artifact with its white space replaced and in lower case. *)
Definition dockerPackage (projectName : string) (fileContents : list (string * string))
  : package :=
  let detection := detectProject JSON_parse fileContents in
  let dockerfile := generateDockerfile detection in
  let dockerCompose := generateDockerCompose projectName detection in
  let dockerIgnore := generateDockerIgnore in
  (* Add Docker files to the collected files *)
  let fileContents := setFile "Dockerfile" dockerfile fileContents in
  let fileContents := setFile "docker-compose.yml" dockerCompose fileContents in
  let fileContents := setFile ".dockerignore" dockerIgnore fileContents in
  (* Add nginx.conf for static sites *)
  let fileContents :=
    match type detection with
    | static => setFile "nginx.conf" generateNginxConf fileContents
    | _ => fileContents
    end in
  {| files := fileContents; projectName := projectName; detection := detection;
     dockerfile := dockerfile; dockerCompose := dockerCompose |}.

End Packaging.

End Docker.
(** ** The rest of the deploy endpoint: [action], [detectPortFromDockerfile],
       [generateFlyToml] and the file set [handleFlyDeploy] writes *)

Module Server.
Import JS Text Fly.

(** *** [detectPortFromDockerfile] *)

(** The match of [/EXPOSE\s+(\d+)/] that starts at the head of the text:
    its capture.  The classes [\s] and [\d] have no character in common, so
    the longest run of each is the only way to match. *)
Definition exposeAt (s : string) : option string :=
  if startsWith "EXPOSE" s then
    let rest := dropStr 6 s in
    if bool_decide (0 < spaceWidth rest) then
      match Detect.takeDigits (skipSpaces (String.length rest) rest) with
      | EmptyString => None
      | digits => Some digits
      end
    else None
  else None.

(** [s.match(/EXPOSE\s+(\d+)/)]: the capture of the leftmost match. *)
Fixpoint matchExpose (s : string) : option string :=
  match exposeAt s with
  | Some digits => Some digits
  | None =>
      match s with
      | EmptyString => None
      | String _ rest => matchExpose rest
      end
  end.

(** The port is an integer here; in JavaScript it is a double, the same
    number below [2 ^ 53]. *)
Definition detectPortFromDockerfile (dockerfile : string) : Z :=
  match matchExpose dockerfile with
  | Some digits => parseInt10 digits
  | None => 3000%Z
  end.

(** The two texts agree as far as both go: one starts with the other. *)
Fixpoint agree (tag s : string) : bool :=
  match tag, s with
  | EmptyString, _ | _, EmptyString => true
  | String a tag', String b s' => Ascii.eqb a b && agree tag' s'
  end.

(** No [EXPOSE] starts inside [s], whatever text follows [s]. *)
Fixpoint noExpose (s : string) : bool :=
  match s with
  | EmptyString => true
  | String _ rest => negb (agree "EXPOSE" s) && noExpose rest
  end.

(** *** [generateFlyToml] *)

Definition generateFlyToml (appName : string) (port : Z) : string :=
  unlines [
    "# See https://fly.io/docs/reference/configuration/ for information about how to use this file.";
    "";
    "app = " +:+ DQ +:+ appName +:+ DQ;
    "primary_region = " +:+ DQ +:+ "iad" +:+ DQ;
    "";
    "[build]";
    "";
    "# Ensure the app binds on 0.0.0.0 so Fly's load balancer can reach it.";
    "# Many frameworks (Vite, Next.js, etc.) default to 127.0.0.1 in production.";
    "[env]";
    "  HOST = " +:+ DQ +:+ "0.0.0.0" +:+ DQ;
    "  PORT = " +:+ DQ +:+ toString 10 port +:+ DQ;
    "";
    "[http_service]";
    "  internal_port = " +:+ toString 10 port;
    "  force_https = true";
    "  auto_stop_machines = " +:+ DQ +:+ "stop" +:+ DQ;
    "  auto_start_machines = true";
    "  min_machines_running = 0";
    "  processes = [" +:+ DQ +:+ "app" +:+ DQ +:+ "]";
    "";
    "[[vm]]";
    "  memory = " +:+ DQ +:+ "256mb" +:+ DQ;
    "  cpu_kind = " +:+ DQ +:+ "shared" +:+ DQ;
    "  cpus = 1"
  ].

(** *** The files of [handleFlyDeploy] *)

(** The port detected and the file set written to the build directory:
    [fly.toml] is generated unless the request brings one, then the tracker
    is injected. *)
Definition flyFiles (files : list (string * string)) (flyAppName : string)
    (boltUrl : option string) : Z * list (string * string) :=
  (* Detect port from Dockerfile *)
  let dockerfile :=
    if truthy (getFile "Dockerfile" files)
    then default EmptyString (getFile "Dockerfile" files) else EmptyString in
  let port := detectPortFromDockerfile dockerfile in
  (* Generate fly.toml if not already present *)
  let files :=
    if negb (truthy (getFile "fly.toml" files))
    then setFile "fly.toml" (generateFlyToml flyAppName port) files
    else files in
  (port, injectTracker flyAppName boltUrl files).

(** *** [action] *)

(** The body of the request as [request.json()] gives it. *)
Record body := {
  deployAction : option string;
  imageName : option string;
  files : option (list (string * string));
  flyAppName : option string;
  flyRegion : option string;
  boltUrl : option string;
}.

(** What [action] answers: a JSON error with its status, or the call of
    one of the three handlers with its arguments. *)
Inductive routed :=
| Reject (status : Z) (error : string)
| HandlePackage (imageName : string) (files : list (string * string))
| HandleBuild (imageName : string) (files : list (string * string))
| HandleFlyDeploy (imageName : string) (files : list (string * string))
    (flyAppName flyRegion : string) (boltUrl : option string).

(** [action({ request })]; [requestJson] is the body [request.json()]
    gives, or the value thrown in the [try] block before the dispatch (by
    [request.json()], or by the destructuring of a body that is [null]). *)
Definition action (method : string) (requestJson : body + thrown) : routed :=
  if negb (String.eqb method "POST") then Reject 405 "Method not allowed"
  else
    match requestJson with
    | inr error =>
        Reject 500 (match error with
                    | ErrorObj message => message
                    | NotAnError => "Internal server error"
                    end)
    | inl body =>
        if negb (truthy (imageName body)) || negb (bool_decide (is_Some (files body)))
        then Reject 400 "Missing imageName or files"
        else
          let name := default EmptyString (imageName body) in
          let fileSet := default [] (files body) in
          if bool_decide (deployAction body = Some "package")
          then HandlePackage name fileSet
          else if bool_decide (deployAction body = Some "build")
          then HandleBuild name fileSet
          else if bool_decide (deployAction body = Some "fly-deploy") then
            let flyAppName :=
              if truthy (flyAppName body) then default EmptyString (flyAppName body)
              else replaceSlashColon name in
            let flyRegion :=
              if truthy (flyRegion body) then default EmptyString (flyRegion body)
              else "iad" in
            HandleFlyDeploy name fileSet flyAppName flyRegion (boltUrl body)
          else
            Reject 400 ("Invalid action. Use " +:+ DQ +:+ "package" +:+ DQ +:+ ", "
                        +:+ DQ +:+ "build" +:+ DQ +:+ ", or " +:+ DQ +:+ "fly-deploy"
                        +:+ DQ +:+ ".")
    end.

(** The body the server reads from the request of the one-click deploy:
    [JSON.stringify] on the client, [request.json()] on the server. *)
Definition bodyOf (request : OneClick.request) : body :=
  {| deployAction := Some (OneClick.action request);
     imageName := Some (OneClick.imageName request);
     files := Some (OneClick.requestFiles request);
     flyAppName := Some (OneClick.flyAppName request);
     flyRegion := Some (OneClick.flyRegion request);
     boltUrl := Some (OneClick.boltUrl request) |}.

End Server.

(** ** The end of the one-click deploy: the log read from the stream *)

Module Outcome.
Import JS Fly.

(** The texts the stream carries: what [log] enqueued, in order. *)
Definition logged (trace : list effect) : list string :=
  omap (λ e, match e with Log msg => Some msg | _ => None end) trace.

(** Step 5: [fullLog] once the reader is done. *)
Definition fullLog (texts : list string) : string :=
  fold_left append texts EmptyString.

(** Step 6: the failure markers. *)
Definition failureMarker (fullLog : string) : bool :=
  includes fullLog "✗ Deployment failed" || includes fullLog "deployment did not complete".

Inductive deployStatus := deploying | success | error.

(** Step 7: the URL shown, which is also the [deployedUrl] kept in the
    metadata of the chat. *)
Definition appUrl (flyAppName : string) : string :=
  "https://" +:+ flyAppName +:+ ".fly.dev".

(** Steps 6 and 7: the status shown and the URL of the app. *)
Definition finish (flyAppName fullLog : string) : deployStatus * option string :=
  if failureMarker fullLog then (error, None)
  else (success, Some (appUrl flyAppName)).

End Outcome.
(** ** The size of the archive *)

Module TarSize.
Import JS.

(** The number of 512-byte blocks that hold [n] bytes. *)
Definition blocks (n : nat) : nat := (n + 511) / 512.

(** The length of the archive of a file set: a header block and the
    content blocks of every file, and the two blocks at the end. *)
Definition archiveSize (files : list (string * string)) : nat :=
  sum_list ((λ '(_, content), 512 + 512 * blocks (length (encode content))) <$> files) + 1024.

End TarSize.
(** * Properties *)

(** ** Bytes, strings and typed arrays *)

Section JSFacts.
Import JS.

Lemma encode_length s : length (encode s) = String.length s.
Proof.
  unfold encode. rewrite length_fmap.
  induction s as [|a s IH]; simpl; [reflexivity | now rewrite IH].
Qed.

Lemma encode_cons c s : encode (String c s) = Z.of_N (N_of_ascii c) :: encode s.
Proof. reflexivity. Qed.

Lemma encode_app a b : encode (a +:+ b) = encode a ++ encode b.
Proof.
  induction a as [|c a IH]; [reflexivity|].
  change (String c a +:+ b) with (String c (a +:+ b)).
  now rewrite !encode_cons, IH.
Qed.

Lemma encode_isByte s : Forall isByte (encode s).
Proof.
  induction s as [|c s IH]; [constructor|].
  rewrite encode_cons. constructor; [|exact IH].
  pose proof (N_ascii_bounded c). unfold isByte. lia.
Qed.

Lemma encode_inj a b : encode a = encode b → a = b.
Proof.
  revert b. induction a as [|c a IH]; intros [|d b]; simpl; try discriminate.
  - reflexivity.
  - rewrite !encode_cons. intros H. injection H as Hc Hs.
    f_equal; [|now apply IH].
    apply N2Z.inj in Hc.
    rewrite <- (ascii_N_embedding c), <- (ascii_N_embedding d). now rewrite Hc.
Qed.

Lemma append_cons c a b : String c a +:+ b = String c (a +:+ b).
Proof. reflexivity. Qed.

Lemma append_nil_r a : a +:+ EmptyString = a.
Proof. induction a as [|c a IH]; [reflexivity|]. now rewrite append_cons, IH. Qed.

Lemma append_assoc a b c : (a +:+ b) +:+ c = a +:+ (b +:+ c).
Proof. induction a as [|x a IH]; [reflexivity|]. now rewrite !append_cons, IH. Qed.

Lemma length_append a b : String.length (a +:+ b) = String.length a + String.length b.
Proof. induction a as [|c a IH]; simpl; [reflexivity | now rewrite IH]. Qed.

Lemma length_repeatChar n c : String.length (repeatChar n c) = n.
Proof. induction n as [|n IH]; simpl; [reflexivity | now rewrite IH]. Qed.

Lemma encode_repeatChar n c : encode (repeatChar n c) = replicate n (Z.of_N (N_of_ascii c)).
Proof. induction n as [|n IH]; simpl; [reflexivity|]. now rewrite encode_cons, IH. Qed.

(** *** [set] as a splice *)

Lemma set_splice src off arr :
  off + length src ≤ length arr → set src off arr = Some (splice src off arr).
Proof. intros H. unfold set. now rewrite decide_True. Qed.

Lemma length_splice src off arr :
  off + length src ≤ length arr → length (splice src off arr) = length arr.
Proof.
  intros H. unfold splice. rewrite !length_app, length_take, length_drop. lia.
Qed.

Lemma splice_isByte src off arr :
  Forall isByte src → Forall isByte arr → Forall isByte (splice src off arr).
Proof.
  intros Hs Ha. unfold splice. rewrite !Forall_app. repeat split.
  - now apply Forall_take.
  - exact Hs.
  - now apply Forall_drop.
Qed.

Lemma take_splice_before src off arr k :
  k ≤ off → off ≤ length arr → take k (splice src off arr) = take k arr.
Proof.
  intros Hk Ho. unfold splice.
  rewrite take_app_le by (rewrite length_take; lia).
  rewrite take_take. f_equal. lia.
Qed.

Lemma drop_splice_after src off arr k :
  off + length src ≤ k → off + length src ≤ length arr →
  drop k (splice src off arr) = drop k arr.
Proof.
  intros Hk Ho. unfold splice.
  rewrite drop_app_ge by (rewrite length_take; lia).
  rewrite length_take, drop_app_ge by lia.
  rewrite drop_drop. f_equal. lia.
Qed.

Lemma drop_splice_at src off arr :
  off ≤ length arr → drop off (splice src off arr) = src ++ drop (off + length src) arr.
Proof.
  intros Ho. unfold splice.
  rewrite drop_app_length'; [reflexivity|]. rewrite length_take. lia.
Qed.

Lemma slice_splice_before src off arr a n :
  a + n ≤ off → off ≤ length arr →
  TarReader.slice a n (splice src off arr) = TarReader.slice a n arr.
Proof.
  intros Ha Ho. unfold TarReader.slice.
  rewrite !take_drop_commute. f_equal. now apply take_splice_before.
Qed.

Lemma slice_splice_after src off arr a n :
  off + length src ≤ a → off + length src ≤ length arr →
  TarReader.slice a n (splice src off arr) = TarReader.slice a n arr.
Proof.
  intros Ha Ho. unfold TarReader.slice. f_equal. now apply drop_splice_after.
Qed.

Lemma slice_splice_at src off arr :
  off ≤ length arr → TarReader.slice off (length src) (splice src off arr) = src.
Proof.
  intros Ho. unfold TarReader.slice. rewrite drop_splice_at by exact Ho.
  now rewrite take_app_length.
Qed.

Lemma slice_insert_other (l : list Z) i x a n :
  i < a ∨ a + n ≤ i → TarReader.slice a n (<[i:=x]> l) = TarReader.slice a n l.
Proof.
  intros H. unfold TarReader.slice. destruct H as [H|H].
  - now rewrite drop_insert_lt by lia.
  - rewrite !take_drop_commute. f_equal. now rewrite take_insert_ge by lia.
Qed.

Lemma lookup_splice_outside src off arr i :
  i < off ∨ off + length src ≤ i → off + length src ≤ length arr →
  splice src off arr !! i = arr !! i.
Proof.
  intros Hi Ho. unfold splice. destruct Hi as [Hi|Hi].
  - rewrite lookup_app_l by (rewrite length_take; lia).
    now rewrite lookup_take_lt by lia.
  - rewrite lookup_app_r by (rewrite length_take; lia).
    rewrite length_take, lookup_app_r by lia.
    rewrite lookup_drop. f_equal. lia.
Qed.

Lemma lookup_splice_inside src off arr i :
  off ≤ i < off + length src → off ≤ length arr →
  splice src off arr !! i = src !! (i - off).
Proof.
  intros Hi Ho. unfold splice.
  rewrite lookup_app_r by (rewrite length_take; lia).
  rewrite length_take, lookup_app_l by lia. f_equal. lia.
Qed.

End JSFacts.

(** ** Searching and replacing in strings *)

Section StringFacts.
Import JS.

Lemma startsWith_app p rest : startsWith p (p +:+ rest) = true.
Proof.
  induction p as [|c p IH]; [reflexivity|].
  rewrite append_cons. cbn [startsWith]. now rewrite Ascii.eqb_refl.
Qed.

Lemma startsWith_true p : ∀ s, startsWith p s = true → s = p +:+ dropStr (String.length p) s.
Proof.
  induction p as [|c p IH]; intros s H; [reflexivity|].
  destruct s as [|d s]; [discriminate|].
  cbn [startsWith] in H. destruct (Ascii.eqb_spec c d) as [->|]; [|discriminate].
  rewrite append_cons. cbn [String.length dropStr]. f_equal. now apply IH.
Qed.

Lemma takeStr_dropStr n : ∀ s, takeStr n s +:+ dropStr n s = s.
Proof.
  induction n as [|n IH]; intros s; [reflexivity|].
  destruct s as [|c s]; [reflexivity|].
  cbn [takeStr dropStr]. rewrite append_cons. now rewrite IH.
Qed.

Lemma dropStr_app a b : dropStr (String.length a) (a +:+ b) = b.
Proof. induction a as [|c a IH]; [reflexivity|]. exact IH. Qed.

Lemma takeStr_app a b : takeStr (String.length a) (a +:+ b) = a.
Proof.
  induction a as [|c a IH]; [reflexivity|].
  rewrite append_cons. cbn [String.length takeStr]. now rewrite IH.
Qed.

Lemma dropStr_dropStr n : ∀ m s, dropStr n (dropStr m s) = dropStr (m + n) s.
Proof.
  intros m. induction m as [|m IH]; intros s; [reflexivity|].
  destruct s as [|c s]; [now destruct n|]. exact (IH s).
Qed.

(** [indexOf] returns the least position at which [p] starts. *)
Lemma indexOf_Some p : ∀ s i,
  indexOf p s = Some i →
  i ≤ String.length s
  ∧ startsWith p (dropStr i s) = true
  ∧ ∀ j, j < i → startsWith p (dropStr j s) = false.
Proof.
  induction s as [|c s IH]; intros i H; cbn [indexOf] in H.
  - destruct (startsWith p EmptyString) eqn:Hp; [|discriminate].
    injection H as <-. repeat split; [lia | exact Hp | lia].
  - destruct (startsWith p (String c s)) eqn:Hp.
    + injection H as <-. repeat split; [lia | exact Hp | lia].
    + destruct (indexOf p s) as [k|] eqn:Hk; [|discriminate].
      injection H as <-. destruct (IH k eq_refl) as (Hle & Hst & Hmin).
      repeat split; [simpl; lia | exact Hst |].
      intros [|j] Hj; [exact Hp|]. apply Hmin. lia.
Qed.

Lemma indexOf_least p : ∀ s i,
  i ≤ String.length s →
  startsWith p (dropStr i s) = true →
  (∀ j, j < i → startsWith p (dropStr j s) = false) →
  indexOf p s = Some i.
Proof.
  induction s as [|c s IH]; intros i Hi Hst Hmin.
  - assert (i = 0) as -> by (simpl in Hi; lia).
    cbn [indexOf]. cbn [dropStr] in Hst. now rewrite Hst.
  - destruct i as [|i].
    + cbn [indexOf]. cbn [dropStr] in Hst. now rewrite Hst.
    + cbn [indexOf]. pose proof (Hmin 0 ltac:(lia)) as H0. cbn [dropStr] in H0.
      rewrite H0.
      rewrite (IH i); [reflexivity | simpl in Hi; lia | exact Hst |].
      intros j Hj. apply (Hmin (S j)). lia.
Qed.

Lemma occurrence_startsWith p before after :
  startsWith p (dropStr (String.length before) (before +:+ p +:+ after)) = true.
Proof. rewrite dropStr_app. apply startsWith_app. Qed.

Lemma length_takeStr n : ∀ s, n ≤ String.length s → String.length (takeStr n s) = n.
Proof.
  induction n as [|n IH]; intros s H; [reflexivity|].
  destruct s as [|c s]; [simpl in H; lia|].
  cbn [takeStr String.length]. rewrite IH; [reflexivity | simpl in H; lia].
Qed.

Lemma length_dropStr n : ∀ s, String.length (dropStr n s) = String.length s - n.
Proof.
  induction n as [|n IH]; intros s; [simpl; lia|].
  destruct s as [|c s]; [reflexivity|]. cbn [dropStr String.length]. rewrite IH. lia.
Qed.

Lemma splitFirst_firstOccurrence p s before after :
  firstOccurrence p s before after → splitFirst p s = Some (before, after).
Proof.
  intros [-> Hmin]. unfold splitFirst.
  rewrite (indexOf_least p _ (String.length before)).
  - cbn [mbind option_bind]. rewrite takeStr_app.
    rewrite <- dropStr_dropStr, dropStr_app, dropStr_app. reflexivity.
  - rewrite length_append. lia.
  - apply occurrence_startsWith.
  - intros j Hj. apply not_true_is_false. intros Hst.
    apply startsWith_true in Hst.
    pose proof (takeStr_dropStr j (before +:+ p +:+ after)) as Hsplit.
    rewrite Hst in Hsplit. symmetry in Hsplit. apply Hmin in Hsplit.
    rewrite length_takeStr in Hsplit by (rewrite length_append; lia). lia.
Qed.

Lemma firstOccurrence_splitFirst p s before after :
  splitFirst p s = Some (before, after) → firstOccurrence p s before after.
Proof.
  unfold splitFirst. destruct (indexOf p s) as [i|] eqn:Hi; [|discriminate].
  cbn [mbind option_bind]. intros H. injection H as <- <-.
  apply indexOf_Some in Hi as (Hle & Hst & Hmin).
  pose proof (startsWith_true _ _ Hst) as Hdrop.
  rewrite dropStr_dropStr in Hdrop.
  split.
  - rewrite <- Hdrop. symmetry. apply takeStr_dropStr.
  - intros before' after' Heq. rewrite length_takeStr by exact Hle.
    destruct (decide (i ≤ String.length before')) as [|Hlt]; [assumption|].
    pose proof (occurrence_startsWith p before' after') as Hocc.
    rewrite <- Heq in Hocc.
    rewrite (Hmin (String.length before')) in Hocc by lia. discriminate Hocc.
Qed.

Lemma indexOf_absent p s : absent p s → indexOf p s = None.
Proof.
  intros Habs. destruct (indexOf p s) as [i|] eqn:Hi; [|reflexivity].
  apply indexOf_Some in Hi as (_ & Hst & _).
  apply startsWith_true in Hst.
  exfalso. apply (Habs (takeStr i s) (dropStr (String.length p) (dropStr i s))).
  rewrite <- Hst. symmetry. apply takeStr_dropStr.
Qed.

Lemma includes_absent p s : absent p s → includes s p = false.
Proof. intros H. unfold includes. now rewrite indexOf_absent. Qed.

Lemma includes_occurrence p before after : includes (before +:+ p +:+ after) p = true.
Proof.
  unfold includes.
  destruct (indexOf p (before +:+ p +:+ after)) as [i|] eqn:Hi; [reflexivity|].
  exfalso.
  assert (Hnone : ∀ s j, indexOf p s = None → startsWith p (dropStr j s) = false).
  { clear. induction s as [|c s IH]; intros j H; cbn [indexOf] in H.
    - destruct (startsWith p EmptyString) eqn:Hp; [discriminate|]. now destruct j.
    - destruct (startsWith p (String c s)) eqn:Hp; [discriminate|].
      destruct (indexOf p s) eqn:Hk; [discriminate|].
      destruct j as [|j]; [exact Hp | now apply IH]. }
  pose proof (Hnone _ (String.length before) Hi) as Hf.
  rewrite occurrence_startsWith in Hf. discriminate.
Qed.

Lemma includes_false_absent p s : includes s p = false → absent p s.
Proof.
  intros H before after ->. now rewrite includes_occurrence in H.
Qed.

Lemma replace_absent s p repl : absent p s → replace s p repl = s.
Proof. intros H. unfold replace, splitFirst. now rewrite indexOf_absent. Qed.

Lemma noDollar_app a b : noDollar (a +:+ b) = noDollar a && noDollar b.
Proof.
  induction a as [|c a IH]; [reflexivity|].
  rewrite append_cons. cbn [noDollar]. rewrite IH. now rewrite andb_assoc.
Qed.

Lemma GetSubstitution_noDollar matched before after repl :
  noDollar repl = true → GetSubstitution matched before after repl = repl.
Proof.
  induction repl as [|c repl IH]; [reflexivity|].
  cbn [noDollar GetSubstitution]. intros H. apply andb_true_iff in H as [Hc Hr].
  apply negb_true_iff in Hc. rewrite Hc. now rewrite IH.
Qed.

(** Replacing the first occurrence by a text without [$]. *)
Lemma replace_firstOccurrence s p repl before after :
  firstOccurrence p s before after → noDollar repl = true →
  replace s p repl = before +:+ repl +:+ after.
Proof.
  intros Hocc Hrepl. unfold replace.
  rewrite (splitFirst_firstOccurrence _ _ _ _ Hocc).
  now rewrite GetSubstitution_noDollar.
Qed.

End StringFacts.

(** ** Octal numerals: [toString(8)], [padStart] and the reader's parser *)

Section OctalFacts.
Import JS TarReader.

Lemma digitChar_octal d :
  (0 ≤ d < 8)%Z → Z.of_N (N_of_ascii (digitChar d)) = (48 + d)%Z.
Proof.
  intros Hd. unfold digitChar.
  destruct (Z.ltb_spec d 10); [|lia].
  rewrite N_ascii_embedding by lia. lia.
Qed.

Lemma parseOctalFrom_digit v d rest :
  (0 ≤ d < 8)%Z →
  parseOctalFrom v (Z.of_N (N_of_ascii (digitChar d)) :: rest)
  = parseOctalFrom (v * 8 + d) rest.
Proof.
  intros Hd. rewrite digitChar_octal by exact Hd. simpl.
  unfold isOctal.
  destruct (Z.leb_spec 48 (48 + d)); [|lia].
  destruct (Z.leb_spec (48 + d) 55); [|lia].
  simpl. f_equal. lia.
Qed.

(** The digits written for [n]: their number [k] is the least with
    [n < 8 ^ k], and the reader's parser gets [n] back from them. *)
Lemma digitsFrom_octal fuel : ∀ n acc,
  (0 ≤ n < 2 ^ Z.of_nat fuel)%Z → 0 < fuel →
  ∃ ds, digitsFrom 8 fuel n acc = ds +:+ acc
    ∧ 1 ≤ String.length ds
    ∧ (n < 8 ^ Z.of_nat (String.length ds))%Z
    ∧ (String.length ds = 1 ∨ (8 ^ (Z.of_nat (String.length ds) - 1) ≤ n)%Z)
    ∧ ∀ v rest, parseOctalFrom v (encode ds ++ rest)
                = parseOctalFrom (v * 8 ^ Z.of_nat (String.length ds) + n) rest.
Proof.
  induction fuel as [|fuel IH]; intros n acc Hn Hf; [lia|].
  assert (Hmod : (0 ≤ n mod 8 < 8)%Z) by (apply Z.mod_pos_bound; lia).
  assert (Hdiv : (n = 8 * (n / 8) + n mod 8)%Z) by (apply Z.div_mod; lia).
  simpl digitsFrom.
  destruct (Z.eqb_spec (n / 8) 0) as [Hz|Hz].
  - exists (String (digitChar (n mod 8)) EmptyString). simpl String.length.
    split; [reflexivity|]. split; [lia|]. split; [simpl; lia|]. split; [now left|].
    intros v rest. rewrite encode_cons. simpl app.
    rewrite parseOctalFrom_digit by exact Hmod. f_equal. simpl. lia.
  - assert (Hq : (0 < n / 8)%Z).
    { assert (0 ≤ n / 8)%Z by (apply Z.div_pos; lia). lia. }
    assert (Hfuel : 0 < fuel).
    { destruct fuel; [|lia]. simpl in Hn. lia. }
    destruct (IH (n / 8)%Z (String (digitChar (n mod 8)) acc)) as
      (ds & Heq & Hlen & Hlt & Hmin & Hparse); [|exact Hfuel|].
    { split; [lia|].
      rewrite Nat2Z.inj_succ, Z.pow_succ_r in Hn by lia. lia. }
    exists (ds +:+ String (digitChar (n mod 8)) EmptyString).
    rewrite length_append. simpl String.length.
    replace (Z.of_nat (String.length ds + 1)) with (Z.succ (Z.of_nat (String.length ds))) by lia.
    rewrite Z.pow_succ_r by lia.
    split; [|split; [|split; [|split]]].
    + rewrite Heq. now rewrite append_assoc.
    + lia.
    + lia.
    + right. replace (Z.succ (Z.of_nat (String.length ds)) - 1)%Z with (Z.of_nat (String.length ds)) by lia.
      destruct Hmin as [H1|Hmin].
      * rewrite H1. simpl. lia.
      * replace (Z.of_nat (String.length ds)) with (Z.succ (Z.of_nat (String.length ds) - 1)) by lia.
        rewrite Z.pow_succ_r by lia. lia.
    + intros v rest. rewrite encode_app, <- app_assoc, Hparse, encode_cons. simpl app.
      rewrite parseOctalFrom_digit by exact Hmod. f_equal. lia.
Qed.

Lemma toString8_spec n :
  (0 ≤ n)%Z →
  1 ≤ String.length (toString 8 n)
  ∧ (n < 8 ^ Z.of_nat (String.length (toString 8 n)))%Z
  ∧ (String.length (toString 8 n) = 1
     ∨ (8 ^ (Z.of_nat (String.length (toString 8 n)) - 1) ≤ n)%Z)
  ∧ ∀ v rest, parseOctalFrom v (encode (toString 8 n) ++ rest)
              = parseOctalFrom (v * 8 ^ Z.of_nat (String.length (toString 8 n)) + n) rest.
Proof.
  intros Hn. unfold toString.
  destruct (Z.ltb_spec n 0); [lia|].
  destruct (digitsFrom_octal (S (Z.to_nat (Z.log2 n))) n EmptyString)
    as (ds & Heq & H1 & H2 & H3 & H4); [|lia|].
  { split; [lia|]. rewrite Nat2Z.inj_succ, Z2Nat.id by apply Z.log2_nonneg.
    destruct (Z.eq_dec n 0%Z) as [->|Hne]; [reflexivity|].
    apply Z.log2_spec. lia. }
  rewrite Heq, append_nil_r. auto.
Qed.

Lemma toString8_length_le n w :
  (0 ≤ n < 8 ^ Z.of_nat w)%Z → 1 ≤ w → String.length (toString 8 n) ≤ w.
Proof.
  intros Hn Hw. destruct (toString8_spec n) as (H1 & H2 & [H3|H3] & _); [lia|lia|].
  assert (Hlt : (8 ^ (Z.of_nat (String.length (toString 8 n)) - 1) < 8 ^ Z.of_nat w)%Z) by lia.
  apply Z.pow_lt_mono_r_iff in Hlt; lia.
Qed.

Lemma parseOctalFrom_zeros m v rest :
  parseOctalFrom v (replicate m 48%Z ++ rest) = parseOctalFrom (v * 8 ^ Z.of_nat m) rest.
Proof.
  revert v. induction m as [|m IH]; intros v.
  - simpl. f_equal. lia.
  - rewrite Nat2Z.inj_succ, Z.pow_succ_r by lia.
    change (replicate (S m) 48%Z ++ rest) with (48%Z :: (replicate m 48%Z ++ rest)).
    simpl. rewrite IH. f_equal. lia.
Qed.

Lemma parseOctal_padStart w n tail :
  (0 ≤ n)%Z →
  parseOctal (encode (padStart w "0" (toString 8 n)) ++ 0%Z :: tail) = Some n.
Proof.
  intros Hn. unfold parseOctal, padStart.
  rewrite encode_app, encode_repeatChar, <- app_assoc.
  change (Z.of_N (N_of_ascii "0")) with 48%Z.
  rewrite parseOctalFrom_zeros.
  destruct (toString8_spec n Hn) as (_ & _ & _ & Hparse).
  rewrite Hparse. simpl. f_equal.
Qed.

Lemma length_padStart w c s :
  String.length (padStart w c s) = Nat.max w (String.length s).
Proof. unfold padStart. rewrite length_append, length_repeatChar. lia. Qed.

Lemma length_padStart8 w n :
  (0 ≤ n < 8 ^ Z.of_nat w)%Z → 1 ≤ w →
  String.length (padStart w "0" (toString 8 n)) = w.
Proof.
  intros Hn Hw. rewrite length_padStart.
  pose proof (toString8_length_le n w Hn Hw). lia.
Qed.

End OctalFacts.

Section SumFacts.
Import JS TarReader.

Lemma fold_left_add_shift (l : list Z) (a : Z) :
  fold_left Z.add l a = (a + fold_left Z.add l 0)%Z.
Proof.
  revert a. induction l as [|x l IH]; intros a; cbn [fold_left]; [lia|].
  rewrite (IH (a + x)%Z), (IH (0 + x)%Z). lia.
Qed.

Lemma sumBytes_cons x l : sumBytes (x :: l) = (x + sumBytes l)%Z.
Proof. unfold sumBytes. cbn [fold_left]. rewrite fold_left_add_shift. lia. Qed.

Lemma sumBytes_app l k : sumBytes (l ++ k) = (sumBytes l + sumBytes k)%Z.
Proof.
  induction l as [|x l IH]; [reflexivity|].
  rewrite <- app_comm_cons, !sumBytes_cons, IH. lia.
Qed.

Lemma sumBytes_bound l :
  Forall isByte l → (0 ≤ sumBytes l ≤ 255 * Z.of_nat (length l))%Z.
Proof.
  induction 1 as [|x l Hx Hl IH]; [unfold sumBytes; simpl; lia|].
  rewrite sumBytes_cons. unfold isByte in Hx. simpl length. lia.
Qed.

End SumFacts.

(** ** The header written by [createTarHeader] *)

Section HeaderFacts.
Import JS Tar TarReader.

Variables (fileName : string) (fileSize now : Z).
Hypothesis size_range : (0 ≤ fileSize < 2 ^ 53)%Z.
Hypothesis now_range : (0 ≤ now < 2 ^ 53)%Z.

Let sizeOctal := padStart 11 "0" (toString 8 fileSize) +:+ NUL.
Let mtime := padStart 11 "0" (toString 8 (now / 1000)) +:+ NUL.

Lemma length_octal_field n :
  (0 ≤ n < 2 ^ 53)%Z →
  12 ≤ String.length (padStart 11 "0" (toString 8 n) +:+ NUL) ≤ 19.
Proof.
  intros Hn. rewrite length_append, length_padStart.
  assert (String.length (toString 8 n) ≤ 18).
  { apply toString8_length_le; [|lia]. change (8 ^ Z.of_nat 18)%Z with (2 ^ 54)%Z. lia. }
  simpl String.length. lia.
Qed.

Lemma length_sizeOctal : 12 ≤ length (encode sizeOctal) ≤ 19.
Proof. rewrite encode_length. apply length_octal_field. exact size_range. Qed.

Lemma length_mtime : 12 ≤ length (encode mtime) ≤ 19.
Proof.
  rewrite encode_length. apply length_octal_field.
  split; [apply Z.div_pos; lia|].
  apply Z.div_lt_upper_bound; lia.
Qed.

Lemma length_nameField : length (take 100 (encode fileName)) ≤ 100.
Proof. rewrite length_take. lia. Qed.

Let h0 := replicate 512 0%Z.
Let h1 := splice (take 100 (encode fileName)) 0 h0.
Let h2 := splice (encode ("0000644" +:+ NUL)) 100 h1.
Let h3 := splice (encode ("0001000" +:+ NUL)) 108 h2.
Let h4 := splice (encode ("0001000" +:+ NUL)) 116 h3.
Let h5 := splice (encode sizeOctal) 124 h4.
Let h6 := splice (encode mtime) 136 h5.
Let h7 := splice (encode "        ") 148 h6.
Let h8 := <[156 := 48%Z]> h7.
Let h9 := splice (encode ("ustar" +:+ NUL)) 257 h8.
Let h10 := splice (encode "00") 263 h9.

Lemma length_h0 : length h0 = 512.
Proof. apply length_replicate. Qed.

Lemma length_h1 : length h1 = 512.
Proof.
  unfold h1. rewrite length_splice; [apply length_h0|].
  rewrite length_h0. pose proof length_nameField. lia.
Qed.

Lemma length_h2 : length h2 = 512.
Proof. unfold h2. rewrite length_splice; rewrite length_h1; [reflexivity | simpl; lia]. Qed.

Lemma length_h3 : length h3 = 512.
Proof. unfold h3. rewrite length_splice; rewrite length_h2; [reflexivity | simpl; lia]. Qed.

Lemma length_h4 : length h4 = 512.
Proof. unfold h4. rewrite length_splice; rewrite length_h3; [reflexivity | simpl; lia]. Qed.

Lemma length_h5 : length h5 = 512.
Proof.
  unfold h5. pose proof length_sizeOctal.
  rewrite length_splice; rewrite length_h4; [reflexivity | fold sizeOctal; lia].
Qed.

Lemma length_h6 : length h6 = 512.
Proof.
  unfold h6. pose proof length_mtime.
  rewrite length_splice; rewrite length_h5; [reflexivity | fold mtime; lia].
Qed.

Lemma length_h7 : length h7 = 512.
Proof. unfold h7. rewrite length_splice; rewrite length_h6; [reflexivity | simpl; lia]. Qed.

Lemma length_h8 : length h8 = 512.
Proof. unfold h8. rewrite length_insert. apply length_h7. Qed.

Lemma length_h9 : length h9 = 512.
Proof. unfold h9. rewrite length_splice; rewrite length_h8; [reflexivity | simpl; lia]. Qed.

Lemma length_h10 : length h10 = 512.
Proof. unfold h10. rewrite length_splice; rewrite length_h9; [reflexivity | simpl; lia]. Qed.

Lemma headerBeforeChecksum_h10 : headerBeforeChecksum fileName fileSize now = h10.
Proof. reflexivity. Qed.

Lemma isByte_h10 : Forall isByte h10.
Proof.
  unfold h10, h9, h8, h7, h6, h5, h4, h3, h2, h1, h0.
  repeat first
    [ apply splice_isByte
    | apply encode_isByte
    | apply Forall_insert
    | apply Forall_take
    | apply Forall_replicate ]; unfold isByte; lia.
Qed.

Let checksumOctal := padStart 6 "0" (toString 8 (sumBytes h10)) +:+ NUL +:+ " ".

Lemma sumBytes_h10 : (0 ≤ sumBytes h10 < 8 ^ 6)%Z.
Proof.
  pose proof (sumBytes_bound h10 isByte_h10) as H.
  rewrite length_h10 in H. lia.
Qed.

Lemma length_checksumOctal : length (encode checksumOctal) = 8.
Proof.
  rewrite encode_length. unfold checksumOctal.
  rewrite !length_append, (length_padStart8 6) by (try apply sumBytes_h10; lia).
  reflexivity.
Qed.

(** Under the ranges of a typed-array length and of the clock no [set]
    throws, and the header returned is the summed header with the
    checksum text written over the eight spaces. *)
Lemma createTarHeader_splice :
  createTarHeader fileName fileSize now = Some (splice (encode checksumOctal) 148 h10).
Proof.
  unfold createTarHeader.
  rewrite (set_splice (take 100 (encode fileName)) 0) by
    (rewrite length_replicate; pose proof length_nameField; lia).
  cbn [mbind option_bind]. fold h0 h1.
  rewrite (set_splice _ 100 h1) by (rewrite length_h1; simpl; lia).
  cbn [mbind option_bind]. fold h2.
  rewrite (set_splice _ 108 h2) by (rewrite length_h2; simpl; lia).
  cbn [mbind option_bind]. fold h3.
  rewrite (set_splice _ 116 h3) by (rewrite length_h3; simpl; lia).
  cbn [mbind option_bind]. fold h4. fold sizeOctal.
  rewrite (set_splice _ 124 h4) by (rewrite length_h4; pose proof length_sizeOctal; lia).
  cbn [mbind option_bind]. fold h5. fold mtime.
  rewrite (set_splice _ 136 h5) by (rewrite length_h5; pose proof length_mtime; lia).
  cbn [mbind option_bind]. fold h6.
  rewrite (set_splice _ 148 h6) by (rewrite length_h6; simpl; lia).
  cbn [mbind option_bind]. fold h7. fold h8.
  rewrite (set_splice _ 257 h8) by (rewrite length_h8; simpl; lia).
  cbn [mbind option_bind]. fold h9.
  rewrite (set_splice _ 263 h9) by (rewrite length_h9; simpl; lia).
  cbn [mbind option_bind]. fold h10.
  rewrite (take_ge h10) by (rewrite length_h10; lia).
  change (fold_left Z.add h10 0%Z) with (sumBytes h10). fold checksumOctal.
  apply set_splice. rewrite length_h10, length_checksumOctal. lia.
Qed.

Ltac lens :=
  rewrite ?length_h0, ?length_h1, ?length_h2, ?length_h3, ?length_h4, ?length_h5,
    ?length_h6, ?length_h7, ?length_h8, ?length_h9, ?length_h10, ?length_checksumOctal.

Ltac side :=
  pose proof length_sizeOctal; pose proof length_mtime; pose proof length_nameField;
  lens;
  change (length (encode ("0000644" +:+ NUL))) with 8;
  change (length (encode ("0001000" +:+ NUL))) with 8;
  change (length (encode "        ")) with 8;
  change (length (encode ("ustar" +:+ NUL))) with 6;
  change (length (encode "00")) with 2;
  lia.

Let header := splice (encode checksumOctal) 148 h10.

Lemma length_header : length header = 512.
Proof. unfold header. rewrite length_splice; side. Qed.

Lemma header_nameField :
  slice 0 100 header
  = take 100 (encode fileName) ++ replicate (100 - length (encode fileName)) 0%Z.
Proof.
  unfold header. rewrite slice_splice_before by side.
  unfold h10. rewrite slice_splice_before by side.
  unfold h9. rewrite slice_splice_before by side.
  unfold h8. rewrite slice_insert_other by lia.
  unfold h7. rewrite slice_splice_before by side.
  unfold h6. rewrite slice_splice_before by side.
  unfold h5. rewrite slice_splice_before by side.
  unfold h4. rewrite slice_splice_before by side.
  unfold h3. rewrite slice_splice_before by side.
  unfold h2. rewrite slice_splice_before by side.
  unfold h1, slice, splice, h0. rewrite drop_0, take_0, app_nil_l.
  rewrite take_app, take_take, drop_replicate, take_replicate.
  rewrite length_take. f_equal. f_equal. lia.
Qed.

Lemma header_prefixField : slice 345 155 header = replicate 155 0%Z.
Proof.
  unfold header. rewrite slice_splice_after by side.
  unfold h10. rewrite slice_splice_after by side.
  unfold h9. rewrite slice_splice_after by side.
  unfold h8. rewrite slice_insert_other by lia.
  unfold h7. rewrite slice_splice_after by side.
  unfold h6. rewrite slice_splice_after by side.
  unfold h5. rewrite slice_splice_after by side.
  unfold h4. rewrite slice_splice_after by side.
  unfold h3. rewrite slice_splice_after by side.
  unfold h2. rewrite slice_splice_after by side.
  unfold h1. rewrite slice_splice_after by side.
  reflexivity.
Qed.

Lemma header_checksumField : slice 148 8 header = encode checksumOctal.
Proof.
  pose proof (slice_splice_at (encode checksumOctal) 148 h10) as H.
  rewrite length_checksumOctal in H. apply H. side.
Qed.

Lemma h10_spaces : slice 148 8 h10 = replicate 8 32%Z.
Proof.
  unfold h10. rewrite slice_splice_before by side.
  unfold h9. rewrite slice_splice_before by side.
  unfold h8. rewrite slice_insert_other by lia.
  unfold h7. apply (slice_splice_at (encode "        ") 148 h6). side.
Qed.

(** Reading the checksum field of the returned header as spaces gives back
    the header the sum was taken over. *)
Lemma spaceFilled_header : spaceFilled header = h10.
Proof.
  unfold spaceFilled, header.
  rewrite take_splice_before by side.
  rewrite drop_splice_after by side.
  rewrite <- h10_spaces. unfold slice.
  change 156 with (148 + 8). rewrite <- drop_drop, take_drop.
  apply take_drop.
Qed.

Lemma header_typeflag : header !! 156 = Some 48%Z.
Proof.
  unfold header. rewrite lookup_splice_outside by side.
  unfold h10. rewrite lookup_splice_outside by side.
  unfold h9. rewrite lookup_splice_outside by side.
  unfold h8. apply list_lookup_insert_eq. lens. lia.
Qed.

Lemma header_mode0 : header !! 100 = Some 48%Z.
Proof.
  unfold header. rewrite lookup_splice_outside by side.
  unfold h10. rewrite lookup_splice_outside by side.
  unfold h9. rewrite lookup_splice_outside by side.
  unfold h8. rewrite list_lookup_insert_ne by lia.
  unfold h7. rewrite lookup_splice_outside by side.
  unfold h6. rewrite lookup_splice_outside by side.
  unfold h5. rewrite lookup_splice_outside by side.
  unfold h4. rewrite lookup_splice_outside by side.
  unfold h3. rewrite lookup_splice_outside by side.
  unfold h2. rewrite lookup_splice_inside by side.
  reflexivity.
Qed.

(** The size field is whole when the size has at most eleven octal digits:
    the modification time is written right after it. *)
Lemma header_sizeField :
  (fileSize < 8 ^ 11)%Z → slice 124 12 header = encode sizeOctal.
Proof.
  intros Hs.
  assert (Hlen : length (encode sizeOctal) = 12).
  { rewrite encode_length. unfold sizeOctal.
    rewrite length_append, (length_padStart8 11) by lia. reflexivity. }
  unfold header. rewrite slice_splice_before by side.
  unfold h10. rewrite slice_splice_before by side.
  unfold h9. rewrite slice_splice_before by side.
  unfold h8. rewrite slice_insert_other by lia.
  unfold h7. rewrite slice_splice_before by side.
  unfold h6. rewrite slice_splice_before by side.
  unfold h5. pose proof (slice_splice_at (encode sizeOctal) 124 h4) as H.
  rewrite Hlen in H. apply H. side.
Qed.

Lemma createTarHeader_spec :
  ∃ hdr, createTarHeader fileName fileSize now = Some hdr
    ∧ length hdr = 512
    ∧ spaceFilled hdr = headerBeforeChecksum fileName fileSize now
    ∧ Forall isByte (spaceFilled hdr)
    ∧ slice 0 100 hdr
      = take 100 (encode fileName) ++ replicate (100 - length (encode fileName)) 0%Z
    ∧ slice 345 155 hdr = replicate 155 0%Z
    ∧ slice 148 8 hdr = checksumText (sumBytes (spaceFilled hdr))
    ∧ hdr !! 156 = Some 48%Z
    ∧ hdr !! 100 = Some 48%Z
    ∧ ((fileSize < 8 ^ 11)%Z →
       slice 124 12 hdr = encode (padStart 11 "0" (toString 8 fileSize) +:+ NUL)).
Proof.
  exists header. rewrite spaceFilled_header.
  split; [exact createTarHeader_splice|].
  split; [exact length_header|].
  split; [reflexivity|].
  split; [exact isByte_h10|].
  split; [exact header_nameField|].
  split; [exact header_prefixField|].
  split; [exact header_checksumField|].
  split; [exact header_typeflag|].
  split; [exact header_mode0|].
  exact header_sizeField.
Qed.

(** The fields that never change and the modification time. *)
Lemma header_modeField : slice 100 8 header = encode ("0000644" +:+ NUL).
Proof.
  unfold header. rewrite slice_splice_before by side.
  unfold h10. rewrite slice_splice_before by side.
  unfold h9. rewrite slice_splice_before by side.
  unfold h8. rewrite slice_insert_other by lia.
  unfold h7. rewrite slice_splice_before by side.
  unfold h6. rewrite slice_splice_before by side.
  unfold h5. rewrite slice_splice_before by side.
  unfold h4. rewrite slice_splice_before by side.
  unfold h3. rewrite slice_splice_before by side.
  unfold h2. apply (slice_splice_at (encode ("0000644" +:+ NUL)) 100 h1). side.
Qed.

Lemma header_uidField : slice 108 8 header = encode ("0001000" +:+ NUL).
Proof.
  unfold header. rewrite slice_splice_before by side.
  unfold h10. rewrite slice_splice_before by side.
  unfold h9. rewrite slice_splice_before by side.
  unfold h8. rewrite slice_insert_other by lia.
  unfold h7. rewrite slice_splice_before by side.
  unfold h6. rewrite slice_splice_before by side.
  unfold h5. rewrite slice_splice_before by side.
  unfold h4. rewrite slice_splice_before by side.
  unfold h3. apply (slice_splice_at (encode ("0001000" +:+ NUL)) 108 h2). side.
Qed.

Lemma header_gidField : slice 116 8 header = encode ("0001000" +:+ NUL).
Proof.
  unfold header. rewrite slice_splice_before by side.
  unfold h10. rewrite slice_splice_before by side.
  unfold h9. rewrite slice_splice_before by side.
  unfold h8. rewrite slice_insert_other by lia.
  unfold h7. rewrite slice_splice_before by side.
  unfold h6. rewrite slice_splice_before by side.
  unfold h5. rewrite slice_splice_before by side.
  unfold h4. apply (slice_splice_at (encode ("0001000" +:+ NUL)) 116 h3). side.
Qed.

(** The modification time is whole when it has at most eleven octal
    digits: the checksum field is written right after it. *)
Lemma header_mtimeField :
  (now / 1000 < 8 ^ 11)%Z → slice 136 12 header = encode mtime.
Proof.
  intros Hm.
  assert (Hq : (0 ≤ now / 1000)%Z) by (apply Z.div_pos; lia).
  assert (Hlen : length (encode mtime) = 12).
  { rewrite encode_length. unfold mtime.
    rewrite length_append, (length_padStart8 11) by lia. reflexivity. }
  unfold header. rewrite slice_splice_before by side.
  unfold h10. rewrite slice_splice_before by side.
  unfold h9. rewrite slice_splice_before by side.
  unfold h8. rewrite slice_insert_other by lia.
  unfold h7. rewrite slice_splice_before by side.
  unfold h6. pose proof (slice_splice_at (encode mtime) 136 h5) as H.
  rewrite Hlen in H. apply H. side.
Qed.

Lemma header_magicField : slice 257 6 header = encode ("ustar" +:+ NUL).
Proof.
  unfold header. rewrite slice_splice_after by side.
  unfold h10. rewrite slice_splice_before by side.
  unfold h9. apply (slice_splice_at (encode ("ustar" +:+ NUL)) 257 h8). side.
Qed.

Lemma header_versionField : slice 263 2 header = encode "00".
Proof.
  unfold header. rewrite slice_splice_after by side.
  unfold h10. apply (slice_splice_at (encode "00") 263 h9). side.
Qed.

Lemma createTarHeader_fields :
  ∃ hdr, createTarHeader fileName fileSize now = Some hdr
    ∧ slice 100 8 hdr = encode ("0000644" +:+ NUL)
    ∧ slice 108 8 hdr = encode ("0001000" +:+ NUL)
    ∧ slice 116 8 hdr = encode ("0001000" +:+ NUL)
    ∧ ((fileSize < 8 ^ 11)%Z →
       slice 124 12 hdr = encode (padStart 11 "0" (toString 8 fileSize) +:+ NUL))
    ∧ ((now / 1000 < 8 ^ 11)%Z →
       slice 136 12 hdr = encode (padStart 11 "0" (toString 8 (now / 1000)) +:+ NUL))
    ∧ hdr !! 156 = Some 48%Z
    ∧ slice 257 6 hdr = encode ("ustar" +:+ NUL)
    ∧ slice 263 2 hdr = encode "00".
Proof.
  exists header.
  split; [exact createTarHeader_splice|].
  split; [exact header_modeField|].
  split; [exact header_uidField|].
  split; [exact header_gidField|].
  split; [exact header_sizeField|].
  split; [exact header_mtimeField|].
  split; [exact header_typeflag|].
  split; [exact header_magicField | exact header_versionField].
Qed.

End HeaderFacts.

(** ** The archive built by [handlePackage] *)

Section ArchiveFacts.
Import JS Tar TarReader.

Lemma paddingTo512_spec n :
  paddingTo512 n < 512 ∧ (n + paddingTo512 n) mod 512 = 0.
Proof.
  unfold paddingTo512.
  pose proof (Nat.mod_upper_bound n 512 ltac:(lia)) as Hm.
  pose proof (Nat.div_mod_eq n 512) as Hd.
  destruct (decide (n mod 512 = 0)) as [H0|H0].
  - rewrite H0. change ((512 - 0) mod 512) with 0. split; [lia|].
    now rewrite Nat.add_0_r.
  - rewrite (Nat.mod_small (512 - n mod 512)) by lia. split; [lia|].
    replace (n + (512 - n mod 512)) with ((n / 512 + 1) * 512) by lia.
    apply Nat.Div0.mod_mul.
Qed.

(** The padding pushed by the loop is the padding to the next block. *)
Lemma loop_padding n :
  concat (if decide (512 - n mod 512 < 512) then [replicate (512 - n mod 512) 0%Z] else [])
  = replicate (paddingTo512 n) 0%Z.
Proof.
  unfold paddingTo512.
  pose proof (Nat.mod_upper_bound n 512 ltac:(lia)) as Hm.
  destruct (decide (512 - n mod 512 < 512)) as [H|H].
  - rewrite (Nat.mod_small (512 - n mod 512)) by lia. simpl. now rewrite app_nil_r.
  - replace (512 - n mod 512) with 512 by lia. reflexivity.
Qed.

Variable clock : nat → Z.
Hypothesis clock_range : ∀ i, (0 ≤ clock i < 2 ^ 53)%Z.

Lemma packEntries_layout files : ∀ i,
  sizesInRange files →
  ∃ entries, packEntries clock i files = Some entries
    ∧ archiveLayout clock i files (concat entries)
    ∧ length files ≤ length (concat entries).
Proof.
  induction files as [|[filePath content] rest IH]; intros i Hs.
  - exists []. split; [reflexivity|]. split; [constructor | simpl; lia].
  - inversion Hs as [|? ? Hc Hrest]; subst.
    destruct (createTarHeader_spec filePath (Z.of_nat (length (encode content))) (clock i))
      as (hdr & Hhdr & Hlen & _); [lia | apply clock_range |].
    destruct (IH (S i) Hrest) as (more & Hmore & Hlay & Hn).
    pose proof (paddingTo512_spec (length (encode content))) as [Hp1 Hp2].
    eexists. split.
    + cbn [packEntries]. rewrite Hhdr. cbn [mbind option_bind]. rewrite Hmore.
      cbn [mbind option_bind]. reflexivity.
    + rewrite concat_app. cbn [app concat]. rewrite concat_app, loop_padding.
      split.
      * rewrite <- !app_assoc. now apply layout_entry.
      * rewrite !length_app, Hlen. simpl length. lia.
Qed.

Lemma untilNul_app_zeros l k : 0%Z ∉ l → untilNul (l ++ replicate k 0%Z) = l.
Proof.
  induction l as [|b l IH]; intros Hl.
  - destruct k; reflexivity.
  - rewrite not_elem_of_cons in Hl. destruct Hl as [Hb Hl].
    cbn [app untilNul]. destruct (Z.eqb_spec b 0); [congruence|].
    now rewrite IH.
Qed.

Lemma isZeroBlock_false blk i b : blk !! i = Some b → b ≠ 0%Z → isZeroBlock blk = false.
Proof.
  intros Hi Hb. unfold isZeroBlock. apply andb_false_iff. right.
  apply not_true_is_false. intros Hall. rewrite forallb_forall in Hall.
  apply list_elem_of_lookup_2, list_elem_of_In, Hall, Z.eqb_eq in Hi. congruence.
Qed.

Lemma parseOctal_checksumText sum : (0 ≤ sum)%Z → parseOctal (checksumText sum) = Some sum.
Proof.
  intros Hs. unfold checksumText. rewrite !encode_app.
  change (encode NUL ++ encode " ") with (0%Z :: [32%Z]).
  now apply parseOctal_padStart.
Qed.

(** The reader on one entry written by the archiver. *)
Lemma untarFrom_entry fuel filePath content i pad rest hdr :
  createTarHeader filePath (Z.of_nat (length (encode content))) (clock i) = Some hdr →
  length (encode filePath) ≤ 100 →
  0%Z ∉ encode filePath →
  plainPath (encode filePath) = true →
  (Z.of_nat (length (encode content)) < 8 ^ 11)%Z →
  pad = paddingTo512 (length (encode content)) →
  untarFrom (S fuel) (hdr ++ encode content ++ replicate pad 0%Z ++ rest)
  = (more ← untarFrom fuel rest; Some ((encode filePath, encode content) :: more)).
Proof.
  intros Hhdr Hname Hnul Hplain Hsize ->.
  destruct (createTarHeader_spec filePath (Z.of_nat (length (encode content))) (clock i))
    as (hdr' & Hhdr' & Hlen & Hpre & Hbytes & Hnm & Hpfx & Hchk & Htf & Hmode & Hsz);
    [lia | apply clock_range |].
  rewrite Hhdr in Hhdr'. injection Hhdr' as <-.
  cbn [untarFrom].
  rewrite (take_app_length' hdr) by (now rewrite Hlen).
  rewrite decide_False by lia.
  rewrite (isZeroBlock_false hdr 100 48%Z) by (exact Hmode || lia).
  rewrite (Hsz Hsize), encode_app.
  change (encode NUL) with [0%Z].
  rewrite parseOctal_padStart by lia. cbn [mbind option_bind].
  rewrite Hchk, parseOctal_checksumText by (apply sumBytes_bound, Hbytes).
  cbn [mbind option_bind].
  rewrite decide_False by (intros H; now apply H).
  rewrite decide_False by (intros H; now apply H).
  assert (Hpath : entryPath hdr = encode filePath).
  { unfold entryPath. rewrite Hpfx, Hnm.
    change (untilNul (replicate 155 0%Z)) with (@nil Z).
    rewrite take_ge by lia. now apply untilNul_app_zeros. }
  rewrite Hpath, Hplain. cbn [negb].
  rewrite Nat2Z.id.
  assert (Hdata : slice 512 (length (encode content))
                    (hdr ++ encode content ++ replicate (paddingTo512 (length (encode content))) 0%Z ++ rest)
                  = encode content).
  { unfold slice. rewrite drop_app_length' by (now rewrite Hlen). apply take_app_length. }
  rewrite Hdata.
  rewrite decide_False by lia.
  assert (Hrest : drop (512 + length (encode content) + paddingTo512 (length (encode content)))
                    (hdr ++ encode content ++ replicate (paddingTo512 (length (encode content))) 0%Z ++ rest)
                  = rest).
  { rewrite <- !drop_drop.
    rewrite drop_app_length' by (now rewrite Hlen).
    rewrite drop_app_length.
    apply drop_app_length'. now rewrite length_replicate. }
  now rewrite Hrest.
Qed.

Lemma untarFrom_end fuel : untarFrom (S fuel) (replicate 1024 0%Z) = Some [].
Proof. reflexivity. Qed.

Lemma untarFrom_archive files : ∀ i fuel body,
  Forall (λ '(filePath, content),
            length (encode filePath) ≤ 100
            ∧ (0%Z ∉ encode filePath)
            ∧ plainPath (encode filePath) = true
            ∧ (Z.of_nat (length (encode content)) < 8 ^ 11)%Z) files →
  archiveLayout clock i files body →
  length files < fuel →
  untarFrom fuel (body ++ replicate 1024 0%Z) = Some (expectedEntries files).
Proof.
  induction files as [|[filePath content] rest IH]; intros i fuel body Hr Hlay Hfuel;
    inversion Hlay; subst.
  - destruct fuel; [simpl in Hfuel; lia|]. apply untarFrom_end.
  - destruct fuel as [|fuel]; [lia|].
    apply Forall_cons in Hr as [(Hname & Hnul & Hplain & Hsize) Hrest].
    rewrite <- !app_assoc.
    erewrite untarFrom_entry; try eassumption.
    + erewrite IH; [reflexivity | exact Hrest | eassumption | simpl in Hfuel; lia].
    + pose proof (paddingTo512_spec (length (encode content))) as [Hp1 Hp2].
      match goal with
      | H1 : ?pad < 512, H2 : (_ + ?pad) mod 512 = 0 |- ?pad = _ =>
          pose proof (Nat.div_mod_eq (length (encode content) + pad) 512);
          pose proof (Nat.div_mod_eq (length (encode content) + paddingTo512 (length (encode content))) 512);
          nia
      end.
Qed.

End ArchiveFacts.

(** ** The archiver: claims C3, C4 and C10 *)

Section ArchiveClaims.
Import JS Tar TarReader.

Lemma length_untilNul l : length (untilNul l) ≤ length l.
Proof.
  induction l as [|b l IH]; [reflexivity|].
  cbn [untilNul]. destruct (b =? 0)%Z; simpl; lia.
Qed.

(** C3, as amended.  For every file set (contents of a length a typed array
    can have, clock in the range of [Date.now()]) [handlePackage] builds the
    buffer made of, for each entry in the order of [Object.entries], one
    512-byte header, the UTF-8 content and zero bytes up to the next
    multiple of 512 (none when the length is a multiple of 512), followed by
    1024 zero bytes; and the reader, strict as it is, gets back
    byte-identical contents and paths whenever the paths are those of the
    files of one directory tree (relative, with plain components, none the
    same as another or a directory of another), each of at most 100 bytes
    without a NUL, and every content is shorter than [8 ^ 11] bytes. *)
Theorem tarBuffer_layout_roundtrip (clock : nat → Z) (files : list (string * string)) :
  (∀ i, (0 ≤ clock i < 2 ^ 53)%Z) →
  sizesInRange files →
  ∃ body, tarBuffer clock files = Some (body ++ replicate 1024 0%Z)
    ∧ archiveLayout clock 0 files body
    ∧ (readable files →
       untar (body ++ replicate 1024 0%Z) = Some (expectedEntries files)).
Proof.
  intros Hclock Hsizes.
  destruct (packEntries_layout clock Hclock files 0 Hsizes) as (entries & Hpack & Hlay & Hlen).
  exists (concat entries). split; [|split; [exact Hlay|]].
  - unfold tarBuffer. rewrite Hpack. cbn [mbind option_bind].
    rewrite concat_app. cbn [concat]. now rewrite app_nil_r.
  - intros [Hread Hclash]. unfold untar.
    rewrite (untarFrom_archive clock Hclock files 0 _ (concat entries) Hread Hlay)
      by (rewrite length_app; lia).
    cbn [mbind option_bind]. unfold expectedEntries.
    rewrite <- list_fmap_compose.
    erewrite list_fmap_ext; [rewrite Hclash; reflexivity|].
    intros _ [filePath content] _. reflexivity.
Qed.

(** The padding of the three boundary sizes. *)
Lemma paddingTo512_boundaries :
  paddingTo512 0 = 0 ∧ paddingTo512 512 = 0 ∧ paddingTo512 513 = 511.
Proof. repeat split. Qed.

(** C4, as amended.  For every file name and size the checksum is computed
    in one pass over the finished header: the 8-byte checksum field is
    filled with spaces, all 512 bytes are summed, and the sum is written
    into the field as six octal digits, a NUL and a space; nothing else is
    written after the sum is taken. *)
Theorem createTarHeader_checksum_space_filled (fileName : string) (fileSize now : Z) :
  (0 ≤ fileSize < 2 ^ 53)%Z →
  (0 ≤ now < 2 ^ 53)%Z →
  ∃ hdr, createTarHeader fileName fileSize now = Some hdr
    ∧ length hdr = 512
    ∧ spaceFilled hdr = headerBeforeChecksum fileName fileSize now
    ∧ slice 148 8 hdr = checksumText (sumBytes (spaceFilled hdr))
    ∧ parseOctal (slice 148 8 hdr) = Some (sumBytes (spaceFilled hdr)).
Proof.
  intros Hsize Hnow.
  destruct (createTarHeader_spec fileName fileSize now Hsize Hnow)
    as (hdr & Hhdr & Hlen & Hpre & Hbytes & _ & _ & Hchk & _).
  exists hdr. repeat (split; [assumption|]).
  rewrite Hchk. apply parseOctal_checksumText, sumBytes_bound, Hbytes.
Qed.

(** C10.  Whatever the size, the header keeps the first 100 bytes of the
    encoded name and leaves the ustar prefix field empty: a name longer
    than 100 bytes is cut, so the recorded path is not the original path,
    and a name of at most 100 bytes is stored in full, NUL-padded. *)
Theorem createTarHeader_name_truncated (fileName : string) (fileSize now : Z) :
  (0 ≤ fileSize < 2 ^ 53)%Z →
  (0 ≤ now < 2 ^ 53)%Z →
  ∃ hdr, createTarHeader fileName fileSize now = Some hdr
    ∧ slice 345 155 hdr = replicate 155 0%Z
    ∧ (100 < length (encode fileName) →
       slice 0 100 hdr = take 100 (encode fileName)
       ∧ entryPath hdr ≠ encode fileName)
    ∧ (length (encode fileName) ≤ 100 →
       slice 0 100 hdr
       = encode fileName ++ replicate (100 - length (encode fileName)) 0%Z).
Proof.
  intros Hsize Hnow.
  destruct (createTarHeader_spec fileName fileSize now Hsize Hnow)
    as (hdr & Hhdr & Hlen & _ & _ & Hnm & Hpfx & _).
  exists hdr. split; [exact Hhdr|]. split; [exact Hpfx|]. split.
  - intros Hlong. split.
    + rewrite Hnm. replace (100 - length (encode fileName)) with 0 by lia.
      apply app_nil_r.
    + intros Heq. apply (f_equal length) in Heq.
      unfold entryPath in Heq. rewrite Hpfx in Heq.
      change (untilNul (replicate 155 0%Z)) with (@nil Z) in Heq.
      pose proof (length_untilNul (slice 0 100 hdr)) as Hle.
      unfold slice in Hle at 2. rewrite length_take in Hle. lia.
  - intros Hshort. rewrite Hnm. now rewrite take_ge by lia.
Qed.

End ArchiveClaims.

Section ArchiveExamples.
Import JS Tar TarReader.

Lemma tarBuffer_layout_roundtrip_witness :
  ∃ body,
    tarBuffer (λ _, 1730000000000%Z)
      [("src/a.txt", "hello"); ("empty", ""); ("full", repeatChar 512 "x"); ("over", repeatChar 513 "y")]
    = Some (body ++ replicate 1024 0%Z)
    ∧ untar (body ++ replicate 1024 0%Z)
      = Some (expectedEntries
                [("src/a.txt", "hello"); ("empty", ""); ("full", repeatChar 512 "x"); ("over", repeatChar 513 "y")]).
Proof.
  destruct (tarBuffer_layout_roundtrip (λ _, 1730000000000%Z)
              [("src/a.txt", "hello"); ("empty", ""); ("full", repeatChar 512 "x"); ("over", repeatChar 513 "y")])
    as (body & Hbuf & _ & Hread).
  - intros _. lia.
  - repeat constructor; vm_compute; reflexivity.
  - exists body. split; [exact Hbuf|]. apply Hread.
    repeat constructor; try (vm_compute; lia); try (vm_compute; reflexivity);
      intros Hin; vm_compute in Hin; (repeat (apply elem_of_cons in Hin as [Hin|Hin]; [discriminate Hin|]));
      now apply elem_of_nil in Hin.
Defined.

(** C3 as stated fails on a path of 101 bytes: the reader gets the first
    100 bytes of the path back. *)
Lemma tarBuffer_long_path_not_recovered :
  ¬ ∃ buf, tarBuffer (λ _, 0%Z) [(repeatChar 101 "a", "x")] = Some buf
           ∧ untar buf = Some (expectedEntries [(repeatChar 101 "a", "x")]).
Proof.
  intros (buf & Hbuf & Hread).
  vm_compute in Hbuf. injection Hbuf as <-.
  apply (f_equal (λ r, match r with Some ((path, _) :: _) => length path | _ => 0 end)) in Hread.
  vm_compute in Hread. discriminate Hread.
Qed.

(** The reader is strict: a name that readers take for a directory, an
    empty name, a name that leaves the tree, and a file that is also a
    directory of another file are refused. *)
Lemma untar_strict :
  (∃ buf, tarBuffer (λ _, 0%Z) [("dir/", "x")] = Some buf ∧ untar buf = None)
  ∧ (∃ buf, tarBuffer (λ _, 0%Z) [("", "x")] = Some buf ∧ untar buf = None)
  ∧ (∃ buf, tarBuffer (λ _, 0%Z) [("../y", "x")] = Some buf ∧ untar buf = None)
  ∧ (∃ buf, tarBuffer (λ _, 0%Z) [("/etc/x", "x")] = Some buf ∧ untar buf = None)
  ∧ (∃ buf, tarBuffer (λ _, 0%Z) [("a", "x"); ("a/b", "y")] = Some buf ∧ untar buf = None).
Proof. repeat split; eexists; (split; [vm_compute; reflexivity | vm_compute; reflexivity]). Qed.

Lemma createTarHeader_checksum_space_filled_witness :
  ∃ hdr, createTarHeader "src/a.txt" 5 1730000000000 = Some hdr
    ∧ length hdr = 512
    ∧ spaceFilled hdr = headerBeforeChecksum "src/a.txt" 5 1730000000000
    ∧ slice 148 8 hdr = checksumText (sumBytes (spaceFilled hdr))
    ∧ parseOctal (slice 148 8 hdr) = Some (sumBytes (spaceFilled hdr)).
Proof. apply createTarHeader_checksum_space_filled; lia. Defined.

(** C4 as stated fails: the sum written is not the sum over the header with
    a zero-filled checksum field (it is 256 more). *)
Lemma createTarHeader_checksum_not_zero_filled :
  ¬ ∃ hdr, createTarHeader "src/a.txt" 5 1730000000000 = Some hdr
           ∧ slice 148 8 hdr = checksumText (sumBytes (zeroFilled hdr)).
Proof.
  intros (hdr & Hhdr & Hsum).
  vm_compute in Hhdr. injection Hhdr as <-.
  vm_compute in Hsum. discriminate Hsum.
Qed.

Lemma createTarHeader_name_truncated_witness :
  ∃ hdr, createTarHeader (repeatChar 101 "a") 5 1730000000000 = Some hdr
    ∧ slice 345 155 hdr = replicate 155 0%Z
    ∧ (100 < length (encode (repeatChar 101 "a")) →
       slice 0 100 hdr = take 100 (encode (repeatChar 101 "a"))
       ∧ entryPath hdr ≠ encode (repeatChar 101 "a"))
    ∧ (length (encode (repeatChar 101 "a")) ≤ 100 →
       slice 0 100 hdr
       = encode (repeatChar 101 "a") ++ replicate (100 - length (encode (repeatChar 101 "a"))) 0%Z).
Proof. apply createTarHeader_name_truncated; lia. Defined.

End ArchiveExamples.

(** ** The deployment stream: claims C1, C7 and C8 *)

Section StreamFacts.
Import JS Fly.

Variables (flyAppName flyRegion buildDir : string) (port : Z).

Lemma bind_inl {A B} (m : M A) (f : A → M B) t a :
  m = (t, inl a) → bind m f = (t ++ fst (f a), snd (f a)).
Proof. intros ->. unfold bind. now destruct (f a). Qed.

Lemma bind_inr {A B} (m : M A) (f : A → M B) t e :
  m = (t, inr e) → bind m f = (t, inr e).
Proof. now intros ->. Qed.

Lemma forEach_log {A} (l : list A) (g : A → string) (f : A → M unit) :
  (∀ a, f a = log (g a)) →
  forEach l f = ((λ a, Log (g a)) <$> l, inl tt).
Proof.
  intros Hf. induction l as [|a l IH]; [reflexivity|].
  cbn [forEach]. rewrite Hf, IH. reflexivity.
Qed.

Lemma collectOutput_spec output : ∀ acc,
  collectOutput acc output
  = ((λ c, Log (chunkText c)) <$> output, inl (acc +:+ outputText output)).
Proof.
  induction output as [|c output IH]; intros acc.
  - cbn. now rewrite append_nil_r.
  - cbn [collectOutput]. rewrite IH. cbn. now rewrite append_assoc.
Qed.

Lemma createAppStep_runs output fin :
  createAppStep flyAppName flyRegion port (Runs output fin)
  = (createHeader flyAppName flyRegion port
     ++ ((λ c, Log (createLog flyAppName c)) <$> output), inl tt).
Proof.
  unfold createAppStep.
  rewrite (forEach_log output (createLog flyAppName)).
  - reflexivity.
  - intros [data|msg]; [reflexivity|]. cbn [createLog].
    now destruct (includes msg "already exists").
Qed.

Lemma deployStep_runs output fin :
  deployStep flyAppName flyRegion (Runs output fin)
  = (deployHeader flyAppName flyRegion ++ ((λ c, Log (chunkText c)) <$> output),
     match fin with
     | Closed code =>
         if bool_decide (code = Some 0%Z) && actuallyDeployed (outputText output) then inl tt
         else if bool_decide (code = Some 0%Z) && negb (actuallyDeployed (outputText output)) then
           inr (ErrorObj "flyctl exited but deployment did not complete. Check the log above for details.")
         else inr (ErrorObj ("flyctl deploy exited with code " +:+ showCode code))
     | Failed err => inr err
     end).
Proof.
  unfold deployStep. rewrite collectOutput_spec.
  change (EmptyString +:+ outputText output) with (outputText output).
  destruct fin as [code|err]; cbn [bind log emit fst snd app];
    [|cbn [throw]; unfold deployHeader; now rewrite app_nil_r].
  destruct (bool_decide (code = Some 0%Z)); destruct (actuallyDeployed (outputText output));
    cbn [andb negb ret throw]; unfold deployHeader; now rewrite app_nil_r.
Qed.


Lemma createAppStep_throws err :
  createAppStep flyAppName flyRegion port (SpawnThrows err)
  = (createHeader flyAppName flyRegion port, inr err).
Proof. reflexivity. Qed.

Lemma reportStep_ok : snd (reportStep flyAppName) = inl tt.
Proof. reflexivity. Qed.

Lemma failureBlock_ok err : snd (failureBlock err) = inl tt.
Proof. reflexivity. Qed.

(** [start] in terms of the outcome of its steps. *)
Lemma cleanup_effects rmError : cleanup buildDir rmError = ([Rm buildDir; Close], inl tt).
Proof. now destruct rmError. Qed.

Lemma start_stepsTrace createApp deploy rmError :
  start flyAppName flyRegion buildDir port createApp deploy rmError
  = (stepsTrace flyAppName flyRegion port createApp deploy ++ [Rm buildDir; Close], inl tt).
Proof.
  unfold start, stepsTrace. rewrite cleanup_effects.
  destruct (createAppStep flyAppName flyRegion port createApp) as [t1 [[]|e1]] eqn:H1.
  - destruct (deployStep flyAppName flyRegion deploy) as [t2 [[]|e2]] eqn:H2.
    + cbn. now rewrite <- !app_assoc.
    + cbn. now rewrite <- !app_assoc.
  - cbn. now rewrite <- !app_assoc.
Qed.



(** C1.  When the deploy process closes with code 0 and its accumulated
    output holds none of the four success phrases, the stream logs the
    failure marker and the troubleshooting block right after the output of
    the process, then cleans up; the report of step 3 is not written. *)
Theorem zero_exit_without_phrase_is_failure (created : list chunk) (createEnd : ending)
    (output : list chunk) (rmError : option thrown) :
  includes (outputText output) "has been deployed" = false →
  includes (outputText output) "deployed successfully" = false →
  includes (outputText output) "Machines are starting" = false →
  includes (outputText output) "Visit your newly deployed app" = false →
  start flyAppName flyRegion buildDir port
    (Runs created createEnd) (Runs output (Closed (Some 0%Z))) rmError
  = (fst (createAppStep flyAppName flyRegion port (Runs created createEnd))
     ++ deployHeader flyAppName flyRegion
     ++ ((λ c, Log (chunkText c)) <$> output)
     ++ [Log (LF +:+ "✗ Deployment failed: flyctl exited but deployment did not complete. Check the log above for details." +:+ LF);
         Log (LF +:+ "Troubleshooting:" +:+ LF);
         Log ("  1. Run " +:+ DQ +:+ "flyctl auth login" +:+ DQ +:+ " to ensure you're authenticated" +:+ LF);
         Log ("  2. Run " +:+ DQ +:+ "flyctl apps list" +:+ DQ +:+ " to check your apps" +:+ LF);
         Log ("  3. Check your Dockerfile for build errors" +:+ LF)]
     ++ [Rm buildDir; Close], inl tt).
Proof.
  intros H1 H2 H3 H4.
  rewrite start_stepsTrace. unfold stepsTrace.
  rewrite createAppStep_runs, deployStep_runs.
  unfold actuallyDeployed. rewrite H1, H2, H3, H4.
  cbn [bool_decide decide_rel orb andb negb fst].
  rewrite bool_decide_eq_true_2 by reflexivity.
  cbn [orb andb negb fst]. now rewrite <- !app_assoc.
Qed.



End StreamFacts.

Section StreamExamples.
Import JS Fly.

Lemma zero_exit_without_phrase_is_failure_witness :
  start "app" "iad" "/tmp/bolt-fly-deploy-1" 3000
    (Runs [Stdout "created"] (Closed (Some 0%Z)))
    (Runs [Stdout "Usage: flyctl deploy "; Stderr "[flags]"] (Closed (Some 0%Z)))
    None
  = (fst (createAppStep "app" "iad" 3000 (Runs [Stdout "created"] (Closed (Some 0%Z))))
     ++ deployHeader "app" "iad"
     ++ [Log "Usage: flyctl deploy "; Log "[flags]"]
     ++ [Log (LF +:+ "✗ Deployment failed: flyctl exited but deployment did not complete. Check the log above for details." +:+ LF);
         Log (LF +:+ "Troubleshooting:" +:+ LF);
         Log ("  1. Run " +:+ DQ +:+ "flyctl auth login" +:+ DQ +:+ " to ensure you're authenticated" +:+ LF);
         Log ("  2. Run " +:+ DQ +:+ "flyctl apps list" +:+ DQ +:+ " to check your apps" +:+ LF);
         Log ("  3. Check your Dockerfile for build errors" +:+ LF)]
     ++ [Rm "/tmp/bolt-fly-deploy-1"; Close], inl tt).
Proof.
  apply (zero_exit_without_phrase_is_failure "app" "iad" "/tmp/bolt-fly-deploy-1" 3000
           [Stdout "created"] (Closed (Some 0%Z))
           [Stdout "Usage: flyctl deploy "; Stderr "[flags]"] None); reflexivity.
Defined.





End StreamExamples.

(** ** The tracker injection: claim C6 *)

Section InjectionFacts.
Import JS Fly.

Lemma noDollar_quoteChar c : Ascii.eqb c "$" = false → noDollar (quoteChar c) = true.
Proof.
  destruct c as [[] [] [] [] [] [] [] []]; intros H; try discriminate H; vm_compute; reflexivity.
Qed.

Lemma noDollar_quoteBody s : noDollar s = true → noDollar (quoteBody s) = true.
Proof.
  induction s as [|c s IH]; [reflexivity|].
  cbn [noDollar quoteBody]. intros H. apply andb_true_iff in H as [Hc Hs].
  apply negb_true_iff in Hc.
  rewrite noDollar_app, noDollar_quoteChar, IH by assumption. reflexivity.
Qed.

Lemma noDollar_JSON_stringify s : noDollar s = true → noDollar (JSON_stringify s) = true.
Proof.
  intros H. unfold JSON_stringify.
  rewrite !noDollar_app, noDollar_quoteBody by exact H. reflexivity.
Qed.

Lemma noDollar_takeStr n : ∀ s, noDollar s = true → noDollar (takeStr n s) = true.
Proof.
  induction n as [|n IH]; intros s H; [reflexivity|].
  destruct s as [|c s]; [reflexivity|].
  cbn [noDollar takeStr] in *. apply andb_true_iff in H as [Hc Hs].
  now rewrite Hc, IH.
Qed.

Lemma noDollar_stripTrailingSlash s : noDollar s = true → noDollar (stripTrailingSlash s) = true.
Proof.
  intros H. unfold stripTrailingSlash.
  destruct (endsWithSlash s); [now apply noDollar_takeStr | exact H].
Qed.

Lemma noDollar_trackerScript flyAppName url :
  noDollar flyAppName = true → noDollar url = true →
  noDollar (trackerScript flyAppName url) = true.
Proof.
  intros Hn Hu. unfold trackerScript.
  rewrite !noDollar_app, !noDollar_JSON_stringify
    by (try apply noDollar_stripTrailingSlash; assumption).
  reflexivity.
Qed.

(** *** Assignments to a record *)

Lemma getFile_updateFile key v : ∀ files,
  is_Some (getFile key files) → getFile key (updateFile key v files) = Some v.
Proof.
  induction files as [|[k x] files IH]; cbn [getFile updateFile]; intros H.
  - now apply is_Some_None in H.
  - destruct (decide (k = key)) as [->|Hne]; cbn [getFile].
    + now rewrite decide_True.
    + rewrite decide_False by exact Hne. now apply IH.
Qed.

Lemma getFile_updateFile_ne key k v : ∀ files,
  key ≠ k → getFile key (updateFile k v files) = getFile key files.
Proof.
  intros files Hne. induction files as [|[k' x] files IH]; [reflexivity|].
  cbn [updateFile getFile]. destruct (decide (k' = k)) as [->|Hk]; cbn [getFile].
  - now rewrite !decide_False by congruence.
  - destruct (decide (k' = key)); [reflexivity | exact IH].
Qed.

Lemma updateFile_updateFile key v w : ∀ files,
  updateFile key w (updateFile key v files) = updateFile key w files.
Proof.
  induction files as [|[k x] files IH]; [reflexivity|]. cbn [updateFile].
  destruct (decide (k = key)) as [->|Hne]; cbn [updateFile].
  - now rewrite decide_True.
  - rewrite decide_False by exact Hne. now rewrite IH.
Qed.

Lemma updateFile_same key v : ∀ files,
  getFile key files = Some v → updateFile key v files = files.
Proof.
  induction files as [|[k x] files IH]; cbn [getFile updateFile]; [discriminate|].
  destruct (decide (k = key)) as [->|Hne]; intros H.
  - now injection H as ->.
  - now rewrite IH.
Qed.

Lemma getFile_insertIndex n key v : ∀ files,
  getFile key files = None → getFile key (insertIndex n key v files) = Some v.
Proof.
  induction files as [|[k x] files IH]; cbn [getFile insertIndex]; intros H.
  - now rewrite decide_True.
  - destruct (decide (k = key)) as [->|Hne]; [discriminate H|].
    destruct (arrayIndex k) as [m|]; [destruct (m <? n)%Z|]; cbn [getFile];
      rewrite ?decide_True by reflexivity; rewrite ?decide_False by exact Hne; auto.
Qed.

Lemma getFile_insertIndex_ne n key k v : ∀ files,
  key ≠ k → getFile key (insertIndex n k v files) = getFile key files.
Proof.
  intros files Hne. induction files as [|[k' x] files IH]; cbn [insertIndex getFile].
  - now rewrite decide_False by congruence.
  - destruct (arrayIndex k') as [m|]; [destruct (m <? n)%Z|]; cbn [getFile];
      rewrite ?(decide_False (P := k = key)) by congruence; [|reflexivity..].
    destruct (decide (k' = key)); [reflexivity | exact IH].
Qed.

Lemma updateFile_insertIndex n key v w : ∀ files,
  getFile key files = None →
  updateFile key w (insertIndex n key v files) = insertIndex n key w files.
Proof.
  induction files as [|[k x] files IH]; cbn [getFile insertIndex updateFile]; intros H.
  - now rewrite decide_True.
  - destruct (decide (k = key)) as [->|Hne]; [discriminate H|].
    destruct (arrayIndex k) as [m|]; [destruct (m <? n)%Z|]; cbn [updateFile];
      rewrite ?decide_True by reflexivity; rewrite ?decide_False by exact Hne;
      rewrite ?IH by exact H; reflexivity.
Qed.

Lemma getFile_app key : ∀ files more,
  getFile key (files ++ more)
  = match getFile key files with
    | Some v => Some v
    | None => getFile key more
    end.
Proof.
  induction files as [|[k x] files IH]; intros more; [reflexivity|].
  cbn [app getFile]. destruct (decide (k = key)); [reflexivity | apply IH].
Qed.

Lemma updateFile_app key v w : ∀ files,
  getFile key files = None →
  updateFile key w (files ++ [(key, v)]) = files ++ [(key, w)].
Proof.
  induction files as [|[k x] files IH]; cbn [getFile app updateFile]; intros H.
  - now rewrite decide_True.
  - destruct (decide (k = key)) as [->|Hne]; [discriminate H|]. now rewrite IH.
Qed.

(** An assignment is read back, unless it is the one that is ignored. *)
Lemma getFile_setFile key v files :
  key ≠ "__proto__" → getFile key (setFile key v files) = Some v.
Proof.
  intros Hkey. unfold setFile. destruct (getFile key files) as [x|] eqn:Hget.
  - apply getFile_updateFile. rewrite Hget. eauto.
  - rewrite decide_False by exact Hkey.
    destruct (arrayIndex key) as [n|].
    + now apply getFile_insertIndex.
    + rewrite getFile_app, Hget. cbn [getFile]. now rewrite decide_True.
Qed.

Lemma getFile_setFile_ne key k v files :
  key ≠ k → getFile key (setFile k v files) = getFile key files.
Proof.
  intros Hne. unfold setFile. destruct (getFile k files) as [x|] eqn:Hget.
  - now apply getFile_updateFile_ne.
  - destruct (decide (k = "__proto__")) as [Hp|Hp]; [reflexivity|].
    destruct (arrayIndex k) as [n|].
    + now apply getFile_insertIndex_ne.
    + rewrite getFile_app. cbn [getFile]. rewrite decide_False by congruence.
      now destruct (getFile key files).
Qed.

Lemma setFile_setFile key v w files :
  setFile key w (setFile key v files) = setFile key w files.
Proof.
  unfold setFile at 2 3. destruct (getFile key files) as [x|] eqn:Hget.
  - unfold setFile. rewrite getFile_updateFile by (rewrite Hget; eauto).
    apply updateFile_updateFile.
  - destruct (decide (key = "__proto__")) as [Hp|Hp].
    + unfold setFile. now rewrite Hget, decide_True.
    + destruct (arrayIndex key) as [n|] eqn:Hidx; unfold setFile.
      * rewrite getFile_insertIndex by exact Hget. now apply updateFile_insertIndex.
      * rewrite getFile_app, Hget. cbn [getFile]. rewrite decide_True by reflexivity.
        now apply updateFile_app.
Qed.

Lemma setFile_same key v files : getFile key files = Some v → setFile key v files = files.
Proof. intros H. unfold setFile. rewrite H. now apply updateFile_same. Qed.

Lemma truthy_Some s : s ≠ EmptyString → truthy (Some s) = true.
Proof. intros H. cbn. now apply bool_decide_eq_true_2. Qed.

(** The injection when both [boltUrl] and [index.html] are there. *)
Lemma injectTracker_present flyAppName url html files :
  url ≠ EmptyString → getFile "index.html" files = Some html → html ≠ EmptyString →
  injectTracker flyAppName (Some url) files
  = (let script := trackerScript flyAppName url in
     let html1 := replace html "</body>" (script +:+ "</body>") in
     if negb (includes html1 script)
     then setFile "index.html" (replace html1 "</html>" (script +:+ "</html>"))
            (setFile "index.html" html1 files)
     else setFile "index.html" html1 files).
Proof.
  intros Hurl Hget Hhtml. unfold injectTracker.
  rewrite Hget, !truthy_Some by assumption. cbn [andb].
  rewrite getFile_setFile by discriminate. reflexivity.
Qed.

(** C6, as amended.  With a non-empty [boltUrl] and a non-empty
    [index.html], for an app name and an origin without [$]: the tracker
    script is put immediately before the first [</body>]; when there is no
    [</body>] and the page does not hold the script yet, it is put
    immediately before the first [</html>]; when there is no [</body>] and
    the script is already there or there is no [</html>], and when
    [boltUrl] or [index.html] is missing or empty, the files are left as
    they are. *)
Theorem injectTracker_spec (flyAppName : string) (boltUrl : option string)
    (files : list (string * string)) :
  (∀ url html,
     boltUrl = Some url → url ≠ EmptyString →
     getFile "index.html" files = Some html → html ≠ EmptyString →
     noDollar flyAppName = true → noDollar url = true →
     let script := trackerScript flyAppName url in
     (∀ before after,
        firstOccurrence "</body>" html before after →
        injectTracker flyAppName boltUrl files
        = setFile "index.html" (before +:+ script +:+ "</body>" +:+ after) files)
     ∧ (∀ before after,
          absent "</body>" html → absent script html →
          firstOccurrence "</html>" html before after →
          injectTracker flyAppName boltUrl files
          = setFile "index.html" (before +:+ script +:+ "</html>" +:+ after) files)
     ∧ (absent "</body>" html →
        includes html script = true ∨ absent "</html>" html →
        injectTracker flyAppName boltUrl files = files))
  ∧ (boltUrl = None ∨ boltUrl = Some EmptyString
     ∨ getFile "index.html" files = None
     ∨ getFile "index.html" files = Some EmptyString →
     injectTracker flyAppName boltUrl files = files).
Proof.
  split.
  - intros url html -> Hurl Hget Hhtml Hn Hu script.
    pose proof (noDollar_trackerScript flyAppName url Hn Hu) as Hscript. fold script in Hscript.
    rewrite (injectTracker_present flyAppName url html files Hurl Hget Hhtml).
    cbn zeta. fold script.
    split; [|split].
    + intros before after Hocc.
      rewrite (replace_firstOccurrence html "</body>" (script +:+ "</body>") before after Hocc)
        by (rewrite noDollar_app, Hscript; reflexivity).
      rewrite append_assoc.
      now rewrite (includes_occurrence script before ("</body>" +:+ after)).
    + intros before after Hbody Hnew Hocc.
      rewrite (replace_absent html "</body>" _ Hbody).
      rewrite (includes_absent script html Hnew). cbn [negb].
      rewrite setFile_setFile.
      rewrite (replace_firstOccurrence html "</html>" (script +:+ "</html>") before after Hocc)
        by (rewrite noDollar_app, Hscript; reflexivity).
      now rewrite append_assoc.
    + intros Hbody Hskip.
      rewrite (replace_absent html "</body>" _ Hbody).
      destruct Hskip as [Hthere|Hhtmltag].
      * rewrite Hthere. cbn [negb]. now apply setFile_same.
      * destruct (includes html script); cbn [negb].
        -- now apply setFile_same.
        -- rewrite setFile_setFile, (replace_absent html "</html>" _ Hhtmltag).
           now apply setFile_same.
  - intros [->|[->|[Hget|Hget]]]; unfold injectTracker.
    + reflexivity.
    + reflexivity.
    + rewrite Hget. cbn [truthy]. now rewrite andb_false_r.
    + rewrite Hget. cbn [truthy].
      rewrite (bool_decide_eq_false_2 (EmptyString ≠ EmptyString)) by (intros H; now apply H).
      now rewrite andb_false_r.
Qed.

End InjectionFacts.

Section InjectionExamples.
Import JS Fly.

Lemma injectTracker_spec_witness :
  injectTracker "app" (Some "http://localhost:5173/")
    [("Dockerfile", "FROM nginx"); ("index.html", "<html><body>hi</body></html>")]
  = [("Dockerfile", "FROM nginx");
     ("index.html",
      "<html><body>hi" +:+ trackerScript "app" "http://localhost:5173/" +:+ "</body></html>")]
  ∧ injectTracker "app" None [("index.html", "<html><body>hi</body></html>")]
    = [("index.html", "<html><body>hi</body></html>")].
Proof.
  destruct (injectTracker_spec "app" (Some "http://localhost:5173/")
              [("Dockerfile", "FROM nginx"); ("index.html", "<html><body>hi</body></html>")])
    as [Hinject _].
  destruct (Hinject "http://localhost:5173/" "<html><body>hi</body></html>")
    as [Hbody _]; try reflexivity; try (intros H; discriminate H).
  destruct (injectTracker_spec "app" None [("index.html", "<html><body>hi</body></html>")])
    as [_ Hnone].
  split.
  - rewrite (Hbody "<html><body>hi" "</html>"); [reflexivity|].
    apply firstOccurrence_splitFirst. reflexivity.
  - apply Hnone. now left.
Defined.

(** C6 as stated fails on a page without [</body>] that already holds the
    script: nothing is put before [</html>]. *)
Lemma injectTracker_fallback_skipped :
  let script := trackerScript "app" "http://localhost:5173" in
  let html := "<html>" +:+ script +:+ "<p>hi</p></html>" in
  absent "</body>" html
  ∧ firstOccurrence "</html>" html ("<html>" +:+ script +:+ "<p>hi</p>") EmptyString
  ∧ injectTracker "app" (Some "http://localhost:5173") [("index.html", html)]
    = [("index.html", html)]
  ∧ injectTracker "app" (Some "http://localhost:5173") [("index.html", html)]
    ≠ [("index.html", "<html>" +:+ script +:+ "<p>hi</p>" +:+ script +:+ "</html>")].
Proof.
  intros script html. split; [|split; [|split]].
  - apply includes_false_absent. vm_compute. reflexivity.
  - apply firstOccurrence_splitFirst. vm_compute. reflexivity.
  - vm_compute. reflexivity.
  - intros H. apply (f_equal (λ fs, match fs with [(_, page)] => String.length page | _ => 0 end)) in H.
    vm_compute in H. discriminate H.
Qed.

(** With a [$$] in the app name the text put before [</body>] is not the
    script, and a second copy is put before [</html>]. *)
Lemma injectTracker_dollar_in_name :
  injectTracker "a$$b" (Some "http://localhost:5173")
    [("index.html", "<html><body>hi</body></html>")]
  = [("index.html",
      "<html><body>hi" +:+ trackerScript "a$b" "http://localhost:5173" +:+ "</body>"
      +:+ trackerScript "a$b" "http://localhost:5173" +:+ "</html>")].
Proof. vm_compute. reflexivity. Qed.

End InjectionExamples.

(** ** The project detector: claim C9 *)

Section DetectorFacts.
Import JS Detect.

Variable JSON_parse : string → option json.

Lemma readPackage_vite pkg result :
  isTruthy (optProp (optProp (Some pkg) "scripts") "build") = true →
  isTruthy (dep pkg "vite") = true →
  isTruthy (dep pkg "next") = false →
  isTruthy (dep pkg "nuxt") = false →
  isTruthy (dep pkg "nuxt3") = false →
  isTruthy (dep pkg "@remix-run/react") = false →
  isTruthy (dep pkg "remix") = false →
  buildOutputDir result = "dist" →
  viteDetected (readPackage pkg result) ∧ type (readPackage pkg result) = type result.
Proof.
  intros Hbuild Hvite Hnext Hnuxt Hnuxt3 Hremixr Hremix Hdist.
  unfold readPackage.
  destruct (prop (Some pkg) "scripts") as [scripts|] eqn:Hscripts.
  - assert (Hs : optProp (Some pkg) "scripts" = scripts) by (unfold optProp; now rewrite Hscripts).
    rewrite Hs in Hbuild. rewrite Hbuild, Hnext, Hnuxt, Hnuxt3, Hremixr, Hremix, Hvite.
    cbn [orb]. cbv zeta.
    repeat match goal with
           | |- context [isTruthy ?x] => destruct (isTruthy x)
           end;
      try match goal with
          | |- context [?o ≫= toText] => destruct (o ≫= toText)
          end;
      cbv beta iota;
      repeat match goal with
             | |- context [match ?x with _ => _ end] => destruct x
             end; split; try split; reflexivity || exact Hdist.
  - unfold optProp in Hbuild. rewrite Hscripts in Hbuild. discriminate Hbuild.
Qed.

(** C9, as amended.  When [package.json] is non-empty and parses to a
    value whose [scripts.build] is truthy and whose merged dependencies
    (those of [devDependencies] over those of [dependencies]) have a truthy
    [vite] and no truthy [next], [nuxt], [nuxt3], [@remix-run/react] or
    [remix], the detector returns [hasBuildScript = true] and
    [buildOutputDir = "dist"], whatever the other files and the other
    fields of the package are. *)
Theorem detectProject_vite_dist (files : list (string * string)) (text : string) (pkg : json) :
  getFile "package.json" files = Some text →
  text ≠ EmptyString →
  JSON_parse text = Some pkg →
  isTruthy (optProp (optProp (Some pkg) "scripts") "build") = true →
  isTruthy (dep pkg "vite") = true →
  isTruthy (dep pkg "next") = false →
  isTruthy (dep pkg "nuxt") = false →
  isTruthy (dep pkg "nuxt3") = false →
  isTruthy (dep pkg "@remix-run/react") = false →
  isTruthy (dep pkg "remix") = false →
  hasBuildScript (detectProject JSON_parse files) = true
  ∧ buildOutputDir (detectProject JSON_parse files) = "dist".
Proof.
  intros Hfile Htext Hparse Hbuild Hvite Hnext Hnuxt Hnuxt3 Hremixr Hremix.
  unfold detectProject. rewrite Hfile.
  cbn [truthy]. change (default EmptyString (Some text)) with text.
  rewrite bool_decide_eq_true_2 by exact Htext.
  rewrite Hparse.
  match goal with
  | |- context [readPackage pkg ?r] =>
      destruct (readPackage_vite pkg r Hbuild Hvite Hnext Hnuxt Hnuxt3 Hremixr Hremix eq_refl)
        as [[Hb Hd] Ht];
      generalize dependent (readPackage pkg r)
  end.
  intros r Hb Hd Ht. cbn in Ht.
  destruct r as [ty hp hb bc sc bod nv pm]. cbn in Hb, Hd, Ht. subst.
  repeat match goal with
         | |- context [truthy ?x] => destruct (truthy x)
         end; cbn; split; reflexivity.
Qed.

End DetectorFacts.

Section DetectorExamples.
Import JS Detect.

Lemma detectProject_vite_dist_witness :
  hasBuildScript (detectProject parseVite [("package.json", viteText); ("index.html", "<html></html>")]) = true
  ∧ buildOutputDir (detectProject parseVite [("package.json", viteText); ("index.html", "<html></html>")]) = "dist".
Proof.
  apply (detectProject_vite_dist parseVite
           [("package.json", viteText); ("index.html", "<html></html>")] viteText vitePackage);
    try reflexivity.
  intros H. discriminate H.
Defined.

(** C9 as stated fails on a package that has [vite] in its dependencies, a
    build script and no start script, and also has [next]: the output
    directory is [.next]. *)
Lemma detectProject_vite_with_next :
  isTruthy (assoc "vite" (spreadProps (optProp (Some viteNextPackage) "dependencies"))) = true
  ∧ isTruthy (optProp (optProp (Some viteNextPackage) "scripts") "build") = true
  ∧ optProp (optProp (Some viteNextPackage) "scripts") "start" = None
  ∧ buildOutputDir (detectProject parseViteNext [("package.json", viteNextText)]) = ".next"
  ∧ buildOutputDir (detectProject parseViteNext [("package.json", viteNextText)]) ≠ "dist".
Proof.
  repeat split; try reflexivity.
  vm_compute. intros H. discriminate H.
Qed.

End DetectorExamples.

(** ** The one-click deploy: claim C2 *)

Section OneClickFacts.
Import JS OneClick.

Variable URL_hostname : string → option string.

(** [hostname.split('.')[0]] is the text before the first dot, the whole
    hostname when it has no dot. *)
Lemma firstLabel_spec hostname :
  includes (firstLabel hostname) "." = false
  ∧ (hostname = firstLabel hostname
     ∨ ∃ rest, hostname = firstLabel hostname +:+ "." +:+ rest).
Proof.
  induction hostname as [|c hostname [IHdot IHsplit]]; [split; [reflexivity | now left]|].
  cbn [firstLabel]. destruct (Ascii.eqb_spec c ".") as [->|Hc].
  - split; [reflexivity|]. right. now exists hostname.
  - split.
    + unfold includes in *. cbn [indexOf startsWith].
      destruct (Ascii.eqb_spec "." c) as [<-|_]; [congruence|].
      now destruct (indexOf "." (firstLabel hostname)).
    + destruct IHsplit as [IH|[rest IH]].
      * left. now rewrite <- IH.
      * right. exists rest. now rewrite append_cons, <- IH.
Qed.

(** *** Base-36 numerals *)

Lemma base36Digit_digitChar d : (0 ≤ d < 36)%Z → base36Digit (digitChar d) = Some d.
Proof.
  intros Hd. unfold base36Digit, digitChar.
  destruct (Z.ltb_spec d 10); rewrite N_ascii_embedding by lia; rewrite Z2N.id by lia.
  - destruct (Z.leb_spec 48 (48 + d)); [|lia]. destruct (Z.leb_spec (48 + d) 57); [|lia].
    cbn [andb]. f_equal. lia.
  - destruct (Z.leb_spec (87 + d) 57); [lia|]. rewrite andb_false_r.
    destruct (Z.leb_spec 97 (87 + d)); [|lia]. destruct (Z.leb_spec (87 + d) 122); [|lia].
    cbn [andb]. f_equal. lia.
Qed.

Lemma base36Digit_range c d : base36Digit c = Some d → (0 ≤ d < 36)%Z.
Proof.
  unfold base36Digit. set (n := Z.of_N (N_of_ascii c)).
  destruct (Z.leb_spec 48 n); destruct (Z.leb_spec n 57); cbn [andb];
    try (intros [= <-]; lia);
    destruct (Z.leb_spec 97 n); destruct (Z.leb_spec n 122); cbn [andb];
    intros [= <-]; lia.
Qed.

Lemma base36From_app a : ∀ v b,
  base36From v (a +:+ b) = base36From v a ≫= λ x, base36From x b.
Proof.
  induction a as [|c a IH]; intros v b; [reflexivity|].
  rewrite append_cons. cbn [base36From].
  destruct (base36Digit c) as [d|]; [apply IH | reflexivity].
Qed.

(** The value read lies between the numeral shifted and the next one. *)
Lemma base36From_bound b : ∀ v y,
  base36From v b = Some y →
  (v * 36 ^ Z.of_nat (String.length b) ≤ y < (v + 1) * 36 ^ Z.of_nat (String.length b))%Z.
Proof.
  induction b as [|c b IH]; intros v y H; cbn [base36From String.length] in *.
  - injection H as <-. change (36 ^ Z.of_nat 0)%Z with 1%Z. lia.
  - destruct (base36Digit c) as [d|] eqn:Hd; [|discriminate H].
    apply base36Digit_range in Hd. apply IH in H.
    rewrite Nat2Z.inj_succ, Z.pow_succ_r by lia.
    assert (0 < 36 ^ Z.of_nat (String.length b))%Z by (apply Z.pow_pos_nonneg; lia).
    nia.
Qed.

(** Reading after [v] is reading from [0], shifted. *)
Lemma base36From_shift b : ∀ v,
  base36From v b
  = (λ y, v * 36 ^ Z.of_nat (String.length b) + y)%Z <$> base36From 0 b.
Proof.
  induction b as [|c b IH]; intros v; cbn [base36From String.length].
  - cbn. f_equal. change (36 ^ Z.of_nat 0)%Z with 1%Z. lia.
  - destruct (base36Digit c) as [d|]; [|reflexivity]. cbn [mbind option_bind].
    rewrite (IH (v * 36 + d)%Z), (IH (0 * 36 + d)%Z).
    rewrite Nat2Z.inj_succ, Z.pow_succ_r by lia.
    destruct (base36From 0 b) as [y|]; [|reflexivity]. cbn. f_equal. lia.
Qed.

(** The digits written for [n] read back as [n]. *)
Lemma digitsFrom_base36 fuel : ∀ n acc,
  (0 ≤ n < 2 ^ Z.of_nat fuel)%Z → 0 < fuel →
  ∃ ds, digitsFrom 36 fuel n acc = ds +:+ acc
    ∧ ds ≠ EmptyString
    ∧ base36Value ds = Some n.
Proof.
  induction fuel as [|fuel IH]; intros n acc Hn Hf; [lia|].
  assert (Hmod : (0 ≤ n mod 36 < 36)%Z) by (apply Z.mod_pos_bound; lia).
  assert (Hdiv : (n = 36 * (n / 36) + n mod 36)%Z) by (apply Z.div_mod; lia).
  cbn [digitsFrom].
  destruct (Z.eqb_spec (n / 36) 0) as [Hz|Hz].
  - exists (String (digitChar (n mod 36)) EmptyString).
    split; [reflexivity|]. split; [discriminate|].
    unfold base36Value. cbn [base36From]. rewrite base36Digit_digitChar by exact Hmod.
    cbn. f_equal. lia.
  - assert (Hq : (0 < n / 36)%Z).
    { assert (0 ≤ n / 36)%Z by (apply Z.div_pos; lia). lia. }
    assert (Hfuel : 0 < fuel).
    { destruct fuel; [|lia]. simpl in Hn. lia. }
    destruct (IH (n / 36)%Z (String (digitChar (n mod 36)) acc)) as (ds & Heq & Hne & Hval);
      [|exact Hfuel|].
    { split; [lia|].
      rewrite Nat2Z.inj_succ, Z.pow_succ_r in Hn by lia. lia. }
    exists (ds +:+ String (digitChar (n mod 36)) EmptyString).
    split; [rewrite Heq; now rewrite append_assoc|]. split.
    + destruct ds; [congruence | discriminate].
    + unfold base36Value in *. rewrite base36From_app, Hval. cbn [mbind option_bind base36From].
      rewrite base36Digit_digitChar by exact Hmod. cbn. f_equal. lia.
Qed.

(** [n.toString(36).slice(-4)]: the last four digits of [n], all of them
    when there are fewer; they are the numeral of [n] modulo the power of
    36 of their number. *)
Lemma sliceLast_base36 n :
  (0 ≤ n)%Z →
  let suffix := sliceLast 4 (toString 36 n) in
  1 ≤ String.length suffix ≤ 4
  ∧ base36Value suffix = Some (n mod 36 ^ Z.of_nat (String.length suffix))%Z
  ∧ ((36 ^ 3 ≤ n)%Z → String.length suffix = 4).
Proof.
  intros Hn. cbv zeta. unfold sliceLast, toString.
  destruct (Z.ltb_spec n 0); [lia|].
  destruct (digitsFrom_base36 (S (Z.to_nat (Z.log2 n))) n EmptyString)
    as (ds & Heq & Hne & Hval); [|lia|].
  { split; [lia|]. rewrite Nat2Z.inj_succ, Z2Nat.id by apply Z.log2_nonneg.
    destruct (Z.eq_dec n 0%Z) as [->|Hnz]; [reflexivity|].
    apply Z.log2_spec. lia. }
  rewrite Heq, append_nil_r. clear Heq.
  set (k := String.length ds - 4).
  assert (Hlen : String.length (dropStr k ds) = String.length ds - k) by apply length_dropStr.
  assert (Hpos : 1 ≤ String.length ds) by (destruct ds; [congruence | cbn; lia]).
  pose proof (takeStr_dropStr k ds) as Hsplit.
  unfold base36Value in *. rewrite <- Hsplit, base36From_app in Hval.
  destruct (base36From 0 (takeStr k ds)) as [x|] eqn:Hx; [|discriminate Hval].
  cbn [mbind option_bind] in Hval. rewrite base36From_shift in Hval.
  destruct (base36From 0 (dropStr k ds)) as [y|] eqn:Hy; [|discriminate Hval].
  cbn in Hval. injection Hval as Hval.
  apply base36From_bound in Hx, Hy.
  assert (Hp : (0 < 36 ^ Z.of_nat (String.length (dropStr k ds)))%Z)
    by (apply Z.pow_pos_nonneg; lia).
  assert (Hq : (0 < 36 ^ Z.of_nat (String.length (takeStr k ds)))%Z)
    by (apply Z.pow_pos_nonneg; lia).
  split; [subst k; lia|]. split.
  - f_equal. symmetry. rewrite <- Hval.
    rewrite Z.add_comm, Z.mod_add by lia. apply Z.mod_small. lia.
  - intros Hbig. rewrite Hlen. subst k.
    destruct (decide (4 ≤ String.length ds)) as [|Hshort]; [lia|].
    exfalso. replace (String.length ds - (String.length ds - 4)) with (String.length ds) in Hlen by lia.
    rewrite Hlen in Hy.
    assert (36 ^ Z.of_nat (String.length ds) ≤ 36 ^ 3)%Z by (apply Z.pow_le_mono_r; lia).
    replace (String.length ds - 4) with 0 in * by lia.
    cbn [takeStr String.length] in *. change (36 ^ Z.of_nat 0)%Z with 1%Z in *.
    cbn [dropStr] in *. lia.
Qed.

(** C2.  When the chat metadata holds a non-empty deployed URL that
    parses, the app name sent to the deploy endpoint is the first
    dot-separated label of its hostname (the text before the first dot, the
    whole hostname when it has none), whatever the project name and the
    clock, and the log announces a redeploy in place.  A stored URL that is
    missing, empty or does not parse gives a fresh name: at most 24
    characters of the project name, a dash and a suffix, which is the last
    four base-36 digits of the clock; the log line of a fresh name appears
    in no other case. *)
Theorem redeploy_reuses_app_name (result : prepared) (now : Z) (origin : string)
    (url hostname : string) :
  url ≠ EmptyString →
  URL_hostname url = Some hostname →
  (0 ≤ now)%Z →
  (∃ req name,
     deployRequest URL_hostname (Some result) (Some url) now origin = Some req
     ∧ flyAppName req = name
     ∧ includes name "." = false
     ∧ (hostname = name ∨ ∃ rest, hostname = name +:+ "." +:+ rest)
     ∧ snd (chooseAppName URL_hostname (Some url) (projectName result) now)
       = "Redeploying " +:+ DQ +:+ name +:+ DQ
         +:+ " in-place (same URL, zero downtime)..." +:+ LF +:+ LF)
  ∧ (∀ existingUrl,
       truthy existingUrl = false ∨ URL_hostname (default EmptyString existingUrl) = None →
       ∃ suffix,
         chooseAppName URL_hostname existingUrl (projectName result) now
         = (takeStr 24 (keepNameChars (projectName result)) +:+ "-" +:+ suffix,
            "Deploying as " +:+ DQ
            +:+ (takeStr 24 (keepNameChars (projectName result)) +:+ "-" +:+ suffix)
            +:+ DQ +:+ "..." +:+ LF +:+ LF)
         ∧ 1 ≤ String.length suffix ≤ 4
         ∧ base36Value suffix = Some (now mod 36 ^ Z.of_nat (String.length suffix))%Z
         ∧ ((36 ^ 3 ≤ now)%Z → String.length suffix = 4))
  ∧ (∀ existingUrl,
       startsWith "Deploying as "
         (snd (chooseAppName URL_hostname existingUrl (projectName result) now)) = true →
       truthy existingUrl = false ∨ URL_hostname (default EmptyString existingUrl) = None).
Proof.
  intros Hurl Hhost Hnow. split; [|split].
  - destruct (firstLabel_spec hostname) as [Hdot Hsplit].
    eexists. exists (firstLabel hostname). split; [reflexivity|].
    cbn [flyAppName]. unfold chooseAppName. cbn [truthy].
    rewrite bool_decide_eq_true_2 by exact Hurl.
    change (default EmptyString (Some url)) with url. rewrite Hhost.
    repeat split; assumption || reflexivity.
  - intros existingUrl Hfresh.
    exists (sliceLast 4 (toString 36 now)). split.
    + unfold chooseAppName.
      destruct Hfresh as [Hfalsy|Hparse]; [now rewrite Hfalsy|].
      rewrite Hparse. now destruct (truthy existingUrl).
    + apply (sliceLast_base36 now Hnow).
  - intros existingUrl. unfold chooseAppName.
    destruct (truthy existingUrl); [|now left].
    destruct (URL_hostname (default EmptyString existingUrl)); [|now right].
    cbn [snd]. intros H. discriminate H.
Qed.

End OneClickFacts.

Section OneClickExamples.
Import JS OneClick.

Lemma redeploy_reuses_app_name_witness :
  ∃ req,
    deployRequest exampleHostname
      (Some {| projectName := "my-project"; files := [("index.html", "<html></html>")] |})
      (Some "https://foo-ab12.fly.dev") 1730000000000 "http://localhost:5173"
    = Some req
    ∧ flyAppName req = "foo-ab12".
Proof.
  destruct (redeploy_reuses_app_name exampleHostname
              {| projectName := "my-project"; files := [("index.html", "<html></html>")] |}
              1730000000000 "http://localhost:5173"
              "https://foo-ab12.fly.dev" "foo-ab12.fly.dev")
    as [(req & name & Hreq & _) _].
  - intros H. discriminate H.
  - reflexivity.
  - lia.
  - exists req. split; [exact Hreq|].
    vm_compute in Hreq. injection Hreq as <-. reflexivity.
Defined.

(** A first deploy and a stored URL that does not parse get a fresh name. *)
Lemma first_deploy_fresh_name :
  fst (chooseAppName exampleHostname None "My Project!" 1730000000000) = "yroject-bz7k"
  ∧ fst (chooseAppName exampleHostname (Some "not a url") "My Project!" 1730000000000)
    = "yroject-bz7k".
Proof. split; vm_compute; reflexivity. Qed.

End OneClickExamples.

(** ** The streaming parser: claim C5 *)

Section ParserFacts.
Import JS Parser.

Lemma dropStr_app_le n : ∀ a b, n ≤ String.length a → dropStr n (a +:+ b) = dropStr n a +:+ b.
Proof.
  induction n as [|n IH]; intros a b H; [reflexivity|].
  destruct a as [|c a]; [simpl in H; lia|].
  rewrite append_cons. cbn [dropStr]. apply IH. simpl in H. lia.
Qed.

Lemma takeStr_app_le n : ∀ a b, n ≤ String.length a → takeStr n (a +:+ b) = takeStr n a.
Proof.
  induction n as [|n IH]; intros a b H; [reflexivity|].
  destruct a as [|c a]; [simpl in H; lia|].
  rewrite append_cons. cbn [takeStr]. f_equal. apply IH. simpl in H. lia.
Qed.

Lemma compareTag_Match_app tag : ∀ rest more,
  compareTag tag rest = Match → compareTag tag (rest +:+ more) = Match.
Proof.
  induction tag as [|a tag IH]; intros rest more H; [reflexivity|].
  destruct rest as [|b rest]; [discriminate|].
  rewrite append_cons. cbn [compareTag] in *.
  destruct (Ascii.eqb a b); [now apply IH | discriminate].
Qed.

Lemma compareTag_Mismatch_app tag : ∀ rest more,
  compareTag tag rest = Mismatch → compareTag tag (rest +:+ more) = Mismatch.
Proof.
  induction tag as [|a tag IH]; intros rest more H; [discriminate|].
  destruct rest as [|b rest]; [discriminate|].
  rewrite append_cons. cbn [compareTag] in *.
  destruct (Ascii.eqb a b); [now apply IH | reflexivity].
Qed.

Lemma compareTag_Match_length tag : ∀ rest,
  compareTag tag rest = Match → String.length tag ≤ String.length rest.
Proof.
  induction tag as [|a tag IH]; intros rest H; [simpl; lia|].
  destruct rest as [|b rest]; [discriminate|].
  cbn [compareTag] in H. destruct (Ascii.eqb a b); [|discriminate].
  apply IH in H. simpl. lia.
Qed.

Lemma compareTag_Mismatch_length tag : ∀ rest,
  compareTag tag rest = Mismatch → 1 ≤ String.length rest.
Proof.
  destruct tag as [|a tag]; intros rest H; [discriminate|].
  destruct rest as [|b rest]; [discriminate|]. simpl. lia.
Qed.

Lemma findChar_app c : ∀ s more i,
  findChar c s = Some i → findChar c (s +:+ more) = Some i ∧ i < String.length s.
Proof.
  induction s as [|d s IH]; intros more i H; [discriminate|].
  rewrite append_cons. cbn [findChar] in *.
  destruct (Ascii.eqb d c).
  - injection H as <-. split; [reflexivity | simpl; lia].
  - destruct (findChar c s) as [k|] eqn:Hk; [|discriminate].
    injection H as <-. destruct (IH more k eq_refl) as [-> Hlt].
    split; [reflexivity | simpl; lia].
Qed.

Lemma headStr_app rest more : 1 ≤ String.length rest → headStr (rest +:+ more) = headStr rest.
Proof. intros H. destruct rest; [simpl in H; lia | reflexivity]. Qed.

Lemma openTag_app name rest more tag n :
  String.length name ≤ String.length rest →
  openTag name rest = Some (tag, n) →
  openTag name (rest +:+ more) = Some (tag, n) ∧ 1 ≤ n ≤ String.length rest.
Proof.
  intros Hlen H. unfold openTag in *.
  destruct (findChar ">" (dropStr (String.length name) rest)) as [e|] eqn:He; [|discriminate].
  cbn [mbind option_bind] in H. injection H as <- <-.
  rewrite dropStr_app_le by exact Hlen.
  destruct (findChar_app _ _ more _ He) as [-> Hlt].
  cbn [mbind option_bind]. rewrite length_dropStr in Hlt.
  rewrite takeStr_app_le by (rewrite length_dropStr; lia).
  split; [reflexivity | lia].
Qed.

End ParserFacts.

Section ParserSteps.
Import JS Parser.

Variables (artifactTagOpen artifactTagClose actionTagOpen actionTagClose : string).
Variable attribute : string → string → string.
Hypothesis artifactTagClose_nonempty : artifactTagClose ≠ EmptyString.
Hypothesis actionTagClose_nonempty : actionTagClose ≠ EmptyString.

Local Abbreviation step := (step artifactTagOpen artifactTagClose actionTagOpen actionTagClose attribute).
Local Abbreviation scan := (scan artifactTagOpen artifactTagClose actionTagOpen actionTagClose attribute).
Local Abbreviation feed := (feed artifactTagOpen artifactTagClose actionTagOpen actionTagClose attribute).

Lemma length_nonempty s : s ≠ EmptyString → 1 ≤ String.length s.
Proof. destruct s; [congruence | simpl; lia]. Qed.

(** A step taken on a text is the step taken on any longer text, and it
    consumes at least one character of the text. *)
Lemma step_app messageId rest more m counter r :
  step messageId rest m counter = Some r →
  step messageId (rest +:+ more) m counter = Some r
  ∧ 1 ≤ fst (fst (fst (fst r))) ≤ String.length rest.
Proof.
  pose proof (length_nonempty _ artifactTagClose_nonempty) as Hac.
  pose proof (length_nonempty _ actionTagClose_nonempty) as Hcc.
  unfold Parser.step. destruct m as [|artifactId|artifactId actionId type filePath content].
  - destruct (compareTag artifactTagOpen rest) eqn:Hcmp; [| discriminate |].
    + rewrite (compareTag_Match_app _ _ more Hcmp).
      apply compareTag_Match_length in Hcmp.
      destruct (openTag artifactTagOpen rest) as [[tag n]|] eqn:Hopen; [|discriminate].
      destruct (openTag_app _ _ more _ _ Hcmp Hopen) as [-> Hn].
      cbn [mbind option_bind]. intros H. injection H as <-. split; [reflexivity | exact Hn].
    + rewrite (compareTag_Mismatch_app _ _ more Hcmp).
      apply compareTag_Mismatch_length in Hcmp.
      rewrite headStr_app by exact Hcmp.
      intros H. injection H as <-. split; [reflexivity | cbn; lia].
  - destruct (compareTag actionTagOpen rest) eqn:Hcmp; [| discriminate |].
    + rewrite (compareTag_Match_app _ _ more Hcmp).
      apply compareTag_Match_length in Hcmp.
      destruct (openTag actionTagOpen rest) as [[tag n]|] eqn:Hopen; [|discriminate].
      destruct (openTag_app _ _ more _ _ Hcmp Hopen) as [-> Hn].
      cbn [mbind option_bind]. intros H. injection H as <-. split; [reflexivity | exact Hn].
    + rewrite (compareTag_Mismatch_app _ _ more Hcmp).
      destruct (compareTag artifactTagClose rest) eqn:Hclose; [| discriminate |].
      * rewrite (compareTag_Match_app _ _ more Hclose).
        apply compareTag_Match_length in Hclose.
        intros H. injection H as <-. split; [reflexivity | cbn; lia].
      * rewrite (compareTag_Mismatch_app _ _ more Hclose).
        apply compareTag_Mismatch_length in Hclose.
        intros H. injection H as <-. split; [reflexivity | cbn; lia].
  - destruct (compareTag actionTagClose rest) eqn:Hcmp; [| discriminate |].
    + rewrite (compareTag_Match_app _ _ more Hcmp).
      apply compareTag_Match_length in Hcmp.
      intros H. injection H as <-. split; [reflexivity | cbn; lia].
    + rewrite (compareTag_Mismatch_app _ _ more Hcmp).
      apply compareTag_Mismatch_length in Hcmp.
      rewrite headStr_app by exact Hcmp.
      intros H. injection H as <-. split; [reflexivity | cbn; lia].
Qed.

Lemma step_empty messageId m counter : step messageId EmptyString m counter = None.
Proof.
  destruct (step messageId EmptyString m counter) as [r|] eqn:H; [|reflexivity].
  apply (step_app _ _ EmptyString) in H as [_ Hn]. simpl in Hn. lia.
Qed.

(** Fuel beyond the length of the text changes nothing. *)
Lemma scan_fuel messageId : ∀ fuel1 fuel2 rest m counter,
  String.length rest ≤ fuel1 → String.length rest ≤ fuel2 →
  scan fuel1 messageId rest m counter = scan fuel2 messageId rest m counter.
Proof.
  induction fuel1 as [|fuel1 IH]; intros fuel2 rest m counter H1 H2.
  - assert (rest = EmptyString) as -> by (destruct rest; [reflexivity | simpl in H1; lia]).
    destruct fuel2; [reflexivity|]. cbn [Parser.scan]. now rewrite step_empty.
  - destruct fuel2 as [|fuel2].
    + assert (rest = EmptyString) as -> by (destruct rest; [reflexivity | simpl in H2; lia]).
      cbn [Parser.scan]. now rewrite step_empty.
    + cbn [Parser.scan].
      destruct (step messageId rest m counter) as [[[[[n m'] counter'] events] visible]|] eqn:Hstep;
        [|reflexivity].
      apply (step_app _ _ EmptyString) in Hstep as [_ Hn]. cbn [fst] in Hn.
      rewrite (IH fuel2) by (rewrite length_dropStr; lia). reflexivity.
Qed.

(** The pass over a longer text is the pass over the text followed by the
    pass over what it left, from where it stopped. *)
Lemma scan_app messageId more : ∀ fuel rest m counter,
  String.length rest ≤ fuel →
  scan (fuel + String.length more) messageId (rest +:+ more) m counter
  = (let '(n, m1, counter1, events1, visible1) := scan fuel messageId rest m counter in
     let '(n2, m2, counter2, events2, visible2) :=
       scan (String.length (dropStr n (rest +:+ more))) messageId
         (dropStr n (rest +:+ more)) m1 counter1 in
     (n + n2, m2, counter2, events1 ++ events2, visible1 +:+ visible2)).
Proof.
  induction fuel as [|fuel IH]; intros rest m counter Hfuel.
  - assert (rest = EmptyString) as -> by (destruct rest; [reflexivity | simpl in Hfuel; lia]).
    cbn [Parser.scan dropStr Nat.add].
    change (EmptyString +:+ more) with more.
    now destruct (scan (String.length more) messageId more m counter) as [[[[n2 m2] c2] e2] v2].
  - set (whole := scan (S fuel + String.length more) messageId (rest +:+ more) m counter).
    cbn [Parser.scan].
    destruct (step messageId rest m counter) as [[[[[n m'] counter'] events] visible]|] eqn:Hstep;
      subst whole.
    + cbn [Parser.scan Nat.add].
      destruct (step_app _ _ more _ _ _ Hstep) as [-> Hn]. cbn [fst] in Hn.
      rewrite dropStr_app_le by lia.
      rewrite (IH (dropStr n rest)) by (rewrite length_dropStr; lia).
      destruct (scan fuel messageId (dropStr n rest) m' counter')
        as [[[[n1 m1] c1] e1] v1] eqn:Hscan.
      rewrite <- (dropStr_app_le n rest more) by lia.
      rewrite !dropStr_dropStr.
      destruct (scan (String.length (dropStr (n + n1) (rest +:+ more))) messageId
                  (dropStr (n + n1) (rest +:+ more)) m1 c1) as [[[[n2 m2] c2] e2] v2].
      rewrite <- !app_assoc, append_assoc. f_equal. f_equal. f_equal. f_equal. lia.
    + rewrite (scan_fuel messageId (S fuel + String.length more) (String.length (rest +:+ more)))
        by (rewrite ?length_append; lia).
      cbn [dropStr Nat.add].
      now destruct (scan (String.length (rest +:+ more)) messageId (rest +:+ more) m counter)
        as [[[[n2 m2] c2] e2] v2].
Qed.

Lemma scan_consumed messageId : ∀ fuel rest m counter,
  fst (fst (fst (fst (scan fuel messageId rest m counter)))) ≤ String.length rest.
Proof.
  induction fuel as [|fuel IH]; intros rest m counter; [cbn; lia|].
  cbn [Parser.scan].
  destruct (step messageId rest m counter) as [[[[[n m'] counter'] events] visible]|] eqn:Hstep;
    [|cbn; lia].
  apply (step_app _ _ EmptyString) in Hstep as [_ Hn]. cbn [fst] in Hn.
  specialize (IH (dropStr n rest) m' counter'). rewrite length_dropStr in IH.
  destruct (scan fuel messageId (dropStr n rest) m' counter') as [[[[n2 m2] c2] e2] v2].
  cbn [fst] in *. lia.
Qed.

Lemma openClose_app a b : openClose (a ++ b) = openClose a ++ openClose b.
Proof. apply List.filter_app. Qed.

Lemma openClose_streamEvent messageId n m : openClose (streamEvent messageId n m) = [].
Proof.
  destruct m as [| |artifactId actionId type filePath content]; try reflexivity.
  cbn [streamEvent]. destruct (decide (type = "file")); [|reflexivity].
  destruct (decide (0 < n)); reflexivity.
Qed.

(** A call with a longer text does what the call with the text and then
    the call with the longer text do: the same state, the same open and
    close events, the same visible text. *)
Lemma feed_app messageId a b st :
  position st ≤ String.length a →
  let '(st1, events1, visible1) := feed messageId a st in
  let '(st2, events2, visible2) := feed messageId (a +:+ b) st1 in
  position st1 ≤ String.length a
  ∧ fst (fst (feed messageId (a +:+ b) st)) = st2
  ∧ openClose (snd (fst (feed messageId (a +:+ b) st)))
    = openClose events1 ++ openClose events2
  ∧ snd (feed messageId (a +:+ b) st) = visible1 +:+ visible2.
Proof.
  intros Hpos. unfold Parser.feed.
  rewrite (dropStr_app_le (position st) a b) by exact Hpos.
  rewrite length_append.
  rewrite (scan_app messageId b (String.length (dropStr (position st) a))) by lia.
  pose proof (scan_consumed messageId (String.length (dropStr (position st) a))
                (dropStr (position st) a) (current st) (nextActionId st)) as Hn.
  destruct (scan (String.length (dropStr (position st) a)) messageId
              (dropStr (position st) a) (current st) (nextActionId st))
    as [[[[n m1] c1] e1] v1].
  cbn [fst] in Hn. rewrite length_dropStr in Hn.
  cbn [position current nextActionId].
  rewrite <- (dropStr_app_le (position st) a b) by exact Hpos.
  rewrite !dropStr_dropStr.
  destruct (scan (String.length (dropStr (position st + n) (a +:+ b))) messageId
              (dropStr (position st + n) (a +:+ b)) m1 c1) as [[[[n2 m2] c2] e2] v2].
  cbn [fst snd].
  rewrite !openClose_app, !openClose_streamEvent, !app_nil_r.
  repeat split; [lia | f_equal; lia].
Qed.

Local Abbreviation parse := (parse artifactTagOpen artifactTagClose actionTagOpen actionTagClose attribute).
Local Abbreviation deliver := (deliver artifactTagOpen artifactTagClose actionTagOpen actionTagClose attribute).

Lemma sameOutcome_trans x y z : sameOutcome x y → sameOutcome y z → sameOutcome x z.
Proof. intros [H1 H2] [H3 H4]. split; congruence. Qed.

(** Calling with a text and then with a longer one is calling with the
    longer one at once. *)
Lemma deliver_skip messageId a b later states :
  committed messageId states ≤ String.length a →
  sameOutcome (deliver messageId (a :: (a +:+ b) :: later) states)
              (deliver messageId ((a +:+ b) :: later) states).
Proof.
  intros Hpos. unfold committed in Hpos.
  cbn [Parser.deliver]. unfold Parser.parse.
  pose proof (feed_app messageId a b (default initial (states !! messageId)) Hpos) as Happ.
  destruct (feed messageId a (default initial (states !! messageId)))
    as [[st1 events1] visible1].
  rewrite lookup_insert_eq. change (default initial (Some st1)) with st1.
  destruct (feed messageId (a +:+ b) st1) as [[st2 events2] visible2].
  destruct Happ as (_ & Hst & Hev & _).
  destruct (feed messageId (a +:+ b) (default initial (states !! messageId)))
    as [[st events] visible].
  cbn [fst snd] in Hst, Hev. subst st.
  rewrite insert_insert_eq.
  destruct (Parser.deliver _ _ _ _ _ messageId later (<[messageId:=st2]> states))
    as [states3 events3].
  split; cbn [fst snd]; [reflexivity|].
  rewrite !openClose_app, Hev. now rewrite app_assoc.
Qed.

Lemma committed_parse messageId input states :
  committed messageId states ≤ String.length input →
  committed messageId (fst (fst (parse messageId input states))) ≤ String.length input.
Proof.
  intros Hpos. unfold committed in *. unfold Parser.parse, Parser.feed.
  pose proof (scan_consumed messageId
                (String.length (dropStr (position (default initial (states !! messageId))) input))
                (dropStr (position (default initial (states !! messageId))) input)
                (current (default initial (states !! messageId)))
                (nextActionId (default initial (states !! messageId)))) as Hn.
  destruct (scan _ messageId _ _ _) as [[[[n m1] c1] e1] v1].
  cbn [fst] in *. rewrite lookup_insert_eq.
  match goal with |- context [default initial (Some ?st)] =>
    change (default initial (Some st)) with st end.
  cbn [position]. rewrite length_dropStr in Hn. lia.
Qed.

Lemma last_cons {A} : ∀ (l : list A) a d, List.last (a :: l) d = List.last l a.
Proof.
  induction l as [|b l IH]; intros a d; [reflexivity|].
  change (List.last (a :: b :: l) d) with (List.last (b :: l) d).
  now rewrite !IH.
Qed.

(** A growing delivery comes to the single call with its last text. *)
Lemma deliver_growing messageId : ∀ later first states,
  growing (first :: later) →
  committed messageId states ≤ String.length first →
  sameOutcome (deliver messageId (first :: later) states)
              (deliver messageId [List.last later first] states).
Proof.
  induction later as [|next later IH]; intros first states Hgrow Hpos.
  - split; reflexivity.
  - inversion Hgrow as [| |text more later' Hgrow']; subst.
    eapply sameOutcome_trans; [apply deliver_skip; exact Hpos|].
    rewrite last_cons.
    apply IH; [exact Hgrow'|]. rewrite length_append. lia.
Qed.

Lemma growing_prefixesFrom : ∀ text before,
  growing (before :: prefixesFrom before text).
Proof.
  induction text as [|c text IH]; intros before; [constructor|].
  cbn [prefixesFrom]. constructor. apply IH.
Qed.

Lemma last_prefixesFrom : ∀ text before,
  List.last (prefixesFrom before text) before = before +:+ text.
Proof.
  induction text as [|c text IH]; intros before; [now rewrite append_nil_r|].
  cbn [prefixesFrom].
  rewrite last_cons, IH, append_assoc. reflexivity.
Qed.

Lemma deliver_one messageId input states :
  deliver messageId [input] states
  = (fst (fst (parse messageId input states)), snd (fst (parse messageId input states))).
Proof.
  cbn [Parser.deliver]. destruct (parse messageId input states) as [[states1 events] visible].
  cbn [fst snd]. now rewrite app_nil_r.
Qed.

(** C5.  For a message the parser has not seen, calls with the same text
    or with a text that grows at its end fire, over all the calls, exactly
    the open and close events of the single call with the last text, in
    the same order, and leave the same states: an event is never fired
    again.  In particular a second call with the same text fires no open
    or close event, and the delivery one character at a time fires the
    open and close events of the delivery at once. *)
Theorem parse_idempotent_chunk_invariant (messageId : string)
    (states : gmap string pstate) (first : string) (later : list string) (text : string) :
  states !! messageId = None →
  growing (first :: later) →
  text ≠ EmptyString →
  sameOutcome (deliver messageId (first :: later) states)
              (deliver messageId [List.last later first] states)
  ∧ openClose (snd (fst (parse messageId first (fst (fst (parse messageId first states)))))) = []
  ∧ sameOutcome (deliver messageId (prefixes text) states)
                (deliver messageId [text] states).
Proof.
  intros Hfresh Hgrow Htext.
  assert (Hpos : ∀ input, committed messageId states ≤ String.length input).
  { intros input. unfold committed. rewrite Hfresh. cbn. lia. }
  split; [|split].
  - apply deliver_growing; [exact Hgrow | apply Hpos].
  - pose proof (deliver_skip messageId first EmptyString [] states (Hpos first)) as [_ Hev].
    rewrite append_nil_r in Hev.
    cbn [Parser.deliver] in Hev.
    destruct (parse messageId first states) as [[states1 events1] visible1].
    cbn [fst snd] in *.
    destruct (parse messageId first states1) as [[states2 events2] visible2].
    cbn [fst snd] in *.
    rewrite !app_nil_r, openClose_app in Hev.
    apply (f_equal length) in Hev. rewrite length_app in Hev.
    destruct (openClose events2); [reflexivity | simpl in Hev; lia].
  - destruct text as [|c text]; [congruence|].
    unfold prefixes. cbn [prefixesFrom].
    change (EmptyString +:+ String c EmptyString) with (String c EmptyString).
    pose proof (deliver_growing messageId (prefixesFrom (String c EmptyString) text)
                  (String c EmptyString) states
                  (growing_prefixesFrom text (String c EmptyString))
                  (Hpos _)) as H.
    now rewrite last_prefixesFrom in H.
Qed.

Local Abbreviation parseMessages :=
  (parseMessages artifactTagOpen artifactTagClose actionTagOpen actionTagClose attribute).
Local Abbreviation parseLoop :=
  (parseLoop artifactTagOpen artifactTagClose actionTagOpen actionTagClose attribute).
Local Abbreviation parseEach :=
  (parseEach artifactTagOpen artifactTagClose actionTagOpen actionTagClose attribute).

Lemma parseLoop_calls reset : ∀ messages index h,
  parserStates (fst (parseLoop reset index messages h))
  = fst (parseEach (parserCalls messages) (parserStates h))
  ∧ snd (parseLoop reset index messages h)
    = snd (parseEach (parserCalls messages) (parserStates h)).
Proof.
  induction messages as [|message later IH]; intros index h; [split; reflexivity|].
  cbn [Parser.parseLoop parserCalls omap list_omap].
  destruct (messageRole message); cbn [Parser.parseEach]; try apply IH.
  - destruct (parse (id message) (extractTextContent message) (parserStates h))
      as [[states events] visible].
    match goal with |- context [parseLoop reset (S index) later ?h1] =>
      destruct (IH (S index) h1) as [IHs IHe];
      destruct (parseLoop reset (S index) later h1) as [h2 events2] end.
    cbn [fst snd parserStates] in *.
    fold (parserCalls later).
    destruct (parseEach (parserCalls later) states) as [states2 events2'].
    cbn [fst snd] in *. now subst.
  - destruct (parse (id message) (extractTextContent message) (parserStates h))
      as [[states events] visible].
    match goal with |- context [parseLoop reset (S index) later ?h1] =>
      destruct (IH (S index) h1) as [IHs IHe];
      destruct (parseLoop reset (S index) later h1) as [h2 events2] end.
    cbn [fst snd parserStates] in *.
    fold (parserCalls later).
    destruct (parseEach (parserCalls later) states) as [states2 events2'].
    cbn [fst snd] in *. now subst.
Qed.

(** [parseMessages] calls the parser once per assistant or user message,
    in order, with the id and the whole text of the message, on the states
    kept from the call before, or on no state at all after the reset of a
    development build that is not loading. *)
Lemma parseMessages_calls dev messages isLoading h :
  snd (parseMessages dev messages isLoading h)
  = snd (parseEach (parserCalls messages)
           (if dev && negb isLoading then ∅ else parserStates h)).
Proof.
  unfold Parser.parseMessages.
  destruct (dev && negb isLoading); apply parseLoop_calls.
Qed.

End ParserSteps.

Section ParserExamples.
Import JS Parser.

Lemma parse_idempotent_chunk_invariant_witness :
  sameOutcome
    (exampleDeliver "m1" ["Hi <boltArt"; "Hi <boltArt"; exampleText] ∅)
    (exampleDeliver "m1" [exampleText] ∅)
  ∧ openClose (snd (fst (exampleParse "m1" "Hi <boltArt"
                           (fst (fst (exampleParse "m1" "Hi <boltArt" ∅)))))) = []
  ∧ sameOutcome (exampleDeliver "m1" (prefixes exampleText) ∅)
                (exampleDeliver "m1" [exampleText] ∅).
Proof.
  apply (parse_idempotent_chunk_invariant
           "<boltArtifact" "</boltArtifact>" "<boltAction" "</boltAction>" exampleAttribute
           ltac:(discriminate) ltac:(discriminate)
           "m1" ∅ "Hi <boltArt" ["Hi <boltArt"; exampleText] exampleText).
  - reflexivity.
  - apply (growing_more "Hi <boltArt" EmptyString).
    apply (growing_more "Hi <boltArt"
             (dropStr (String.length "Hi <boltArt") exampleText)).
    apply growing_one.
  - discriminate.
Defined.

(** The events of the example text, delivered at once and one character
    at a time. *)
Lemma example_events :
  snd (exampleDeliver "m1" [exampleText] ∅)
  = [ArtifactOpen "m1" "a1" "Demo";
     ActionOpen "m1" "a1" 0 "file" "a.txt";
     ActionClose "m1" "a1" 0 "file" "a.txt" "x <boltAction y";
     ActionOpen "m1" "a1" 1 "shell" EmptyString;
     ActionClose "m1" "a1" 1 "shell" EmptyString "npm i";
     ArtifactClose "m1" "a1"]
  ∧ openClose (snd (exampleDeliver "m1" (prefixes exampleText) ∅))
    = snd (exampleDeliver "m1" [exampleText] ∅).
Proof. split; vm_compute; reflexivity. Qed.

End ParserExamples.

(** * Further properties of the deploy code *)

Ltac in_list := repeat first [apply list_elem_of_here | apply list_elem_of_further].

(** ** Sanitised names: [replace(/[/:]/g, '-')] *)

Section NameFacts.
Import JS Text.

Lemma includes_char_cons c a s :
  includes (String a s) (String c EmptyString) = Ascii.eqb c a || includes s (String c EmptyString).
Proof.
  unfold includes. cbn [indexOf startsWith].
  destruct (Ascii.eqb c a); [reflexivity|].
  cbn [orb]. now destruct (indexOf (String c EmptyString) s).
Qed.

(** X1.  The sanitised name has the length of the name and holds no slash and
    no colon; a name without slash and colon is left as it is, so
    sanitising twice changes nothing more. *)
Theorem replaceSlashColon_safe (s : string) :
  String.length (replaceSlashColon s) = String.length s
  ∧ includes (replaceSlashColon s) "/" = false
  ∧ includes (replaceSlashColon s) ":" = false
  ∧ (includes s "/" || includes s ":" = false → replaceSlashColon s = s)
  ∧ replaceSlashColon (replaceSlashColon s) = replaceSlashColon s.
Proof.
  induction s as [|c s (IHlen & IHslash & IHcolon & IHsame & IHtwice)].
  - repeat split; reflexivity.
  - cbn [replaceSlashColon String.length].
    rewrite !includes_char_cons, IHslash, IHcolon, IHlen, !orb_false_r.
    split; [reflexivity|].
    destruct (Ascii.eqb_spec c "/") as [->|Hslash]; cbn [orb].
    { repeat split; try reflexivity.
      - intros H. discriminate H.
      - cbn [replaceSlashColon]. now rewrite IHtwice. }
    destruct (Ascii.eqb_spec c ":") as [->|Hcolon].
    { repeat split; try reflexivity.
      - intros H. cbn in H. rewrite orb_true_r in H. discriminate H.
      - cbn [replaceSlashColon]. now rewrite IHtwice. }
    assert (Hs : Ascii.eqb "/" c = false) by (apply Ascii.eqb_neq; congruence).
    assert (Hc : Ascii.eqb ":" c = false) by (apply Ascii.eqb_neq; congruence).
    rewrite Hs, Hc.
    assert (Hs' : Ascii.eqb c "/" = false) by (now apply Ascii.eqb_neq).
    assert (Hc' : Ascii.eqb c ":" = false) by (now apply Ascii.eqb_neq).
    repeat split; try reflexivity.
    + cbn [orb]. intros H. now rewrite IHsame.
    + cbn [replaceSlashColon]. now rewrite Hs', Hc', IHtwice.
Qed.

End NameFacts.

(** ** Decimal digits: [toString(10)] and [parseInt] *)

Section DigitFacts.
Import JS Text Detect.

Lemma allChars_app p a b : allChars p (a +:+ b) = allChars p a && allChars p b.
Proof.
  induction a as [|c a IH]; [reflexivity|].
  rewrite append_cons. cbn [allChars]. now rewrite IH, andb_assoc.
Qed.

(** The characters [digitsFrom] writes are digits of the radix. *)
Lemma digitsFrom_chars (p : ascii → bool) radix :
  (∀ d, (0 ≤ d < radix)%Z → p (digitChar d) = true) →
  (0 < radix)%Z →
  ∀ fuel n acc, 0 < fuel →
    ∃ ds, digitsFrom radix fuel n acc = ds +:+ acc
      ∧ 1 ≤ String.length ds ≤ fuel ∧ allChars p ds = true.
Proof.
  intros Hp Hr. induction fuel as [|fuel IH]; intros n acc Hf; [lia|].
  cbn [digitsFrom].
  assert (Hc : p (digitChar (n mod radix)) = true) by (apply Hp, Z.mod_pos_bound; lia).
  destruct (n / radix =? 0)%Z.
  - exists (String (digitChar (n mod radix)) EmptyString).
    split; [reflexivity|]. cbn. rewrite Hc. split; [lia | reflexivity].
  - destruct fuel as [|fuel].
    + exists (String (digitChar (n mod radix)) EmptyString).
      split; [reflexivity|]. cbn. rewrite Hc. split; [lia | reflexivity].
    + destruct (IH (n / radix)%Z (String (digitChar (n mod radix)) acc)) as (ds & Heq & Hlen & Hall);
        [lia|].
      exists (ds +:+ String (digitChar (n mod radix)) EmptyString).
      rewrite Heq, append_assoc, length_append, allChars_app, Hall.
      split; [reflexivity|]. cbn. rewrite Hc. split; [lia | reflexivity].
Qed.

Lemma isDigit_digitChar d : (0 ≤ d < 10)%Z → isDigit (digitChar d) = true.
Proof.
  intros Hd. unfold isDigit, digitChar.
  destruct (Z.ltb_spec d 10); [|lia].
  rewrite N_ascii_embedding by lia.
  apply andb_true_iff. split; apply N.leb_le; lia.
Qed.

Lemma decimalFrom_digit v d rest :
  (0 ≤ d < 10)%Z →
  decimalFrom v (String (digitChar d) rest) = decimalFrom (v * 10 + d) rest.
Proof.
  intros Hd. cbn [decimalFrom]. unfold digitChar.
  destruct (Z.ltb_spec d 10); [|lia].
  rewrite N_ascii_embedding by lia. f_equal. lia.
Qed.

Lemma digitsFrom_decimal fuel : ∀ n acc,
  (0 ≤ n < 2 ^ Z.of_nat fuel)%Z → 0 < fuel →
  ∃ ds, digitsFrom 10 fuel n acc = ds +:+ acc
    ∧ ∀ v rest, decimalFrom v (ds +:+ rest)
                = decimalFrom (v * 10 ^ Z.of_nat (String.length ds) + n) rest.
Proof.
  induction fuel as [|fuel IH]; intros n acc Hn Hf; [lia|].
  assert (Hmod : (0 ≤ n mod 10 < 10)%Z) by (apply Z.mod_pos_bound; lia).
  assert (Hdiv : (n = 10 * (n / 10) + n mod 10)%Z) by (apply Z.div_mod; lia).
  cbn [digitsFrom].
  destruct (Z.eqb_spec (n / 10) 0) as [Hz|Hz].
  - exists (String (digitChar (n mod 10)) EmptyString). split; [reflexivity|].
    intros v rest. rewrite append_cons, decimalFrom_digit by exact Hmod.
    cbn [append String.length]. f_equal. change (10 ^ Z.of_nat 1)%Z with 10%Z. lia.
  - assert (Hq : (0 < n / 10)%Z).
    { assert (0 ≤ n / 10)%Z by (apply Z.div_pos; lia). lia. }
    assert (Hfuel : 0 < fuel).
    { destruct fuel; [|lia]. simpl in Hn. lia. }
    destruct (IH (n / 10)%Z (String (digitChar (n mod 10)) acc)) as (ds & Heq & Hparse);
      [|exact Hfuel|].
    { split; [lia|].
      rewrite Nat2Z.inj_succ, Z.pow_succ_r in Hn by lia. lia. }
    exists (ds +:+ String (digitChar (n mod 10)) EmptyString).
    split; [rewrite Heq; now rewrite append_assoc|].
    intros v rest. rewrite append_assoc, Hparse, append_cons, decimalFrom_digit by exact Hmod.
    cbn [append]. f_equal. rewrite length_append. cbn [String.length].
    replace (Z.of_nat (String.length ds + 1)) with (Z.succ (Z.of_nat (String.length ds))) by lia.
    rewrite Z.pow_succ_r by lia. lia.
Qed.

Lemma toString10_spec n :
  (0 ≤ n)%Z →
  toString 10 n ≠ EmptyString
  ∧ allChars isDigit (toString 10 n) = true
  ∧ parseInt10 (toString 10 n) = n.
Proof.
  intros Hn. unfold toString.
  destruct (Z.ltb_spec n 0); [lia|].
  assert (Hfuel : (0 ≤ n < 2 ^ Z.of_nat (S (Z.to_nat (Z.log2 n))))%Z).
  { split; [lia|]. rewrite Nat2Z.inj_succ, Z2Nat.id by apply Z.log2_nonneg.
    destruct (Z.eq_dec n 0%Z) as [->|Hne]; [reflexivity|].
    apply Z.log2_spec. lia. }
  destruct (digitsFrom_chars isDigit 10 isDigit_digitChar ltac:(lia)
              (S (Z.to_nat (Z.log2 n))) n EmptyString) as (ds & Heq & Hlen & Hall); [lia|].
  destruct (digitsFrom_decimal (S (Z.to_nat (Z.log2 n))) n EmptyString Hfuel)
    as (ds' & Heq' & Hval); [lia|].
  rewrite Heq, append_nil_r. rewrite Heq, !append_nil_r in Heq'. subst ds'.
  split; [|split; [exact Hall|]].
  - intros ->. simpl in Hlen. lia.
  - unfold parseInt10. rewrite <- (append_nil_r ds), Hval. cbn [decimalFrom]. lia.
Qed.

Lemma takeDigits_app digits rest :
  allChars isDigit digits = true → takeDigits rest = EmptyString →
  takeDigits (digits +:+ rest) = digits.
Proof.
  intros Hall Hrest. induction digits as [|c digits IH]; [exact Hrest|].
  cbn [allChars] in Hall. apply andb_true_iff in Hall as [Hc Hall].
  rewrite append_cons. cbn [takeDigits]. now rewrite Hc, IH.
Qed.

End DigitFacts.

(** ** The port of the Dockerfile: [detectPortFromDockerfile] *)

Section PortFacts.
Import JS Text Detect Server.

Lemma includes_cons_false p a s :
  includes (String a s) p = false → startsWith p (String a s) = false ∧ includes s p = false.
Proof.
  unfold includes. cbn [indexOf].
  destruct (startsWith p (String a s)); [discriminate|].
  destruct (indexOf p s); [discriminate|]. now split.
Qed.

Lemma matchExpose_absent s : includes s "EXPOSE" = false → matchExpose s = None.
Proof.
  induction s as [|a s IH]; intros H; [reflexivity|].
  apply includes_cons_false in H as [Hs Hrest].
  cbn [matchExpose]. unfold exposeAt. rewrite Hs. now apply IH.
Qed.

Lemma skipSpaces_stuck fuel s : spaceWidth s = 0 → skipSpaces fuel s = s.
Proof. intros H. destruct fuel; [reflexivity|]. cbn [skipSpaces]. now rewrite H. Qed.

Lemma spaceWidth_cons a s :
  spaceWidth (String a s)
  = if ((9 <=? Z.of_N (N_of_ascii a)) && (Z.of_N (N_of_ascii a) <=? 13)
        || (Z.of_N (N_of_ascii a) =? 32))%Z then 1
    else
      match encode (takeStr 2 s) with
      | b :: rest' =>
          if ((Z.of_N (N_of_ascii a) =? 194) && (b =? 160))%Z then 2
          else
            match rest' with
            | c :: _ => if isSpace3 (Z.of_N (N_of_ascii a)) b c then 3 else 0
            | [] => 0
            end
      | [] => 0
      end.
Proof. reflexivity. Qed.

(** A white-space character at the head of a text is still there, with
    the same width, when the text goes on. *)
Lemma spaceWidth_app s t w :
  spaceWidth s = S w → spaceWidth (s +:+ t) = S w ∧ S w ≤ String.length s.
Proof.
  destruct s as [|a s]; [discriminate|].
  rewrite append_cons, !spaceWidth_cons.
  destruct ((9 <=? Z.of_N (N_of_ascii a)) && (Z.of_N (N_of_ascii a) <=? 13)
            || (Z.of_N (N_of_ascii a) =? 32))%Z.
  { intros [= <-]. split; [reflexivity | cbn; lia]. }
  destruct s as [|b s]; [discriminate|].
  rewrite append_cons.
  change (takeStr 2 (String b s)) with (String b (takeStr 1 s)).
  change (takeStr 2 (String b (s +:+ t))) with (String b (takeStr 1 (s +:+ t))).
  rewrite !encode_cons.
  destruct ((Z.of_N (N_of_ascii a) =? 194) && (Z.of_N (N_of_ascii b) =? 160))%Z.
  { intros [= <-]. split; [reflexivity | cbn; lia]. }
  destruct s as [|c s]; [discriminate|].
  rewrite append_cons.
  change (takeStr 1 (String c s)) with (String c EmptyString).
  change (takeStr 1 (String c (s +:+ t))) with (String c EmptyString).
  rewrite !encode_cons.
  destruct (isSpace3 _ _ _); [|discriminate].
  intros [= <-]. split; [reflexivity | cbn; lia].
Qed.

Lemma skipSpaces_app fuel : ∀ s t extra,
  skipSpaces fuel s = EmptyString → spaceWidth t = 0 →
  skipSpaces (fuel + extra) (s +:+ t) = t.
Proof.
  induction fuel as [|fuel IH]; intros s t extra Hs Ht.
  - cbn [skipSpaces] in Hs. subst s. now apply skipSpaces_stuck.
  - cbn [skipSpaces] in Hs. cbn [Nat.add skipSpaces].
    destruct (spaceWidth s) as [|w] eqn:Hw.
    + subst s. change (EmptyString +:+ t) with t. now rewrite Ht.
    + destruct (spaceWidth_app s t w Hw) as [Hw' Hlen]. rewrite Hw'.
      rewrite dropStr_app_le by exact Hlen. now apply IH.
Qed.

Lemma isDigit_spaceWidth c s : isDigit c = true → spaceWidth (String c s) = 0.
Proof.
  unfold isDigit, spaceWidth. intros H.
  apply andb_true_iff in H as [H1 H2]. apply N.leb_le in H1, H2.
  assert (Ha : (48 ≤ Z.of_N (N_of_ascii c) ≤ 57)%Z) by lia.
  change (takeStr 3 (String c s)) with (String c (takeStr 2 s)).
  rewrite encode_cons.
  destruct ((9 <=? Z.of_N (N_of_ascii c)) && (Z.of_N (N_of_ascii c) <=? 13)
            || (Z.of_N (N_of_ascii c) =? 32))%Z eqn:E1; [lia|].
  destruct (encode (takeStr 2 s)) as [|b [|c' l]]; [reflexivity| |].
  - destruct ((Z.of_N (N_of_ascii c) =? 194) && (b =? 160))%Z eqn:E2; [lia | reflexivity].
  - destruct ((Z.of_N (N_of_ascii c) =? 194) && (b =? 160))%Z eqn:E2; [lia|].
    unfold isSpace3.
    destruct (Z.eqb_spec (Z.of_N (N_of_ascii c)) 225); [lia|].
    destruct (Z.eqb_spec (Z.of_N (N_of_ascii c)) 226); [lia|].
    destruct (Z.eqb_spec (Z.of_N (N_of_ascii c)) 227); [lia|].
    destruct (Z.eqb_spec (Z.of_N (N_of_ascii c)) 239); [lia|].
    reflexivity.
Qed.

(** The directive itself: [EXPOSE], white space, digits. *)
Lemma exposeAt_directive spaces digits rest :
  spaces ≠ EmptyString → allSpaces spaces = true →
  digits ≠ EmptyString → allChars isDigit digits = true →
  takeDigits rest = EmptyString →
  exposeAt ("EXPOSE" +:+ spaces +:+ digits +:+ rest) = Some digits.
Proof.
  intros Hne Hsp Hd Hall Hrest. unfold exposeAt.
  change (startsWith "EXPOSE" ("EXPOSE" +:+ spaces +:+ digits +:+ rest)) with true.
  change (dropStr 6 ("EXPOSE" +:+ spaces +:+ digits +:+ rest)) with (spaces +:+ digits +:+ rest).
  cbv iota.
  apply bool_decide_eq_true_1 in Hsp.
  assert (Hhead : spaceWidth (digits +:+ rest) = 0).
  { destruct digits as [|c digits]; [congruence|].
    cbn [allChars] in Hall. apply andb_true_iff in Hall as [Hc _].
    rewrite append_cons. now apply isDigit_spaceWidth. }
  assert (Hw : ∃ w, spaceWidth spaces = S w).
  { destruct spaces as [|a spaces]; [congruence|].
    cbn [String.length skipSpaces] in Hsp.
    destruct (spaceWidth (String a spaces)) as [|w]; [discriminate | now exists w]. }
  destruct Hw as [w Hw].
  destruct (spaceWidth_app spaces (digits +:+ rest) w Hw) as [Hw' _].
  rewrite Hw'. rewrite bool_decide_eq_true_2 by lia.
  rewrite length_append.
  rewrite (skipSpaces_app _ spaces (digits +:+ rest) _ Hsp Hhead).
  rewrite takeDigits_app by assumption.
  destruct digits; [congruence | reflexivity].
Qed.

Lemma append_nil_l a : EmptyString +:+ a = a.
Proof. reflexivity. Qed.

(** A start inside a text without [EXPOSE] that is followed by a directive
    gives no match: the only [EXPOSE] that can start there ends on the [E]
    of the directive and is followed by [X]. *)
Lemma exposeAt_before a s tail :
  includes (String a s) "EXPOSE" = false →
  exposeAt (String a s +:+ "EXPOSE" +:+ tail) = None.
Proof.
  intros H. apply includes_cons_false in H as [Hs _].
  unfold exposeAt.
  destruct (startsWith "EXPOSE" (String a s +:+ "EXPOSE" +:+ tail)) eqn:Hst; [|reflexivity].
  revert Hst.
  destruct s as [|c1 [|c2 [|c3 [|c4 [|c5 s]]]]]; rewrite ?append_cons, ?append_nil_l;
    cbn [startsWith] in Hs |- *.
  6: { rewrite Hs. discriminate. }
  all: repeat match goal with
         | |- context [Ascii.eqb ?x ?y] =>
             destruct (Ascii.eqb_spec x y) as [Heq|Hne];
             [first [discriminate Heq | subst] | try discriminate]
         end.
  intros _. reflexivity.
Qed.

Lemma matchExpose_before tail : ∀ s,
  includes s "EXPOSE" = false →
  matchExpose (s +:+ "EXPOSE" +:+ tail) = matchExpose ("EXPOSE" +:+ tail).
Proof.
  induction s as [|a s IH]; intros H; [reflexivity|].
  pose proof (exposeAt_before a s tail H) as Hat.
  apply includes_cons_false in H as [_ Hrest].
  rewrite append_cons in Hat |- *. cbn [matchExpose]. rewrite Hat. now apply IH.
Qed.

Lemma matchExpose_here s digits : exposeAt s = Some digits → matchExpose s = Some digits.
Proof. intros H. destruct s; cbn [matchExpose]; now rewrite H. Qed.

(** X2.  Without the word [EXPOSE] (in capitals) the port is 3000: so it is
    for an empty or a missing Dockerfile. *)
Theorem detectPort_default (dockerfile : string) :
  includes dockerfile "EXPOSE" = false →
  detectPortFromDockerfile dockerfile = 3000%Z.
Proof.
  intros H. unfold detectPortFromDockerfile. now rewrite matchExpose_absent.
Qed.

(** X3.  The port is the number of the first [EXPOSE] directive: after a text
    without [EXPOSE], the word, white space of any kind (line feeds too) and
    the decimal digits of the port, as [toString] writes them, not followed
    by another digit. *)
Theorem detectPort_first_directive (before spaces rest : string) (port : Z) :
  includes before "EXPOSE" = false →
  spaces ≠ EmptyString → allSpaces spaces = true →
  (0 ≤ port < 2 ^ 53)%Z →
  takeDigits rest = EmptyString →
  detectPortFromDockerfile (before +:+ "EXPOSE" +:+ spaces +:+ toString 10 port +:+ rest)
  = port.
Proof.
  intros Hbefore Hne Hsp Hport Hrest.
  destruct (toString10_spec port ltac:(lia)) as (Hd & Hall & Hval).
  unfold detectPortFromDockerfile.
  rewrite matchExpose_before by exact Hbefore.
  rewrite (matchExpose_here _ (toString 10 port)); [exact Hval|].
  now apply exposeAt_directive.
Qed.

End PortFacts.

Section PortExamples.
Import JS Text Server.

Lemma detectPort_default_witness :
  detectPortFromDockerfile ("FROM nginx" +:+ LF +:+ "expose 8080" +:+ LF) = 3000%Z.
Proof. apply detectPort_default. reflexivity. Defined.

Lemma detectPort_first_directive_witness :
  detectPortFromDockerfile
    ("FROM node:20-alpine" +:+ LF +:+ "# Expose default port" +:+ LF +:+ "EXPOS"
     +:+ "EXPOSE" +:+ (" " +:+ LF +:+ "  ") +:+ toString 10 8080 +:+ "/tcp")
  = 8080%Z.
Proof.
  apply (detectPort_first_directive
           ("FROM node:20-alpine" +:+ LF +:+ "# Expose default port" +:+ LF +:+ "EXPOS")
           (" " +:+ LF +:+ "  ") "/tcp" 8080); try reflexivity; try lia.
  intros H. discriminate H.
Defined.

End PortExamples.

(** ** The Dockerfile the client generates and the port the server reads *)

Section DockerfileFacts.
Import JS Text Detect Docker Server.

Lemma agree_false_app tag : ∀ s more,
  agree tag s = false → startsWith tag (s +:+ more) = false.
Proof.
  induction tag as [|a tag IH]; intros s more H; [discriminate|].
  destruct s as [|b s]; [discriminate|].
  rewrite append_cons. cbn [agree startsWith] in *.
  destruct (Ascii.eqb a b); [now apply IH | reflexivity].
Qed.

Lemma matchExpose_skip a : ∀ b, noExpose a = true → matchExpose (a +:+ b) = matchExpose b.
Proof.
  induction a as [|c a IH]; intros b H; [reflexivity|].
  cbn [noExpose] in H. apply andb_true_iff in H as [Hc Ha].
  apply negb_true_iff in Hc. apply (agree_false_app _ _ b) in Hc.
  rewrite append_cons in Hc |- *.
  cbn [matchExpose]. unfold exposeAt. rewrite Hc. now apply IH.
Qed.

Lemma noExpose_digits s : allChars isDigit s = true → noExpose s = true.
Proof.
  induction s as [|c s IH]; [reflexivity|].
  cbn [allChars]. intros H. apply andb_true_iff in H as [Hc Hs].
  cbn [noExpose agree].
  destruct (Ascii.eqb_spec "E" c) as [<-|_]; [discriminate Hc | now apply IH].
Qed.

Lemma detectPort_generated d :
  noExpose (nodeVersion d) = true →
  noExpose (buildCommand d) = true →
  noExpose (buildOutputDir d) = true →
  detectPortFromDockerfile (generateDockerfile d) = parseInt10 (composePort d).
Proof.
  intros Hv Hb Ho.
  unfold detectPortFromDockerfile, generateDockerfile, composePort, installCmd, copyLockfile.
  destruct (type d); [destruct (hasBuildScript d)| | |];
    destruct (packageManager d); cbn [unlines foldr]; rewrite ?append_assoc;
    repeat (rewrite matchExpose_skip by (first [assumption | vm_compute; reflexivity]));
    match goal with
    | |- context [matchExpose (?line +:+ LF +:+ ?rest)] =>
        generalize rest; intros rest';
        rewrite (matchExpose_here (line +:+ LF +:+ rest') (dropStr 7 line)) by reflexivity
    end; reflexivity.
Qed.

Lemma matchDigits_spec : ∀ s digits,
  matchDigits s = Some digits → digits ≠ EmptyString ∧ allChars isDigit digits = true.
Proof.
  assert (Htake : ∀ s, allChars isDigit (takeDigits s) = true).
  { induction s as [|c s IH]; [reflexivity|]. cbn [takeDigits].
    destruct (isDigit c) eqn:Hc; [|reflexivity]. cbn [allChars]. now rewrite Hc, IH. }
  induction s as [|c s IH]; intros digits H; [discriminate|].
  cbn [matchDigits] in H. destruct (isDigit c) eqn:Hc.
  - injection H as <-. split; [discriminate|]. cbn [allChars]. now rewrite Hc, Htake.
  - now apply IH.
Qed.

(** What the steps of [readPackage] can do to a detection: the type, the
    package flag and the package manager stay; the Node version stays or
    becomes a run of digits; the build script is found or stays; the
    output directory stays or becomes that of a framework. *)
Let keeps (r r' : ProjectDetection) : Prop :=
  type r' = type r ∧ hasPackageJson r' = hasPackageJson r
  ∧ packageManager r' = packageManager r
  ∧ (nodeVersion r' = nodeVersion r
     ∨ nodeVersion r' ≠ EmptyString ∧ allChars isDigit (nodeVersion r') = true)
  ∧ (hasBuildScript r' = true ∧ buildCommand r' = "npm run build"
     ∨ hasBuildScript r' = hasBuildScript r ∧ buildCommand r' = buildCommand r)
  ∧ (buildOutputDir r' = buildOutputDir r
     ∨ buildOutputDir r' ∈ [".next"; ".output"; "build"; "dist"]).

Lemma keeps_refl r : keeps r r.
Proof. unfold keeps. tauto. Qed.

Lemma keeps_if r (c : bool) a b : keeps r a → keeps r b → keeps r (if c then a else b).
Proof. now destruct c. Qed.

Lemma keeps_setStartCommand r x a : keeps r a → keeps r (setStartCommand x a).
Proof. exact id. Qed.

Lemma keeps_setBuildOutputDir r x a :
  x ∈ [".next"; ".output"; "build"; "dist"] → keeps r a → keeps r (setBuildOutputDir x a).
Proof. unfold keeps. cbn. tauto. Qed.

Lemma keeps_setNodeVersion r x a :
  x ≠ EmptyString → allChars isDigit x = true → keeps r a → keeps r (setNodeVersion x a).
Proof. unfold keeps. cbn. tauto. Qed.

Lemma keeps_build r a :
  keeps r a → keeps r (setBuildCommand "npm run build" (setHasBuildScript true a)).
Proof. unfold keeps. cbn. tauto. Qed.

Ltac keeps_step :=
  lazymatch goal with
  | |- keeps _ (if _ then _ else _) => apply keeps_if
  | |- keeps _ (setStartCommand _ _) => apply keeps_setStartCommand
  | |- keeps _ (setBuildCommand _ (setHasBuildScript true _)) => apply keeps_build
  | |- keeps _ (setBuildOutputDir _ _) => apply keeps_setBuildOutputDir; [in_list|]
  | |- keeps ?r ?r => apply keeps_refl
  | |- keeps _ _ => assumption
  end.

Ltac keeps_let :=
  lazymatch goal with
  | |- keeps ?r (let result := ?a in @?body result) =>
      let x := fresh "result" in
      let Hx := fresh "Hresult" in
      assert (Hx : keeps r a) by (repeat keeps_step);
      generalize a Hx; clear Hx; intros x Hx;
      change (keeps r (body x)); cbv beta
  end.

Lemma readPackage_keeps pkg r : keeps r (readPackage pkg r).
Proof.
  cbv delta [readPackage]. cbv beta.
  case (prop (Some pkg) "scripts"); [intros scripts|apply keeps_refl].
  keeps_let.
  lazymatch goal with
  | |- keeps ?r (let started := ?e in @?body started) =>
      assert (Hs : ∀ x, e = Some x → keeps r x);
      [ intros x;
        repeat case (isTruthy _); try case (_ ≫= toText);
        intros; simplify_eq; repeat keeps_step
      | generalize e Hs; clear Hs; intros started Hs;
        change (keeps r (body started)); cbv beta;
        destruct started as [x|]; [specialize (Hs x eq_refl) | assumption] ]
  end.
  keeps_let. cbv zeta.
  destruct (optProp (optProp (Some pkg) "engines") "node") as [[| | |s| |]|];
    repeat keeps_step.
  destruct (matchDigits s) as [digits|] eqn:Hd; [|assumption].
  apply matchDigits_spec in Hd as [Hne Hall].
  now apply keeps_setNodeVersion.
Qed.

Variable JSON_parse : string → option json.

(** The detection after the [try] block on [package.json]. *)
Lemma afterPackage_keeps text r :
  keeps r (match JSON_parse text with
           | Some pkg => readPackage pkg r
           | None => r
           end).
Proof. destruct (JSON_parse text); [apply readPackage_keeps | apply keeps_refl]. Qed.

Ltac with_package :=
  match goal with
  | |- context [match JSON_parse ?text with Some pkg => readPackage pkg ?r | None => _ end] =>
      let r' := fresh "r" in
      pose proof (afterPackage_keeps text r) as (Ht & Hp & Hm & Hv & Hb & Ho);
      set (r' := match JSON_parse text with
                 | Some pkg => readPackage pkg r
                 | None => r
                 end) in *;
      clearbody r'; destruct r' as [ty hp hb bc sc bod nv pm];
      cbn in Ht, Hp, Hm, Hv, Hb, Ho; subst ty hp pm
  end.

Lemma detectProject_classes (fileSet : list (string * string)) :
  let d := detectProject JSON_parse fileSet in
  type d
  = (if truthy (getFile "requirements.txt" fileSet) || truthy (getFile "pyproject.toml" fileSet)
        || truthy (getFile "setup.py" fileSet) then python
     else if truthy (getFile "package.json" fileSet) then node
     else if truthy (getFile "index.html" fileSet) then static
     else unknown)
  ∧ hasPackageJson d = truthy (getFile "package.json" fileSet)
  ∧ packageManager d
    = (if truthy (getFile "package.json" fileSet) && truthy (getFile "pnpm-lock.yaml" fileSet)
       then pnpm
       else if truthy (getFile "package.json" fileSet) && truthy (getFile "yarn.lock" fileSet)
       then yarn
       else npm).
Proof.
  unfold detectProject. cbv zeta.
  destruct (truthy (getFile "package.json" fileSet)); [with_package|];
    destruct (truthy (getFile "pnpm-lock.yaml" fileSet));
    destruct (truthy (getFile "yarn.lock" fileSet));
    destruct (truthy (getFile "requirements.txt" fileSet));
    destruct (truthy (getFile "pyproject.toml" fileSet));
    destruct (truthy (getFile "setup.py" fileSet));
    destruct (truthy (getFile "main.py" fileSet));
    destruct (truthy (getFile "index.html" fileSet));
    cbn; repeat split; reflexivity.
Qed.

Ltac by_files fileSet :=
  destruct (truthy (getFile "pnpm-lock.yaml" fileSet));
  destruct (truthy (getFile "yarn.lock" fileSet));
  destruct (truthy (getFile "requirements.txt" fileSet)
            || truthy (getFile "pyproject.toml" fileSet)
            || truthy (getFile "setup.py" fileSet));
  destruct (truthy (getFile "main.py" fileSet));
  destruct (truthy (getFile "index.html" fileSet)).

Lemma detectProject_fields (fileSet : list (string * string)) :
  let d := detectProject JSON_parse fileSet in
  nodeVersion d ≠ EmptyString
  ∧ allChars isDigit (nodeVersion d) = true
  ∧ (if hasBuildScript d
     then buildCommand d = "npm run build" ∧ hasPackageJson d = true
     else buildCommand d = EmptyString)
  ∧ buildOutputDir d ∈ ["dist"; ".next"; ".output"; "build"; "."]
  ∧ (type d = static →
     startCommand d = EmptyString ∧ buildOutputDir d = "." ∧ hasPackageJson d = false).
Proof.
  unfold detectProject. cbv zeta.
  destruct (truthy (getFile "package.json" fileSet)).
  - with_package.
    assert (Hnv : nv ≠ EmptyString ∧ allChars isDigit nv = true).
    { destruct Hv as [->|Hv]; [split; [discriminate | reflexivity] | exact Hv]. }
    assert (Hbc : if hb then bc = "npm run build" else bc = EmptyString).
    { destruct Hb as [[-> ->]|[-> ->]]; reflexivity. }
    assert (Hbod : bod ∈ ["dist"; ".next"; ".output"; "build"; "."]).
    { destruct Ho as [->|Ho]; [in_list|].
      repeat (apply elem_of_cons in Ho as [->|Ho]; [in_list|]).
      now apply elem_of_nil in Ho. }
    clear Hv Hb Ho. destruct Hnv as [Hn1 Hn2].
    by_files fileSet; cbn; repeat split; try assumption; try discriminate;
      destruct hb; try split; assumption || reflexivity.
  - by_files fileSet; cbn; repeat split; try discriminate; try reflexivity; in_list.
Qed.

(** X4.  The type and the package manager of the detection depend on which
    of the marker files have a non-empty text (an empty file counts as a
    missing one) and not on what [package.json] holds: a non-empty Python
    marker wins over a non-empty [package.json], which wins over a
    non-empty [index.html]; the package manager is read from the non-empty
    lock files, and only next to a non-empty [package.json]. *)
Theorem detectProject_type_by_files (fileSet : list (string * string)) :
  let d := detectProject JSON_parse fileSet in
  type d
  = (if truthy (getFile "requirements.txt" fileSet) || truthy (getFile "pyproject.toml" fileSet)
        || truthy (getFile "setup.py" fileSet) then python
     else if truthy (getFile "package.json" fileSet) then node
     else if truthy (getFile "index.html" fileSet) then static
     else unknown)
  ∧ hasPackageJson d = truthy (getFile "package.json" fileSet)
  ∧ packageManager d
    = (if truthy (getFile "package.json" fileSet) && truthy (getFile "pnpm-lock.yaml" fileSet)
       then pnpm
       else if truthy (getFile "package.json" fileSet) && truthy (getFile "yarn.lock" fileSet)
       then yarn
       else npm).
Proof. exact (detectProject_classes fileSet). Qed.

(** X5.  Whatever the files hold, the detection is well formed: the Node
    version is a non-empty run of digits; a build script comes with the
    command [npm run build] and a [package.json], and without one the build
    command is empty; the output directory is one of five; a static site
    has no start command and is served from [.]. *)
Theorem detectProject_well_formed (fileSet : list (string * string)) :
  let d := detectProject JSON_parse fileSet in
  nodeVersion d ≠ EmptyString
  ∧ allChars isDigit (nodeVersion d) = true
  ∧ (if hasBuildScript d
     then buildCommand d = "npm run build" ∧ hasPackageJson d = true
     else buildCommand d = EmptyString)
  ∧ buildOutputDir d ∈ ["dist"; ".next"; ".output"; "build"; "."]
  ∧ (type d = static →
     startCommand d = EmptyString ∧ buildOutputDir d = "." ∧ hasPackageJson d = false).
Proof. exact (detectProject_fields fileSet). Qed.

(** X6.  The port the server reads from the Dockerfile generated for a
    detection is the port the compose file publishes: 80 for a static
    site, 8000 for Python, 3000 otherwise. *)
Theorem generated_port_agrees (fileSet : list (string * string)) :
  let d := detectProject JSON_parse fileSet in
  detectPortFromDockerfile (generateDockerfile d) = parseInt10 (composePort d)
  ∧ parseInt10 (composePort d)
    = match type d with static => 80 | python => 8000 | _ => 3000 end%Z.
Proof.
  intros d. split.
  - destruct (detectProject_fields fileSet) as (_ & Hv & Hb & Ho & _).
    fold d in Hv, Hb, Ho.
    apply detectPort_generated.
    + now apply noExpose_digits.
    + destruct (hasBuildScript d); [destruct Hb as [-> _] | rewrite Hb]; reflexivity.
    + repeat (apply elem_of_cons in Ho as [->|Ho]; [reflexivity|]).
      now apply elem_of_nil in Ho.
  - unfold composePort. now destruct (type d).
Qed.

(** X7.  A [package.json] that [JSON.parse] rejects, or that is the JSON
    [null], still makes the project a Node project (unless a Python marker
    is there), with the defaults: no build script, no build command, output
    in [dist], Node 20, and an empty start command. *)
Theorem detectProject_unreadable_package (fileSet : list (string * string)) (text : string) :
  getFile "package.json" fileSet = Some text →
  text ≠ EmptyString →
  JSON_parse text = None ∨ JSON_parse text = Some JNull →
  let d := detectProject JSON_parse fileSet in
  let isPython :=
    truthy (getFile "requirements.txt" fileSet) || truthy (getFile "pyproject.toml" fileSet)
    || truthy (getFile "setup.py" fileSet) in
  type d = (if isPython then python else node)
  ∧ hasPackageJson d = true
  ∧ hasBuildScript d = false
  ∧ buildCommand d = EmptyString
  ∧ buildOutputDir d = "dist"
  ∧ nodeVersion d = "20"
  ∧ startCommand d
    = (if isPython
       then if truthy (getFile "main.py" fileSet) then "python main.py" else "python app.py"
       else EmptyString).
Proof.
  intros Hfile Htext Hparse. unfold detectProject. cbv zeta.
  rewrite Hfile. change (default EmptyString (Some text)) with text.
  rewrite (truthy_Some text Htext).
  assert (Hsame : ∀ r, match JSON_parse text with
                       | Some pkg => readPackage pkg r
                       | None => r
                       end = r).
  { intros r. destruct Hparse as [->| ->]; reflexivity. }
  rewrite Hsame.
  by_files fileSet; cbn; repeat split; reflexivity.
Qed.

Lemma includes_here p rest : includes (p +:+ rest) p = true.
Proof. apply (includes_occurrence p EmptyString rest). Qed.

Lemma includes_skip a b p : includes b p = true → includes (a +:+ b) p = true.
Proof.
  intros H. unfold includes in H.
  destruct (indexOf p b) as [i|] eqn:Hi; [|discriminate].
  apply indexOf_Some in Hi as (_ & Hst & _).
  apply startsWith_true in Hst.
  rewrite <- (takeStr_dropStr i b), Hst, <- append_assoc.
  apply includes_occurrence.
Qed.

Ltac find_line :=
  cbn [unlines foldr]; rewrite ?append_assoc;
  repeat first [apply includes_here | apply includes_skip].

(** X8.  For a Node project the Dockerfile copies the lock file of the package
    manager detected.  With pnpm or yarn that lock file is in the file set;
    with npm, the default, [package-lock.json] is copied whether or not the
    file set has one. *)
Theorem dockerfile_copies_lockfile (fileSet : list (string * string)) :
  let d := detectProject JSON_parse fileSet in
  type d = node →
  match packageManager d with
  | pnpm =>
      truthy (getFile "pnpm-lock.yaml" fileSet) = true
      ∧ includes (generateDockerfile d) "COPY pnpm-lock.yaml ./" = true
  | yarn =>
      truthy (getFile "yarn.lock" fileSet) = true
      ∧ includes (generateDockerfile d) "COPY yarn.lock ./" = true
  | npm => includes (generateDockerfile d) "COPY package-lock.json ./" = true
  end.
Proof.
  intros d Htype.
  destruct (detectProject_classes fileSet) as (_ & _ & Hpm). fold d in Hpm.
  unfold generateDockerfile, copyLockfile. rewrite Htype.
  destruct (packageManager d); [| split | split].
  - destruct (hasBuildScript d); find_line.
  - destruct (truthy (getFile "package.json" fileSet)), (truthy (getFile "pnpm-lock.yaml" fileSet)),
      (truthy (getFile "yarn.lock" fileSet)); try discriminate Hpm; reflexivity.
  - destruct (hasBuildScript d); find_line.
  - destruct (truthy (getFile "package.json" fileSet)), (truthy (getFile "pnpm-lock.yaml" fileSet)),
      (truthy (getFile "yarn.lock" fileSet)); try discriminate Hpm; reflexivity.
  - destruct (hasBuildScript d); find_line.
Qed.

End DockerfileFacts.

Section DockerfileExamples.
Import JS Text Detect Docker Server.

Lemma detectProject_unreadable_package_witness :
  let d := detectProject parseVite [("package.json", "{"); ("yarn.lock", "# yarn")] in
  type d = node
  ∧ hasPackageJson d = true
  ∧ hasBuildScript d = false
  ∧ buildCommand d = EmptyString
  ∧ buildOutputDir d = "dist"
  ∧ nodeVersion d = "20"
  ∧ startCommand d = EmptyString.
Proof.
  apply (detectProject_unreadable_package parseVite
           [("package.json", "{"); ("yarn.lock", "# yarn")] "{");
    [reflexivity | discriminate | left; reflexivity].
Defined.

Lemma dockerfile_copies_lockfile_witness :
  includes (generateDockerfile (detectProject parseVite [("package.json", viteText)]))
    "COPY package-lock.json ./" = true.
Proof.
  apply (dockerfile_copies_lockfile parseVite [("package.json", viteText)]). reflexivity.
Defined.

End DockerfileExamples.

(** ** The files collected from the container: [getAllFiles] *)

Section CollectFacts.
Import JS Text Docker.

Lemma entry_induction (P : entry → Prop) :
  (∀ name content, P (FileEntry name content)) →
  (∀ name, P (DirEntry name None)) →
  (∀ name children, Forall P children → P (DirEntry name (Some children))) →
  (∀ name, P (OtherEntry name)) →
  ∀ e, P e.
Proof.
  intros Hfile Hnone Hdir Hother. fix IH 1.
  intros [name content|name [children|]|name]; [apply Hfile | | apply Hnone | apply Hother].
  apply Hdir. induction children as [|e children IHc]; constructor; [apply IH | exact IHc].
Qed.

Lemma getFile_elem_of key v : ∀ fs, getFile key fs = Some v → (key, v) ∈ fs.
Proof.
  induction fs as [|[k' v'] fs IH]; cbn [getFile]; [intros H; discriminate H|].
  destruct (decide (k' = key)) as [->|Hk].
  - intros [= ->]. apply list_elem_of_here.
  - intros H. apply list_elem_of_further, IH, H.
Qed.

Lemma elem_of_getFile key v : ∀ fs, (key, v) ∈ fs → is_Some (getFile key fs).
Proof.
  induction fs as [|[k' v'] fs IH]; intros H.
  - now apply elem_of_nil in H.
  - cbn [getFile]. destruct (decide (k' = key)) as [->|Hk]; [eauto|].
    apply elem_of_cons in H as [[= -> ->]|H]; [congruence | now apply IH].
Qed.

Lemma elem_of_updateFile k v p c : ∀ fs,
  (p, c) ∈ updateFile k v fs → (p = k ∧ c = v) ∨ (p, c) ∈ fs.
Proof.
  induction fs as [|[k' v'] fs IH]; cbn [updateFile]; intros H; [now right|].
  destruct (decide (k' = k)) as [->|Hk];
    apply elem_of_cons in H as [[= -> ->]|H].
  - now left.
  - right. now apply list_elem_of_further.
  - right. apply list_elem_of_here.
  - apply IH in H as [H|H]; [now left|]. right. now apply list_elem_of_further.
Qed.

Lemma elem_of_insertIndex n k v p c : ∀ fs,
  (p, c) ∈ insertIndex n k v fs ↔ (p = k ∧ c = v) ∨ (p, c) ∈ fs.
Proof.
  induction fs as [|[k' v'] fs IH]; cbn [insertIndex].
  - rewrite list_elem_of_singleton. split.
    + intros [= -> ->]. now left.
    + intros [[-> ->]|H]; [reflexivity | now apply elem_of_nil in H].
  - destruct (arrayIndex k') as [m|]; [destruct (m <? n)%Z|];
      rewrite !elem_of_cons, ?IH; split; intros H;
      repeat match goal with
             | H : _ ∨ _ |- _ => destruct H as [H|H]
             | H : _ ∧ _ |- _ => destruct H as [-> ->]
             | H : (_, _) = (_, _) |- _ => injection H as -> ->
             end; auto.
Qed.

(** [fs[key] = value] adds the entry and takes at most the old entry
    of the key away. *)
Lemma elem_of_setFile k v p c fs :
  (p, c) ∈ setFile k v fs → (p = k ∧ c = v) ∨ (p, c) ∈ fs.
Proof.
  unfold setFile. destruct (getFile k fs) as [x|].
  - apply elem_of_updateFile.
  - destruct (decide (k = "__proto__")) as [Hp|Hp]; [now right|].
    destruct (arrayIndex k) as [n|].
    + apply elem_of_insertIndex.
    + rewrite elem_of_app, list_elem_of_singleton.
      intros [H|[= -> ->]]; [now right | now left].
Qed.

Lemma key_updateFile k v p : ∀ fs,
  (∃ c, (p, c) ∈ fs) → ∃ c, (p, c) ∈ updateFile k v fs.
Proof.
  intros fs [c H]. induction fs as [|[k' v'] fs IH]; [now apply elem_of_nil in H|].
  cbn [updateFile]. destruct (decide (k' = k)) as [->|Hk];
    apply elem_of_cons in H as [[= -> ->]|H].
  - exists v. apply list_elem_of_here.
  - exists c. now apply list_elem_of_further.
  - exists v'. apply list_elem_of_here.
  - destruct (IH H) as [c' Hc']. exists c'. now apply list_elem_of_further.
Qed.

(** No key is lost, and the key assigned is there unless it is a new
    [__proto__]. *)
Lemma key_setFile k v p fs :
  (p = k ∧ k ≠ "__proto__") ∨ (∃ c, (p, c) ∈ fs) → ∃ c, (p, c) ∈ setFile k v fs.
Proof.
  intros [[-> Hk]|[c H]].
  - exists v. now apply getFile_elem_of, getFile_setFile.
  - unfold setFile. destruct (getFile k fs) as [x|].
    + apply key_updateFile. eauto.
    + destruct (decide (k = "__proto__")) as [Hp|Hp]; [eauto|].
      destruct (arrayIndex k) as [n|]; exists c.
      * apply elem_of_insertIndex. now right.
      * apply elem_of_app. now left.
Qed.

(** A record without an own [__proto__] never gets one by assignment. *)
Lemma proto_setFile k v fs :
  getFile "__proto__" fs = None → getFile "__proto__" (setFile k v fs) = None.
Proof.
  intros H. destruct (decide (k = "__proto__")) as [->|Hk].
  - unfold setFile. now rewrite H, decide_True.
  - rewrite getFile_setFile_ne by congruence. exact H.
Qed.

(** [Object.assign] adds the entries of the source and keeps the keys of
    the target. *)
Lemma elem_of_assign p c : ∀ sub fs,
  (p, c) ∈ assign fs sub → (p, c) ∈ sub ∨ (p, c) ∈ fs.
Proof.
  unfold assign. induction sub as [|[k w] sub IH]; intros fs H; [now right|].
  cbn [fold_left] in H. apply IH in H as [H|H].
  - left. now apply list_elem_of_further.
  - apply elem_of_setFile in H as [[-> ->]|H]; [left; apply list_elem_of_here | now right].
Qed.

Lemma key_assign p : ∀ sub fs,
  p ≠ "__proto__" →
  (∃ c, (p, c) ∈ sub) ∨ (∃ c, (p, c) ∈ fs) → ∃ c, (p, c) ∈ assign fs sub.
Proof.
  unfold assign. induction sub as [|[k w] sub IH]; intros fs Hp H.
  - destruct H as [[c H]|H]; [now apply elem_of_nil in H | exact H].
  - cbn [fold_left]. apply IH; [exact Hp|].
    destruct H as [[c H]|H].
    + apply elem_of_cons in H as [[= -> ->]|H]; [|left; eauto].
      right. apply key_setFile. now left.
    + right. apply key_setFile. now right.
Qed.

Lemma proto_assign : ∀ sub fs,
  getFile "__proto__" fs = None → getFile "__proto__" (assign fs sub) = None.
Proof.
  unfold assign. induction sub as [|[k w] sub IH]; intros fs H; [exact H|].
  cbn [fold_left]. now apply IH, proto_setFile.
Qed.

(** The loop inside [visit] is [visitAll]. *)
Lemma visit_directory name children basePath files :
  visit (DirEntry name (Some children)) basePath files
  = if skippedDirectory name then Some files
    else subFiles ← visitAll children (relativePath basePath name) [];
         Some (assign files subFiles).
Proof.
  cbn [visit]. destruct (skippedDirectory name); [reflexivity|].
  f_equal. generalize (@nil (string * string)).
  induction children as [|e children IH]; intros acc; [reflexivity|].
  cbn [visitAll]. destruct (visit e (relativePath basePath name) acc); [apply IH | reflexivity].
Qed.

Lemma collected_cons e entries basePath path content :
  collected (e :: entries) basePath path content
  ↔ collected [e] basePath path content ∨ collected entries basePath path content.
Proof.
  split.
  - intros H. inversion H as [? ? name c Hin Hskip|? ? name children ? ? Hin Hskip Hsub]; subst;
      apply elem_of_cons in Hin as [<-|Hin].
    + left. apply collected_file; [apply list_elem_of_here | exact Hskip].
    + right. now apply collected_file.
    + left. eapply collected_dir; [apply list_elem_of_here | exact Hskip | exact Hsub].
    + right. eapply collected_dir; eassumption.
  - intros [H|H];
      inversion H as [? ? name c Hin Hskip|? ? name children ? ? Hin Hskip Hsub]; subst.
    + apply collected_file; [|exact Hskip].
      apply list_elem_of_singleton in Hin as <-. apply list_elem_of_here.
    + eapply collected_dir; [|exact Hskip | exact Hsub].
      apply list_elem_of_singleton in Hin as <-. apply list_elem_of_here.
    + apply collected_file; [now apply list_elem_of_further | exact Hskip].
    + eapply collected_dir; [apply list_elem_of_further, Hin | exact Hskip | exact Hsub].
Qed.

Lemma collected_nil basePath path content : ¬ collected [] basePath path content.
Proof. intros H. inversion H as [? ? ? ? Hin|? ? ? ? ? ? Hin]; now apply elem_of_nil in Hin. Qed.

(** What a visit adds to a record that has no own [__proto__]: the
    collected files, all of them but one whose path is [__proto__], and
    nothing else; no key is lost. *)
Let visited (entries : list entry) (basePath : string)
    (before after : list (string * string)) : Prop :=
  getFile "__proto__" before = None →
  getFile "__proto__" after = None
  ∧ (∀ path content,
       (path, content) ∈ after →
       (path, content) ∈ before ∨ collected entries basePath path content)
  ∧ (∀ path,
       path ≠ "__proto__" →
       (∃ content, (path, content) ∈ before)
       ∨ (∃ content, collected entries basePath path content) →
       ∃ content, (path, content) ∈ after).

Lemma visited_same entries basePath files :
  (∀ path content, ¬ collected entries basePath path content) →
  visited entries basePath files files.
Proof.
  intros Hnone Hp. split; [exact Hp|]. split; [now left|].
  intros path _ [H|[content H]]; [exact H | now apply Hnone in H].
Qed.

Lemma visited_cons e entries basePath files0 files1 files2 :
  visited [e] basePath files0 files1 →
  visited entries basePath files1 files2 →
  visited (e :: entries) basePath files0 files2.
Proof.
  intros H1 H2 Hp. destruct (H1 Hp) as (Hp1 & Hs1 & Hc1).
  destruct (H2 Hp1) as (Hp2 & Hs2 & Hc2). split; [exact Hp2|]. split.
  - intros path content H. apply Hs2 in H as [H|H].
    + apply Hs1 in H as [H|H]; [now left|]. right. apply collected_cons. now left.
    + right. apply collected_cons. now right.
  - intros path Hpath [H|[content H]].
    + apply Hc2; [exact Hpath|]. left. apply Hc1; [exact Hpath|]. now left.
    + apply collected_cons in H as [H|H].
      * apply Hc2; [exact Hpath|]. left. apply Hc1; [exact Hpath|]. right. eauto.
      * apply Hc2; [exact Hpath|]. right. eauto.
Qed.

Lemma visitAll_visited entries :
  Forall (λ e, ∀ basePath before after,
            visit e basePath before = Some after → visited [e] basePath before after) entries →
  ∀ basePath before after,
    visitAll entries basePath before = Some after → visited entries basePath before after.
Proof.
  induction 1 as [|e entries He _ IH]; intros basePath before after Hv; cbn [visitAll] in Hv.
  - injection Hv as <-. apply visited_same. intros path content. apply collected_nil.
  - destruct (visit e basePath before) as [mid|] eqn:Hmid; [|discriminate].
    eapply visited_cons; [apply He, Hmid | apply IH, Hv].
Qed.

Lemma collected_single_file name content basePath path c :
  collected [FileEntry name content] basePath path c
  ↔ content = Some c ∧ skippedFile name = false ∧ path = relativePath basePath name.
Proof.
  split.
  - intros H. inversion H as [? ? ? ? Hin Hskip|? ? ? ? ? ? Hin]; subst;
      apply list_elem_of_singleton in Hin; [|discriminate].
    injection Hin as <- <-. auto.
  - intros (-> & Hskip & ->). apply collected_file; [apply list_elem_of_here | exact Hskip].
Qed.

Lemma collected_single_dir name children basePath path c :
  collected [DirEntry name children] basePath path c
  ↔ ∃ entries, children = Some entries ∧ skippedDirectory name = false
      ∧ collected entries (relativePath basePath name) path c.
Proof.
  split.
  - intros H. inversion H as [? ? ? ? Hin|? ? ? ? ? ? Hin Hskip Hsub]; subst;
      apply list_elem_of_singleton in Hin; [discriminate|].
    injection Hin as <- <-. eauto.
  - intros (entries & -> & Hskip & Hsub).
    eapply collected_dir; [apply list_elem_of_here | exact Hskip | exact Hsub].
Qed.

Lemma collected_single_other name basePath path c :
  ¬ collected [OtherEntry name] basePath path c.
Proof.
  intros H. inversion H as [? ? ? ? Hin|? ? ? ? ? ? Hin]; subst;
    apply list_elem_of_singleton in Hin; discriminate.
Qed.

Lemma visit_visited e : ∀ basePath before after,
  visit e basePath before = Some after → visited [e] basePath before after.
Proof.
  induction e as [name content|name|name children IH|name] using entry_induction;
    intros basePath before after Hv.
  - cbn [visit] in Hv.
    destruct (skippedFile name) eqn:Hskip; [|destruct content as [content|]];
      injection Hv as <-.
    + apply visited_same. intros path c H.
      apply collected_single_file in H as (_ & H & _). congruence.
    + intros Hp. split; [now apply proto_setFile|]. split.
      * intros path c H. apply elem_of_setFile in H as [[-> ->]|H]; [|now left].
        right. now apply collected_single_file.
      * intros path Hpath H. apply key_setFile.
        destruct H as [H|[c H]]; [now right|].
        apply collected_single_file in H as (_ & _ & ->). now left.
    + apply visited_same. intros path c H.
      apply collected_single_file in H as (H & _). discriminate.
  - cbn [visit] in Hv. destruct (skippedDirectory name) eqn:Hskip; [|discriminate].
    injection Hv as <-. apply visited_same. intros path c H.
    apply collected_single_dir in H as (entries & H & _). discriminate.
  - rewrite visit_directory in Hv.
    destruct (skippedDirectory name) eqn:Hskip.
    + injection Hv as <-. apply visited_same. intros path c H.
      apply collected_single_dir in H as (entries & _ & H & _). congruence.
    + destruct (visitAll children (relativePath basePath name) []) as [sub|] eqn:Hsub;
        [|discriminate].
      injection Hv as <-.
      destruct (visitAll_visited children IH _ _ _ Hsub eq_refl) as (Hps & Hs & Hc).
      intros Hp. split; [now apply proto_assign|]. split.
      * intros path c H. apply elem_of_assign in H as [H|H]; [|now left].
        right. apply collected_single_dir. exists children. repeat split; [exact Hskip|].
        destruct (Hs path c H) as [Hnil|Hcol]; [now apply elem_of_nil in Hnil | exact Hcol].
      * intros path Hpath H. apply key_assign; [exact Hpath|].
        destruct H as [H|[c H]]; [now right|]. left.
        apply collected_single_dir in H as (entries & [= <-] & _ & H).
        apply Hc; [exact Hpath|]. right. eauto.
  - cbn [visit] in Hv. injection Hv as <-. apply visited_same. intros path c.
    apply collected_single_other.
Qed.

(** X9.  [getAllFiles] gives the files to collect: every entry of the
    record is a readable file whose name is not skipped ([.DS_Store],
    [.log], [.env...]) under directories that are not skipped
    ([node_modules], [.git], [.cache], [.next]), with its path from the
    base, and that path is not [__proto__]; and every such file has its
    path in the record, but for the one whose path is [__proto__], which
    is lost: its assignment goes to the setter of [Object.prototype]. *)
Theorem getAllFiles_collected (entries : list entry) (basePath : string)
    (fileSet : list (string * string)) :
  getAllFiles (Some entries) basePath = Some fileSet →
  (∀ path content,
     getFile path fileSet = Some content →
     collected entries basePath path content ∧ path ≠ "__proto__")
  ∧ (∀ path content,
       collected entries basePath path content →
       path ≠ "__proto__" → is_Some (getFile path fileSet)).
Proof.
  intros Hget. cbn in Hget.
  assert (Hall : Forall (λ e, ∀ basePath before after,
                           visit e basePath before = Some after →
                           visited [e] basePath before after) entries).
  { apply Forall_forall. intros e _. apply visit_visited. }
  destruct (visitAll_visited entries Hall _ _ _ Hget eq_refl) as (Hp & Hs & Hc). split.
  - intros path content H. split.
    + apply getFile_elem_of in H.
      destruct (Hs path content H) as [Hnil|Hcol]; [now apply elem_of_nil in Hnil | exact Hcol].
    + intros ->. congruence.
  - intros path content H Hpath.
    destruct (Hc path Hpath) as [c Hin]; [right; eauto|].
    eapply elem_of_getFile, Hin.
Qed.

Lemma blocked_cons e entries : blocked (e :: entries) ↔ blocked [e] ∨ blocked entries.
Proof.
  split.
  - intros H. inversion H as [? name Hin Hskip|? name children Hin Hskip Hsub]; subst;
      apply elem_of_cons in Hin as [<-|Hin].
    + left. eapply blocked_here; [apply list_elem_of_here | exact Hskip].
    + right. eapply blocked_here; eassumption.
    + left. eapply blocked_under; [apply list_elem_of_here | exact Hskip | exact Hsub].
    + right. eapply blocked_under; eassumption.
  - intros [H|H];
      inversion H as [? name Hin Hskip|? name children Hin Hskip Hsub]; subst.
    + apply list_elem_of_singleton in Hin as <-.
      eapply blocked_here; [apply list_elem_of_here | exact Hskip].
    + apply list_elem_of_singleton in Hin as <-.
      eapply blocked_under; [apply list_elem_of_here | exact Hskip | exact Hsub].
    + eapply blocked_here; [apply list_elem_of_further, Hin | exact Hskip].
    + eapply blocked_under; [apply list_elem_of_further, Hin | exact Hskip | exact Hsub].
Qed.

Lemma blocked_nil : ¬ blocked [].
Proof. intros H. inversion H as [? ? Hin|? ? ? Hin]; now apply elem_of_nil in Hin. Qed.

Lemma blocked_single e :
  blocked [e]
  ↔ ∃ name children, e = DirEntry name children ∧ skippedDirectory name = false
      ∧ match children with
        | None => True
        | Some entries => blocked entries
        end.
Proof.
  split.
  - intros H. inversion H as [? name Hin Hskip|? name children Hin Hskip Hsub]; subst;
      apply list_elem_of_singleton in Hin as <-; eauto 6.
  - intros (name & [children|] & -> & Hskip & H).
    + eapply blocked_under; [apply list_elem_of_here | exact Hskip | exact H].
    + eapply blocked_here; [apply list_elem_of_here | exact Hskip].
Qed.

Lemma visitAll_None entries :
  Forall (λ e, ∀ basePath acc, visit e basePath acc = None ↔ blocked [e]) entries →
  ∀ basePath acc, visitAll entries basePath acc = None ↔ blocked entries.
Proof.
  induction 1 as [|e entries He _ IH]; intros basePath acc; cbn [visitAll].
  - split; [intros H; discriminate H | intros H; now apply blocked_nil in H].
  - rewrite blocked_cons.
    destruct (visit e basePath acc) as [mid|] eqn:Hmid; cbn [mbind option_bind].
    + rewrite IH. split; [now right|].
      intros [H|H]; [|exact H]. apply (He basePath acc) in H. congruence.
    + split; [|reflexivity]. intros _. left. now apply (He basePath acc).
Qed.

Lemma visit_None e : ∀ basePath acc, visit e basePath acc = None ↔ blocked [e].
Proof.
  induction e as [name content|name|name children IH|name] using entry_induction;
    intros basePath acc; rewrite blocked_single.
  - cbn [visit]. split.
    + destruct (skippedFile name); [|destruct content]; intros H; discriminate H.
    + intros (n & c & H & _). discriminate H.
  - cbn [visit]. destruct (skippedDirectory name) eqn:Hskip.
    + split; [intros H; discriminate H|].
      intros (n & c & [= <- <-] & H & _). congruence.
    + split; [|reflexivity]. intros _. exists name, None. auto.
  - rewrite visit_directory. destruct (skippedDirectory name) eqn:Hskip.
    + split; [intros H; discriminate H|].
      intros (n & c & [= <- <-] & H & _). congruence.
    + pose proof (visitAll_None children IH (relativePath basePath name) []) as Hsub.
      destruct (visitAll children (relativePath basePath name) []) as [sub|];
        cbn [mbind option_bind].
      * split; [intros H; discriminate H|].
        intros (n & c & [= <- <-] & _ & H). now apply Hsub in H.
      * split; [|reflexivity]. intros _. exists name, (Some children).
        repeat split; [exact Hskip | now apply Hsub].
  - cbn [visit]. split; [intros H; discriminate H|].
    intros (n & c & H & _). discriminate H.
Qed.

(** X10.  [getAllFiles] rejects exactly when [readdir] fails on the directory
    itself or on a directory it goes into; what lies under a skipped
    directory, and a file that cannot be read, never make it fail. *)
Theorem getAllFiles_rejects (listing : option (list entry)) (basePath : string) :
  getAllFiles listing basePath = None
  ↔ match listing with
    | None => True
    | Some entries => blocked entries
    end.
Proof.
  destruct listing as [entries|]; [|split; [auto | reflexivity]].
  cbn [getAllFiles mbind option_bind].
  apply visitAll_None, Forall_forall. intros e _. apply visit_None.
Qed.

End CollectFacts.

Section CollectExamples.
Import JS Text Docker.

Lemma getAllFiles_collected_witness :
  (∀ path content,
     getFile path [("index.html", "<html></html>"); ("src/main.js", "let x")] = Some content →
     collected
       [FileEntry "index.html" (Some "<html></html>");
        FileEntry ".env.local" (Some "KEY=1");
        FileEntry "__proto__" (Some "lost");
        DirEntry "node_modules" None;
        DirEntry "src" (Some [FileEntry "main.js" (Some "let x");
                              FileEntry "debug.log" (Some "log")])]
       EmptyString path content
     ∧ path ≠ "__proto__")
  ∧ (∀ path content,
       collected
         [FileEntry "index.html" (Some "<html></html>");
          FileEntry ".env.local" (Some "KEY=1");
          FileEntry "__proto__" (Some "lost");
          DirEntry "node_modules" None;
          DirEntry "src" (Some [FileEntry "main.js" (Some "let x");
                                FileEntry "debug.log" (Some "log")])]
         EmptyString path content →
       path ≠ "__proto__" →
       is_Some (getFile path [("index.html", "<html></html>"); ("src/main.js", "let x")])).
Proof. apply getAllFiles_collected. reflexivity. Defined.

End CollectExamples.

(** ** From the package of the client to the files the server writes *)

Section PackageFacts.
Import JS Text Detect Docker Server Fly.

Variable JSON_parse : string → option json.

(** X11.  The package holds the generated Dockerfile, compose file and ignore
    file in place of any the project had, an [nginx.conf] of its own
    exactly for a static site, and every other file of the project as it
    was. *)
Theorem dockerPackage_files (name : string) (fileContents : list (string * string)) :
  let p := dockerPackage JSON_parse name fileContents in
  let d := detectProject JSON_parse fileContents in
  getFile "Dockerfile" (Docker.files p) = Some (generateDockerfile d)
  ∧ getFile "docker-compose.yml" (Docker.files p) = Some (generateDockerCompose name d)
  ∧ getFile ".dockerignore" (Docker.files p) = Some generateDockerIgnore
  ∧ getFile "nginx.conf" (Docker.files p)
    = match type d with
      | static => Some generateNginxConf
      | _ => getFile "nginx.conf" fileContents
      end
  ∧ ∀ key, key ∉ ["Dockerfile"; "docker-compose.yml"; ".dockerignore"; "nginx.conf"] →
      getFile key (Docker.files p) = getFile key fileContents.
Proof.
  intros p d. subst p. unfold dockerPackage. cbv zeta. fold d. cbn [Docker.files].
  repeat split.
  - destruct (type d); rewrite ?getFile_setFile_ne by discriminate; apply getFile_setFile; discriminate.
  - destruct (type d); rewrite ?getFile_setFile_ne by discriminate; apply getFile_setFile; discriminate.
  - destruct (type d); rewrite ?getFile_setFile_ne by discriminate; apply getFile_setFile; discriminate.
  - destruct (type d); rewrite ?getFile_setFile by discriminate;
      rewrite ?getFile_setFile_ne by discriminate; reflexivity.
  - intros key Hkey.
    assert (H1 : key ≠ "Dockerfile") by (intros ->; apply Hkey; in_list).
    assert (H2 : key ≠ "docker-compose.yml") by (intros ->; apply Hkey; in_list).
    assert (H3 : key ≠ ".dockerignore") by (intros ->; apply Hkey; in_list).
    assert (H4 : key ≠ "nginx.conf") by (intros ->; apply Hkey; in_list).
    destruct (type d); now rewrite !getFile_setFile_ne by assumption.
Qed.

Lemma injectTracker_other flyAppName boltUrl fs key :
  key ≠ "index.html" → getFile key (injectTracker flyAppName boltUrl fs) = getFile key fs.
Proof.
  intros Hne. unfold injectTracker.
  destruct (truthy boltUrl && truthy (getFile "index.html" fs)); [|reflexivity].
  cbv zeta. rewrite getFile_setFile by discriminate.
  destruct (negb _); now rewrite ?setFile_setFile, !getFile_setFile_ne by exact Hne.
Qed.

(** The page after the injection depends on the page alone. *)
Lemma injectTracker_page flyAppName boltUrl fs fs' :
  getFile "index.html" fs = getFile "index.html" fs' →
  getFile "index.html" (injectTracker flyAppName boltUrl fs)
  = getFile "index.html" (injectTracker flyAppName boltUrl fs').
Proof.
  intros H. unfold injectTracker. rewrite H.
  destruct (truthy boltUrl && truthy (getFile "index.html" fs')); [|exact H].
  cbv zeta. rewrite !getFile_setFile by discriminate.
  destruct (negb _); now rewrite ?getFile_setFile by discriminate.
Qed.

(** X12.  The files the server writes: the port comes from the Dockerfile of
    the request (3000 without one); a non-empty [fly.toml] of the request
    is kept and otherwise one is generated for the app and that port; the
    page gets the tracker; every other file is written as it came. *)
Theorem flyFiles_frame (fileSet : list (string * string)) (flyAppName : string)
    (boltUrl : option string) :
  let port := fst (flyFiles fileSet flyAppName boltUrl) in
  let written := snd (flyFiles fileSet flyAppName boltUrl) in
  port = detectPortFromDockerfile (default EmptyString (getFile "Dockerfile" fileSet))
  ∧ (truthy (getFile "fly.toml" fileSet) = true →
     getFile "fly.toml" written = getFile "fly.toml" fileSet)
  ∧ (truthy (getFile "fly.toml" fileSet) = false → (port < 2 ^ 53)%Z →
     getFile "fly.toml" written = Some (generateFlyToml flyAppName port))
  ∧ getFile "index.html" written
    = getFile "index.html" (injectTracker flyAppName boltUrl fileSet)
  ∧ ∀ key, key ≠ "fly.toml" → key ≠ "index.html" →
      getFile key written = getFile key fileSet.
Proof.
  intros port written. subst port written. unfold flyFiles. cbv zeta. cbn [fst snd].
  assert (Hdf : (if truthy (getFile "Dockerfile" fileSet)
                 then default EmptyString (getFile "Dockerfile" fileSet) else EmptyString)
                = default EmptyString (getFile "Dockerfile" fileSet)).
  { destruct (getFile "Dockerfile" fileSet) as [text|]; [|reflexivity].
    cbn. destruct text; reflexivity. }
  rewrite Hdf. split; [reflexivity|].
  destruct (truthy (getFile "fly.toml" fileSet)); cbn [negb];
    (split; [|split; [|split]]); try (intros H; discriminate H).
  - intros _. now apply injectTracker_other.
  - reflexivity.
  - intros key H1 H2. now apply injectTracker_other.
  - intros _ _. rewrite injectTracker_other by discriminate. apply getFile_setFile; discriminate.
  - apply injectTracker_page. now rewrite getFile_setFile_ne by discriminate.
  - intros key H1 H2. rewrite injectTracker_other by exact H2.
    now apply getFile_setFile_ne.
Qed.

Lemma generateDockerfile_nonempty d : generateDockerfile d ≠ EmptyString.
Proof.
  unfold generateDockerfile.
  destruct (type d); [destruct (hasBuildScript d)| | |]; discriminate.
Qed.

(** X13.  From the project to the machine: for the package the client prepares,
    the port the server detects, and writes into the [fly.toml] it
    generates when the project has none, is the port of the Dockerfile and
    of the compose file: 80 for a static site, 8000 for Python, 3000
    otherwise. *)
Theorem package_port_end_to_end (name flyAppName : string) (boltUrl : option string)
    (fileContents : list (string * string)) :
  let p := dockerPackage JSON_parse name fileContents in
  let port := match type (Docker.detection p) with
              | static => 80 | python => 8000 | _ => 3000
              end%Z in
  fst (flyFiles (Docker.files p) flyAppName boltUrl) = port
  ∧ parseInt10 (composePort (Docker.detection p)) = port
  ∧ (truthy (getFile "fly.toml" fileContents) = false →
     getFile "fly.toml" (snd (flyFiles (Docker.files p) flyAppName boltUrl))
     = Some (generateFlyToml flyAppName port)).
Proof.
  intros p port.
  set (d := detectProject JSON_parse fileContents).
  assert (Hd : getFile "Dockerfile" (Docker.files p) = Some (generateDockerfile d)).
  { subst p. unfold dockerPackage. cbv zeta. fold d. cbn [Docker.files].
    destruct (type d); rewrite ?getFile_setFile_ne by discriminate; apply getFile_setFile; discriminate. }
  assert (Htoml : getFile "fly.toml" (Docker.files p) = getFile "fly.toml" fileContents).
  { subst p. unfold dockerPackage. cbv zeta. fold d. cbn [Docker.files].
    destruct (type d); now rewrite !getFile_setFile_ne by discriminate. }
  assert (Hport : fst (flyFiles (Docker.files p) flyAppName boltUrl) = port).
  { unfold flyFiles. cbv zeta. cbn [fst]. rewrite Hd.
    rewrite truthy_Some by apply generateDockerfile_nonempty.
    change (default EmptyString (Some (generateDockerfile d))) with (generateDockerfile d).
    destruct (detectProject_fields JSON_parse fileContents) as (_ & Hv & Hb & Ho & _).
    fold d in Hv, Hb, Ho.
    rewrite detectPort_generated.
    - subst port. change (Docker.detection p) with d. unfold composePort.
      now destruct (type d).
    - now apply noExpose_digits.
    - destruct (hasBuildScript d); [destruct Hb as [-> _] | rewrite Hb]; reflexivity.
    - repeat (apply elem_of_cons in Ho as [->|Ho]; [reflexivity|]).
      now apply elem_of_nil in Ho. }
  split; [exact Hport|]. split.
  - subst port. change (Docker.detection p) with d. unfold composePort.
    now destruct (type d).
  - intros Hnone. rewrite <- Hport.
    unfold flyFiles. cbv zeta. cbn [fst snd].
    rewrite Htoml, Hnone. cbn [negb].
    rewrite injectTracker_other by discriminate. apply getFile_setFile; discriminate.
Qed.

End PackageFacts.

(** ** The request of the one-click deploy at the endpoint: [action] *)

Section RoutingFacts.
Import JS Text.

Variable URL_hostname : string → option string.

(** X14.  The request the one-click deploy sends is never refused by [action]:
    it is routed to the Fly deploy with the files of the package, the
    region [iad] and the origin of the page, under the app name the client
    chose, or, when that name is empty (a stored URL whose hostname starts
    with a dot), under the image name with [/] and [:] replaced.  A fresh
    name is never empty, so a first deploy always runs under it. *)
Theorem one_click_request_routed (result : OneClick.prepared)
    (existingUrl : option string) (now : Z) (origin : string) :
  ∃ request name,
    OneClick.deployRequest URL_hostname (Some result) existingUrl now origin = Some request
    ∧ Server.action "POST" (inl (Server.bodyOf request))
      = Server.HandleFlyDeploy
          (OneClick.projectName result +:+ ":latest") (OneClick.files result)
          name "iad" (Some origin)
    ∧ name = (if bool_decide (OneClick.flyAppName request ≠ EmptyString)
              then OneClick.flyAppName request
              else replaceSlashColon (OneClick.projectName result +:+ ":latest"))
    ∧ (truthy existingUrl = false ∨ URL_hostname (default EmptyString existingUrl) = None →
       name = OneClick.freshName (OneClick.projectName result) now).
Proof.
  eexists. eexists. split; [reflexivity|]. split; [|split; [reflexivity|]].
  - unfold Server.action, Server.bodyOf.
    cbn [OneClick.action OneClick.imageName OneClick.requestFiles OneClick.flyAppName
         OneClick.flyRegion OneClick.boltUrl Server.imageName Server.files Server.deployAction
         Server.flyAppName Server.flyRegion Server.boltUrl].
    change (String.eqb "POST" "POST") with true. cbn [negb].
    rewrite (truthy_Some (OneClick.projectName result +:+ ":latest")).
    2: { destruct (OneClick.projectName result); discriminate. }
    rewrite (bool_decide_eq_true_2 (is_Some (Some (OneClick.files result)))) by eauto.
    cbn [negb orb]. cbv zeta.
    rewrite (bool_decide_eq_false_2 (Some "fly-deploy" = Some "package")) by discriminate.
    rewrite (bool_decide_eq_false_2 (Some "fly-deploy" = Some "build")) by discriminate.
    rewrite (bool_decide_eq_true_2 (Some "fly-deploy" = Some "fly-deploy")) by reflexivity.
    cbn [truthy].
    change (bool_decide ("iad" ≠ EmptyString)) with true. cbv iota.
    reflexivity.
  - intros Hfresh. cbn [OneClick.flyAppName].
    assert (Hname : fst (OneClick.chooseAppName URL_hostname existingUrl
                           (OneClick.projectName result) now)
                    = OneClick.freshName (OneClick.projectName result) now).
    { unfold OneClick.chooseAppName. destruct Hfresh as [->| ->]; [reflexivity|].
      now destruct (truthy existingUrl). }
    rewrite Hname. rewrite bool_decide_eq_true_2; [reflexivity|].
    unfold OneClick.freshName, sliceTo.
    destruct (takeStr 24 _); discriminate.
Qed.

End RoutingFacts.

(** ** The fresh app name *)

Section FreshNameFacts.
Import JS Text OneClick.

Lemma isNameChar_digitChar d : (0 ≤ d < 36)%Z → isNameChar (digitChar d) = true.
Proof.
  intros Hd. unfold isNameChar, digitChar.
  destruct (Z.ltb_spec d 10); rewrite N_ascii_embedding by lia.
  - apply orb_true_iff. left. apply orb_true_iff. right.
    apply andb_true_iff. split; apply N.leb_le; lia.
  - apply orb_true_iff. left. apply orb_true_iff. left.
    apply andb_true_iff. split; apply N.leb_le; lia.
Qed.

Lemma allChars_keepNameChars s : allChars isNameChar (keepNameChars s) = true.
Proof.
  induction s as [|c s IH]; [reflexivity|]. cbn [keepNameChars].
  destruct (isNameChar c) eqn:Hc; [|exact IH]. cbn [allChars]. now rewrite Hc.
Qed.

Lemma allChars_takeStr p n : ∀ s, allChars p s = true → allChars p (takeStr n s) = true.
Proof.
  induction n as [|n IH]; intros [|c s] H; try reflexivity.
  cbn [allChars takeStr] in *. apply andb_true_iff in H as [Hc Hs].
  now rewrite Hc, IH.
Qed.

Lemma allChars_dropStr p n : ∀ s, allChars p s = true → allChars p (dropStr n s) = true.
Proof.
  induction n as [|n IH]; intros [|c s] H; try reflexivity; try exact H.
  cbn [allChars dropStr] in *. apply andb_true_iff in H as [Hc Hs]. now apply IH.
Qed.

Lemma length_takeStr_le n : ∀ s, String.length (takeStr n s) ≤ n.
Proof.
  induction n as [|n IH]; intros [|c s]; cbn [takeStr String.length]; try lia.
  specialize (IH s). lia.
Qed.

(** X15.  A fresh name is made of lower-case letters, digits and dashes only,
    is never empty and has at most 29 characters: at most 24 of the
    project name, a dash, and one to four base-36 digits of the clock. *)
Theorem freshName_valid (projectName : string) (now : Z) :
  (0 ≤ now)%Z →
  allChars isNameChar (freshName projectName now) = true
  ∧ 2 ≤ String.length (freshName projectName now) ≤ 29
  ∧ ∃ suffix,
      freshName projectName now
      = takeStr 24 (keepNameChars projectName) +:+ "-" +:+ suffix
      ∧ 1 ≤ String.length suffix ≤ 4.
Proof.
  intros Hnow. unfold freshName, sliceTo, sliceLast.
  assert (Hdigits : toString 36 now ≠ EmptyString
                    ∧ allChars isNameChar (toString 36 now) = true).
  { unfold toString. destruct (Z.ltb_spec now 0); [lia|].
    destruct (digitsFrom_chars isNameChar 36 isNameChar_digitChar ltac:(lia)
                (S (Z.to_nat (Z.log2 now))) now EmptyString) as (ds & Heq & Hlen & Hall); [lia|].
    rewrite Heq, append_nil_r. split; [|exact Hall].
    intros ->. simpl in Hlen. lia. }
  destruct Hdigits as [Hne Hall].
  set (digits := toString 36 now) in *.
  set (suffix := dropStr (String.length digits - 4) digits).
  assert (Hlen : 1 ≤ String.length suffix ≤ 4).
  { subst suffix. rewrite length_dropStr.
    destruct digits; [congruence|]. cbn [String.length]. lia. }
  pose proof (length_takeStr_le 24 (keepNameChars projectName)) as Hhead.
  split; [|split].
  - rewrite !allChars_app, allChars_takeStr by apply allChars_keepNameChars.
    subst suffix. now rewrite allChars_dropStr.
  - rewrite !length_append. cbn [String.length]. lia.
  - exists suffix. split; [reflexivity | exact Hlen].
Qed.

End FreshNameFacts.

Section FreshNameExamples.
Import JS Text OneClick.

Lemma freshName_valid_witness :
  allChars isNameChar (freshName "My Project!" 1730000000000) = true
  ∧ 2 ≤ String.length (freshName "My Project!" 1730000000000) ≤ 29
  ∧ ∃ suffix,
      freshName "My Project!" 1730000000000
      = takeStr 24 (keepNameChars "My Project!") +:+ "-" +:+ suffix
      ∧ 1 ≤ String.length suffix ≤ 4.
Proof. apply freshName_valid. lia. Defined.

End FreshNameExamples.

(** ** Injecting the tracker again *)

Section ReinjectionFacts.
Import JS Text Fly.

Lemma replace_includes s p repl :
  includes s p = true → noDollar repl = true →
  ∃ before after, s = before +:+ p +:+ after ∧ replace s p repl = before +:+ repl +:+ after.
Proof.
  intros Hin Hrepl. unfold includes in Hin.
  destruct (indexOf p s) as [i|] eqn:Hi; [|discriminate].
  assert (Hsplit : splitFirst p s = Some (takeStr i s, dropStr (i + String.length p) s)).
  { unfold splitFirst. now rewrite Hi. }
  apply firstOccurrence_splitFirst in Hsplit.
  exists (takeStr i s), (dropStr (i + String.length p) s).
  split; [apply Hsplit | now apply replace_firstOccurrence].
Qed.

(** One injection into a page that has a [</body>]: the page grows by the
    script, and still has a [</body>]. *)
Lemma injectTracker_grows flyAppName url html fs :
  url ≠ EmptyString → noDollar flyAppName = true → noDollar url = true →
  getFile "index.html" fs = Some html →
  includes html "</body>" = true →
  ∃ html',
    getFile "index.html" (injectTracker flyAppName (Some url) fs) = Some html'
    ∧ String.length html'
      = String.length html + String.length (trackerScript flyAppName url)
    ∧ includes html' "</body>" = true.
Proof.
  intros Hurl Hn Hu Hget Hbody.
  assert (Hhtml : html ≠ EmptyString) by (intros ->; discriminate Hbody).
  pose proof (noDollar_trackerScript flyAppName url Hn Hu) as Hscript.
  rewrite (injectTracker_present flyAppName url html fs Hurl Hget Hhtml). cbv zeta.
  set (script := trackerScript flyAppName url) in *.
  destruct (replace_includes html "</body>" (script +:+ "</body>") Hbody)
    as (before & after & Hsplit & Hrep).
  { rewrite noDollar_app, Hscript. reflexivity. }
  rewrite Hrep, append_assoc.
  rewrite (includes_occurrence script before ("</body>" +:+ after)). cbn [negb].
  exists (before +:+ script +:+ "</body>" +:+ after).
  split; [apply getFile_setFile; discriminate|]. split.
  - rewrite Hsplit, !length_append. lia.
  - apply includes_skip, includes_skip, includes_here.
Qed.

(** X16.  The injection is not idempotent: applied [n] times, each time to
    the files it returned, it leaves [n] copies of the script in a page that
    has a [</body>] (for an app name and an origin without [$]). *)
Theorem injectTracker_repeated (flyAppName url html : string)
    (fileSet : list (string * string)) (n : nat) :
  url ≠ EmptyString → noDollar flyAppName = true → noDollar url = true →
  getFile "index.html" fileSet = Some html →
  includes html "</body>" = true →
  ∃ page,
    getFile "index.html" (Nat.iter n (injectTracker flyAppName (Some url)) fileSet)
    = Some page
    ∧ String.length page
      = String.length html + n * String.length (trackerScript flyAppName url).
Proof.
  intros Hurl Hn Hu Hget Hbody.
  assert (Hiter : ∃ page,
            getFile "index.html" (Nat.iter n (injectTracker flyAppName (Some url)) fileSet)
            = Some page
            ∧ String.length page
              = String.length html + n * String.length (trackerScript flyAppName url)
            ∧ includes page "</body>" = true).
  { induction n as [|n (page & Hpage & Hlen & Hb)].
    - exists html. cbn [Nat.iter]. split; [exact Hget|]. split; [lia | exact Hbody].
    - cbn [Nat.iter].
      destruct (injectTracker_grows flyAppName url page _ Hurl Hn Hu Hpage Hb)
        as (page' & Hpage' & Hlen' & Hb').
      exists page'. split; [exact Hpage'|]. split; [lia | exact Hb']. }
  destruct Hiter as (page & Hpage & Hlen & _). eauto.
Qed.

End ReinjectionFacts.

Section ReinjectionExamples.
Import JS Text Fly.

Lemma injectTracker_repeated_witness :
  ∃ page,
    getFile "index.html"
      (Nat.iter 2 (injectTracker "app" (Some "http://localhost:5173"))
         [("index.html", "<html><body>hi</body></html>")])
    = Some page
    ∧ String.length page
      = String.length "<html><body>hi</body></html>"
        + 2 * String.length (trackerScript "app" "http://localhost:5173").
Proof.
  apply (injectTracker_repeated "app" "http://localhost:5173" "<html><body>hi</body></html>"
           [("index.html", "<html><body>hi</body></html>")] 2);
    try reflexivity.
  intros H. discriminate H.
Defined.

End ReinjectionExamples.

(** ** The log of a failed deployment at the client *)

Section OutcomeFacts.
Import JS Text Fly Outcome.

Variables (flyAppName flyRegion buildDir : string) (port : Z).

Lemma fold_left_append texts : ∀ acc,
  fold_left append texts acc = acc +:+ fold_left append texts EmptyString.
Proof.
  induction texts as [|t texts IH]; intros acc; cbn [fold_left].
  - now rewrite append_nil_r.
  - rewrite IH, (IH (EmptyString +:+ t)). now rewrite append_assoc.
Qed.

Lemma fullLog_app a b : fullLog (a ++ b) = fullLog a +:+ fullLog b.
Proof. unfold fullLog. now rewrite fold_left_app, fold_left_append. Qed.

Lemma logged_app a b : logged (a ++ b) = logged a ++ logged b.
Proof. apply omap_app. Qed.

Lemma fullLog_cons text texts : fullLog (text :: texts) = text +:+ fullLog texts.
Proof. unfold fullLog. cbn [fold_left]. now rewrite fold_left_append. Qed.

Lemma includes_prefix p q rest : includes ((p +:+ q) +:+ rest) p = true.
Proof. rewrite append_assoc. apply includes_here. Qed.

Lemma failureBlock_marker err rest :
  includes (fullLog (logged (fst (failureBlock err) ++ rest))) "✗ Deployment failed" = true.
Proof.
  rewrite logged_app, fullLog_app.
  assert (H : ∃ tail, logged (fst (failureBlock err))
                      = (LF +:+ "✗ Deployment failed: " +:+ errorMessage err +:+ LF) :: tail)
    by (eexists; reflexivity).
  destruct H as [tail ->].
  rewrite fullLog_cons, !append_assoc.
  apply includes_skip.
  apply (includes_prefix "✗ Deployment failed" ": ").
Qed.

Lemma marker_after before err rest :
  includes (fullLog (logged (before ++ fst (failureBlock err) ++ rest)))
    "✗ Deployment failed" = true.
Proof. rewrite logged_app, fullLog_app. apply includes_skip, failureBlock_marker. Qed.

(** X17.  The deploy step succeeds exactly when the process closes with code 0
    and the text of all its data events together, standard output and
    standard error, holds a success phrase; so the verdict does not depend
    on how the output was cut into data events. *)
Theorem deploy_succeeds_iff (output : list chunk) (fin : ending) :
  (snd (deployStep flyAppName flyRegion (Runs output fin)) = inl tt
   ↔ fin = Closed (Some 0%Z) ∧ actuallyDeployed (outputText output) = true)
  ∧ ∀ output',
      outputText output' = outputText output →
      snd (deployStep flyAppName flyRegion (Runs output' fin))
      = snd (deployStep flyAppName flyRegion (Runs output fin)).
Proof.
  split.
  - rewrite deployStep_runs. cbn [snd]. destruct fin as [code|err].
    + destruct (decide (code = Some 0%Z)) as [->|Hcode].
      * rewrite bool_decide_eq_true_2 by reflexivity. cbn [andb].
        destruct (actuallyDeployed (outputText output)); cbn [negb]; split;
          try (intros H; discriminate H); try (intros [_ H]; discriminate H); auto.
      * rewrite bool_decide_eq_false_2 by exact Hcode. cbn [andb].
        split; [intros H; discriminate H|]. intros [[= H] _]. congruence.
    + split; [|intros [H _]; discriminate H].
      intros H. destruct err; discriminate H.
  - intros output' Hsame. rewrite !deployStep_runs. cbn [snd]. now rewrite Hsame.
Qed.

(** X18.  Whenever a step of the stream throws ([spawn] fails, the deploy
    process ends with an error, a non-zero code, or a zero code without a
    success phrase) the log the client has read holds the failure marker,
    so the one-click deploy shows an error and no URL. *)
Theorem failed_stream_is_reported (createApp deploy : child) (rmError : option thrown)
    (err : thrown) :
  createApp = SpawnThrows err
  ∨ (∃ output fin, createApp = Runs output fin)
    ∧ snd (deployStep flyAppName flyRegion deploy) = inr err →
  let text :=
    fullLog (logged (fst (start flyAppName flyRegion buildDir port createApp deploy rmError))) in
  failureMarker text = true ∧ finish flyAppName text = (error, None).
Proof.
  intros Hfail text.
  assert (Hmark : includes text "✗ Deployment failed" = true).
  { subst text. rewrite start_stepsTrace. cbn [fst]. unfold stepsTrace.
    destruct Hfail as [->|[(output & fin & ->) Hdeploy]].
    - rewrite createAppStep_throws, <- app_assoc. apply marker_after.
    - rewrite createAppStep_runs.
      destruct (deployStep flyAppName flyRegion deploy) as [t2 r2].
      cbn [snd] in Hdeploy. subst r2.
      generalize (createHeader flyAppName flyRegion port
                  ++ ((λ c : chunk, Log (createLog flyAppName c)) <$> output)).
      intros t1.
      rewrite <- (app_assoc t1), <- (app_assoc t2), (app_assoc t1 t2).
      apply marker_after. }
  unfold finish, failureMarker. rewrite Hmark. split; reflexivity.
Qed.

End OutcomeFacts.

Section OutcomeExamples.
Import JS Text Fly Outcome.

Lemma failed_stream_is_reported_witness :
  let text :=
    fullLog (logged (fst (start "app" "iad" "/tmp/bolt-fly-deploy-1" 3000
                            (Runs [Stdout "created"] (Closed (Some 0%Z)))
                            (Runs [Stdout "Usage: flyctl deploy"] (Closed (Some 0%Z)))
                            None))) in
  failureMarker text = true ∧ finish "app" text = (error, None).
Proof.
  apply (failed_stream_is_reported "app" "iad" "/tmp/bolt-fly-deploy-1" 3000
           (Runs [Stdout "created"] (Closed (Some 0%Z)))
           (Runs [Stdout "Usage: flyctl deploy"] (Closed (Some 0%Z))) None
           (ErrorObj "flyctl exited but deployment did not complete. Check the log above for details.")).
  right. split; [eauto | reflexivity].
Defined.

End OutcomeExamples.

(** ** The archive: its size and the fields of a header *)

Section ArchiveSizeFacts.
Import JS Tar TarReader TarSize.

Lemma padded_blocks n pad :
  pad < 512 → (n + pad) mod 512 = 0 → n + pad = 512 * blocks n.
Proof.
  intros Hpad Hmod. unfold blocks.
  pose proof (Nat.div_mod_eq (n + pad) 512) as H1.
  pose proof (Nat.div_mod_eq (n + 511) 512) as H2.
  pose proof (Nat.mod_upper_bound (n + 511) 512 ltac:(lia)) as H3.
  rewrite Hmod in H1.
  generalize dependent ((n + pad) / 512). generalize dependent ((n + 511) / 512).
  generalize dependent ((n + 511) mod 512). intros. lia.
Qed.

Lemma archiveLayout_length clock i files body :
  archiveLayout clock i files body →
  length body
  = sum_list ((λ '(_, content), 512 + 512 * blocks (length (encode content))) <$> files).
Proof.
  induction 1 as [|i filePath content rest header pad more Hhdr Hlen Hpad Hmod _ IH];
    [reflexivity|].
  rewrite !length_app, length_replicate, Hlen, IH. cbn [fmap list_fmap sum_list].
  pose proof (padded_blocks _ _ Hpad Hmod). unfold id. lia.
Qed.

(** X19.  The archive is made of whole blocks: its length is 512 for each
    header, 512 for each block of content started, and 1024 for the end of
    the archive; an empty file set gives the 1024 zero bytes alone. *)
Theorem tarBuffer_size (clock : nat → Z) (fileSet : list (string * string)) :
  (∀ i, (0 ≤ clock i < 2 ^ 53)%Z) →
  sizesInRange fileSet →
  ∃ buffer,
    tarBuffer clock fileSet = Some buffer
    ∧ length buffer = archiveSize fileSet
    ∧ length buffer mod 512 = 0
    ∧ (fileSet = [] → buffer = replicate 1024 0%Z).
Proof.
  intros Hclock Hsizes.
  destruct (packEntries_layout clock Hclock fileSet 0 Hsizes) as (entries & Hpack & Hlay & _).
  exists (concat (entries ++ [replicate 1024 0%Z])).
  assert (Hlen : length (concat (entries ++ [replicate 1024 0%Z])) = archiveSize fileSet).
  { rewrite concat_app, length_app. cbn [concat]. rewrite app_nil_r, length_replicate.
    unfold archiveSize. now rewrite (archiveLayout_length _ _ _ _ Hlay). }
  split; [|split; [exact Hlen|split]].
  - unfold tarBuffer. rewrite Hpack. reflexivity.
  - rewrite Hlen. unfold archiveSize.
    assert (Hsum : ∃ k, sum_list ((λ '(_, content),
                                    512 + 512 * blocks (length (encode content))) <$> fileSet)
                        = 512 * k).
    { clear. induction fileSet as [|[filePath content] rest [k IH]].
      - exists 0. reflexivity.
      - exists (1 + blocks (length (encode content)) + k).
        cbn [fmap list_fmap sum_list]. rewrite IH. unfold id. lia. }
    destruct Hsum as [k ->].
    replace (512 * k + 1024) with ((k + 2) * 512) by lia.
    apply Nat.Div0.mod_mul.
  - intros ->. cbn [packEntries] in Hpack. injection Hpack as <-. reflexivity.
Qed.

(** X20.  The fields a reader decodes from a header: mode 0644, owner and group
    0o1000, the size and the modification time in seconds (each when it
    has at most eleven octal digits), the type flag of a regular file and
    the ustar magic and version. *)
Theorem createTarHeader_fields_decode (fileName : string) (fileSize now : Z) :
  (0 ≤ fileSize < 8 ^ 11)%Z →
  (0 ≤ now < 1000 * 8 ^ 11)%Z →
  ∃ hdr, createTarHeader fileName fileSize now = Some hdr
    ∧ parseOctal (slice 100 8 hdr) = Some 420%Z
    ∧ parseOctal (slice 108 8 hdr) = Some 512%Z
    ∧ parseOctal (slice 116 8 hdr) = Some 512%Z
    ∧ parseOctal (slice 124 12 hdr) = Some fileSize
    ∧ parseOctal (slice 136 12 hdr) = Some (now / 1000)%Z
    ∧ hdr !! 156 = Some 48%Z
    ∧ slice 257 8 hdr = encode ("ustar" +:+ NUL +:+ "00").
Proof.
  intros Hsize Hnow.
  assert (Hq : (0 ≤ now / 1000 < 8 ^ 11)%Z).
  { split; [apply Z.div_pos; lia|]. apply Z.div_lt_upper_bound; lia. }
  destruct (createTarHeader_fields fileName fileSize now)
    as (hdr & Hhdr & Hmode & Huid & Hgid & Hsz & Hmt & Htf & Hmagic & Hver); [lia | lia |].
  exists hdr. split; [exact Hhdr|].
  rewrite Hmode, Huid, Hgid, (Hsz ltac:(lia)), (Hmt ltac:(lia)), !encode_app.
  change (encode NUL) with [0%Z].
  rewrite !parseOctal_padStart by lia.
  repeat split; try reflexivity; [exact Htf|].
  assert (Hsplit : slice 257 8 hdr = slice 257 6 hdr ++ slice 263 2 hdr).
  { unfold slice. change 263 with (257 + 6). rewrite <- drop_drop.
    generalize (drop 257 hdr). intros l.
    change 8 with (6 + 2). rewrite <- take_take_drop. reflexivity. }
  rewrite Hsplit, Hmagic, Hver. reflexivity.
Qed.

End ArchiveSizeFacts.

Section ArchiveSizeExamples.
Import JS Tar TarReader TarSize.

Lemma tarBuffer_size_witness :
  ∃ buffer,
    tarBuffer (λ _, 1730000000000%Z)
      [("a.txt", "hello"); ("empty", ""); ("full", repeatChar 512 "x")]
    = Some buffer
    ∧ length buffer = 3584.
Proof.
  destruct (tarBuffer_size (λ _, 1730000000000%Z)
              [("a.txt", "hello"); ("empty", ""); ("full", repeatChar 512 "x")])
    as (buffer & Hbuf & Hlen & _).
  - intros _. lia.
  - repeat constructor; vm_compute; reflexivity.
  - exists buffer. split; [exact Hbuf|]. rewrite Hlen. reflexivity.
Defined.

Lemma createTarHeader_fields_decode_witness :
  ∃ hdr, createTarHeader "src/a.txt" 5 1730000000000 = Some hdr
    ∧ parseOctal (slice 100 8 hdr) = Some 420%Z
    ∧ parseOctal (slice 108 8 hdr) = Some 512%Z
    ∧ parseOctal (slice 116 8 hdr) = Some 512%Z
    ∧ parseOctal (slice 124 12 hdr) = Some 5%Z
    ∧ parseOctal (slice 136 12 hdr) = Some (1730000000000 / 1000)%Z
    ∧ hdr !! 156 = Some 48%Z
    ∧ slice 257 8 hdr = encode ("ustar" +:+ NUL +:+ "00").
Proof. apply createTarHeader_fields_decode; lia. Defined.

End ArchiveSizeExamples.

(** ** From one deploy to the next *)

Section RedeployFacts.
Import JS Text OneClick Outcome.

Variable URL_hostname : string → option string.

Lemma firstLabel_app name rest :
  allChars isNameChar name = true → firstLabel (name +:+ "." +:+ rest) = name.
Proof.
  induction name as [|c name IH]; intros H; [reflexivity|].
  cbn [allChars] in H. apply andb_true_iff in H as [Hc Hname].
  rewrite append_cons. cbn [firstLabel].
  destruct (Ascii.eqb_spec c ".") as [->|_]; [discriminate Hc|].
  now rewrite IH.
Qed.

(** X22.  From one deploy to the next.  A deploy whose log holds no failure
    marker stores the URL [https://<name>.fly.dev].  At the next deploy,
    when the URL constructor accepts that URL and gives [<name>.fly.dev]
    as its hostname, a name of lower-case letters, digits and dashes (a
    fresh name is one) is given back, whatever the clock and the project
    name then are; when the constructor throws on the stored URL, the name
    is lost and a fresh one is made. *)
Theorem stored_url_gives_name_back (name log projectName : string) (now : Z) :
  allChars isNameChar name = true →
  failureMarker log = false →
  ∃ url,
    finish name log = (success, Some url)
    ∧ url = "https://" +:+ name +:+ ".fly.dev"
    ∧ (URL_hostname url = Some (name +:+ ".fly.dev") →
       fst (chooseAppName URL_hostname (Some url) projectName now) = name)
    ∧ (URL_hostname url = None →
       fst (chooseAppName URL_hostname (Some url) projectName now)
       = freshName projectName now).
Proof.
  intros Hname Hlog. exists (appUrl name). split; [|split; [reflexivity|]].
  - unfold finish. now rewrite Hlog.
  - unfold chooseAppName.
    change (truthy (Some (appUrl name))) with true.
    change (default EmptyString (Some (appUrl name))) with (appUrl name).
    split; intros Hhost; rewrite Hhost; cbn [fst]; [|reflexivity].
    apply (firstLabel_app name "fly.dev" Hname).
Qed.

End RedeployFacts.

Section RedeployExamples.
Import JS Text OneClick Outcome.

(** A name given back, and a name lost: the URL constructor throws on
    [https://xn--a.fly.dev], whose first label starts like a punycode label
    and is none. *)
Lemma stored_url_gives_name_back_witness :
  (∃ url,
     finish "foo-ab12" "deployed" = (success, Some url)
     ∧ fst (chooseAppName exampleHostname (Some url) "other project" 0) = "foo-ab12")
  ∧ (∃ url,
       finish "xn--a" "deployed" = (success, Some url)
       ∧ fst (chooseAppName exampleHostname (Some url) "xn--a" 0) = "xn--a-0").
Proof.
  split.
  - destruct (stored_url_gives_name_back exampleHostname "foo-ab12" "deployed" "other project" 0)
      as (url & Hfinish & -> & Hback & _); [reflexivity | reflexivity |].
    eexists. split; [exact Hfinish|]. apply Hback. reflexivity.
  - destruct (stored_url_gives_name_back exampleHostname "xn--a" "deployed" "xn--a" 0)
      as (url & Hfinish & -> & _ & Hlost); [reflexivity | reflexivity |].
    eexists. split; [exact Hfinish|]. rewrite Hlost by reflexivity. reflexivity.
Defined.

End RedeployExamples.
